(** * img-mcp: path validation, retry policy and metadata lifecycle

    A shallow embedding of the implementation file of the img-mcp server
    (the TypeScript class [PathValidator], the function [retryWithBackoff]
    and the metadata and configuration methods of the class [ImgMcp]),
    followed by the properties of the specification that concern them.

    Conventions of the embedding:
    - a JavaScript string is the [string] of its UTF-8 bytes;
      [s.startsWith(p)], [s.includes(p)], [a === b] and [l.join(sep)] are
      [startsWith], [includes], [String.eqb] and [String.concat], and
      [s.length] counts UTF-16 code units ([Str.length]);
    - a thrown exception is the [Err] branch of [result];
    - the [Map<string, ImageMetadata>] of the server is an association list
      in insertion order ([JsMap]); the files of the disk are a [gmap];
    - the file system, the clock and the upstream API are explicit state or
      explicit inputs;
    - Node's [path] module is modelled for POSIX hosts ([path.sep] is "/"). *)

From Stdlib Require Import ZArith Ascii String List Bool Lia DecimalString.
From Stdlib Require Import Sorted.
From stdpp Require Import gmap strings list fin_maps.

(** ** Strings *)

Module Str.

(** [s.startsWith(p)] *)
Definition startsWith (s p : string) : bool := String.prefix p s.

(** [s.endsWith(p)] *)
Definition endsWith (s p : string) : bool :=
  String.prefix (String.rev p) (String.rev s).

(** [s.includes(p)] *)
Fixpoint includes (s p : string) : bool :=
  String.prefix p s ||
  match s with
  | EmptyString => false
  | String _ s' => includes s' p
  end.

(** [s.split(c)] for a one-character separator *)
Fixpoint split_on (c : ascii) (s : string) : list string :=
  match s with
  | EmptyString => [EmptyString]
  | String a s' =>
      if Ascii.eqb a c then EmptyString :: split_on c s'
      else match split_on c s' with
           | [] => [String a EmptyString]
           | h :: t => String a h :: t
           end
  end.

(** the characters of [s] after the first [n] *)
Fixpoint drop (n : nat) (s : string) : string :=
  match n, s with
  | O, _ => s
  | S _, EmptyString => EmptyString
  | S n', String _ s' => drop n' s'
  end.

(** [s.replace(/[:.]/g, '-')] *)
Fixpoint replace_colon_dot (s : string) : string :=
  match s with
  | EmptyString => EmptyString
  | String a s' =>
      String (if Ascii.eqb a ":" || Ascii.eqb a "." then "-"%char else a)
             (replace_colon_dot s')
  end.

(** the UTF-16 code units that a byte of UTF-8 text stands for: none for a
    continuation byte (10xxxxxx), two (a surrogate pair) for the first byte
    of a four-byte sequence (11110xxx), one for any other byte *)
Definition units (a : ascii) : nat :=
  let n := nat_of_ascii a in
  if (n <? 128)%nat then 1%nat
  else if (n <? 192)%nat then O
  else if (n <? 240)%nat then 1%nat
  else 2%nat.

(** [s.length] *)
Fixpoint length (s : string) : nat :=
  match s with
  | EmptyString => O
  | String a s' => (units a + length s')%nat
  end.

(** a string free of the character [c] *)
Fixpoint free_of (c : ascii) (s : string) : bool :=
  match s with
  | EmptyString => true
  | String a s' => negb (Ascii.eqb a c) && free_of c s'
  end.

End Str.

(** ** Errors *)

(** The error codes of the protocol SDK that the server uses. *)
Inductive ErrorCode : Set :=
| InvalidParams
| InvalidRequest
| InternalError
| MethodNotFound.

(** the number of a code in the enum [ErrorCode] of the SDK, as text *)
Definition code_text (c : ErrorCode) : string :=
  match c with
  | InvalidParams => "-32602"
  | InvalidRequest => "-32600"
  | InternalError => "-32603"
  | MethodNotFound => "-32601"
  end.

(** A thrown JavaScript value: an [McpError] (with the code and the message
    given to its constructor), any other [Error], or a value that is not an
    [Error] at all (shown through [String(value)]). *)
Inductive JsError : Set :=
| McpError (code : ErrorCode) (message : string)
| PlainError (message : string)
| Thrown (shown : string).

(** [error instanceof Error ? error.message : String(error)]. The
    constructor of [McpError] gives [Error] the message
    [`MCP error ${code}: ${message}`]. *)
Definition error_text (e : JsError) : string :=
  match e with
  | McpError c m => "MCP error " +:+ code_text c +:+ ": " +:+ m
  | PlainError m => m
  | Thrown s => s
  end.

Inductive result (A : Type) : Type :=
| Ok (value : A)
| Err (error : JsError).
Arguments Ok {A} value.
Arguments Err {A} error.

Definition is_ok {A} (r : result A) : bool :=
  match r with Ok _ => true | Err _ => false end.

(** ** The process environment *)

Inductive Platform : Set := win32 | posix.

Record Env : Set := {
  cwd : string;               (* process.cwd() *)
  homedir : string;           (* os.homedir() *)
  platform : Platform;        (* os.platform() *)
  GEMINI_API_KEY : option string; (* process.env.GEMINI_API_KEY *)
  umask : Z                   (* process.umask() *)
}.

(** ** Node's [path] module (POSIX) *)

Module Path.

Definition sep : string := "/".

(** Segment-level reading of Node's [normalizeString]: empty segments and
    "." are skipped; ".." removes the segment before it, unless there is
    none or it is itself "..", in which case ".." is kept when
    [allowAboveRoot] and dropped otherwise. [acc] is the stack of kept
    segments, innermost first. *)
Fixpoint normalize_segments (allowAboveRoot : bool) (acc segs : list string)
    : list string :=
  match segs with
  | [] => rev acc
  | s :: rest =>
      if String.eqb s "" || String.eqb s "." then
        normalize_segments allowAboveRoot acc rest
      else if String.eqb s ".." then
        match acc with
        | top :: acc' =>
            if String.eqb top ".." then
              normalize_segments allowAboveRoot
                (if allowAboveRoot then ".." :: acc else acc) rest
            else normalize_segments allowAboveRoot acc' rest
        | [] =>
            normalize_segments allowAboveRoot
              (if allowAboveRoot then [".."] else []) rest
        end
      else normalize_segments allowAboveRoot (s :: acc) rest
  end.

(** The string [path.resolve] normalizes: the argument when it is
    absolute, the working directory followed by the argument otherwise
    (an empty argument is skipped). *)
Definition resolve_join (cwd p : string) : string :=
  if String.eqb p "" then cwd +:+ "/"
  else if Str.startsWith p "/" then p +:+ "/"
  else cwd +:+ "/" +:+ p +:+ "/".

Definition segments (cwd p : string) : list string :=
  normalize_segments false [] (Str.split_on "/" (resolve_join cwd p)).

(** an absolute path from its segments *)
Definition render (segs : list string) : string :=
  "/" +:+ String.concat "/" segs.

(** [path.resolve(p)] in a process whose working directory is [cwd] *)
Definition resolve (cwd p : string) : string := render (segments cwd p).

(** [path.normalize(p)] *)
Definition normalize (p : string) : string :=
  let isAbsolute := Str.startsWith p "/" in
  let trailingSeparator := Str.endsWith p "/" in
  let body :=
    String.concat "/"
      (normalize_segments (negb isAbsolute) [] (Str.split_on "/" p)) in
  if String.eqb body "" then
    if isAbsolute then "/" else if trailingSeparator then "./" else "."
  else
    (if isAbsolute then "/" else "") +:+ body
    +:+ (if trailingSeparator then "/" else "").

(** [path.join(...parts)] *)
Definition join (parts : list string) : string :=
  match filter (fun s => negb (String.eqb s "")) parts with
  | [] => "."
  | kept => normalize (String.concat "/" kept)
  end.

End Path.

(** ** PathValidator *)

Record PathValidator : Set := {
  allowedDirectories : list string;
  imagesDirectory : string
}.

(** [new PathValidator(imagesDirectory)] *)
Definition new_PathValidator (env : Env) (imagesDir : string) : PathValidator :=
  {| allowedDirectories := [imagesDir; cwd env; homedir env];
     imagesDirectory := imagesDir |}.

Definition traversal_message (filePath : string) : string :=
  "Path contains directory traversal: " +:+ filePath
  +:+ ". Paths must be within allowed directories.".

Definition not_allowed_message (this : PathValidator) (filePath : string) : string :=
  "Path not allowed: " +:+ filePath +:+ ". Must be within: "
  +:+ String.concat ", " (allowedDirectories this).

(** the callback given to [allowedDirectories.some] *)
Definition within_allowed (env : Env) (resolvedPath allowedDir : string) : bool :=
  let resolvedAllowed := Path.resolve (cwd env) allowedDir in
  Str.startsWith resolvedPath (resolvedAllowed +:+ Path.sep)
  || String.eqb resolvedPath resolvedAllowed.

Definition validateAndSanitize (env : Env) (this : PathValidator)
    (filePath : string) : result string :=
  let resolvedPath := Path.resolve (cwd env) filePath in
  if Str.includes resolvedPath ".." then
    Err (McpError InvalidParams (traversal_message filePath))
  else
    let isAllowed :=
      existsb (within_allowed env resolvedPath) (allowedDirectories this) in
    if negb isAllowed then
      Err (McpError InvalidParams (not_allowed_message this filePath))
    else Ok resolvedPath.

(** The spec's containment of a candidate in a root: the segments of the
    canonical root are an initial part of the segments of the canonical
    candidate (the candidate is the root or lies below it). *)
Definition contained_in (env : Env) (root candidate : string) : Prop :=
  Path.segments (cwd env) root `prefix_of` Path.segments (cwd env) candidate.

(** a raw input with a parent-directory segment *)
Definition has_parent_segment (filePath : string) : bool :=
  existsb (String.eqb "..") (Str.split_on "/" filePath).

(** ** Configuration and image metadata *)

Module Config.
Record t : Set := {
  geminiApiKey : string;
  model : string;
  defaultFormat : string;
  outputDirectory : option string;
  maxImageSize : Z;
  maxPromptLength : Z;
  maxReferenceImages : Z
}.
End Config.

Inductive ConfigSource : Set := environment | config_file | not_configured.

Record GenerationSettings : Set := {
  settings_model : option string;
  settings_format : option string;
  settings_quality : option string
}.

Inductive ImageType : Set := generated | edited.

Module ImageMetadata.
Record t : Set := {
  id : string;
  filePath : string;
  uri : string;
  prompt : string;
  type : ImageType;
  timestamp : string;
  model : string;
  format : string;
  size : Z;
  referenceImages : option (list string);
  parentImageId : option string
}.
End ImageMetadata.

(** ** The file system *)

(** What a file holds. The two JSON files of the server hold the value that
    was given to [JSON.stringify] ([JSON.parse] gives it back: both values are
    plain data); image files hold bytes. *)
Inductive FileData : Set :=
| ConfigJson (c : Config.t)
| MetadataJson (records : list ImageMetadata.t)
| ImageBytes (bytes : string)
| OtherData (text : string).

Record File : Set := {
  data : FileData;
  perm : Z      (* permission bits *)
}.

Inductive FsOp : Set := OpWrite | OpRead | OpUnlink | OpAccess | OpMkdir.

(** The files and directories, and the environment's refusals: [denied op p]
    is the message of the error ([EACCES], [ENOSPC], a missing parent
    directory, ...) that operation [op] on path [p] fails with, if any. *)
Record FileSystem : Type := {
  files : gmap string File;
  dirs : gset string;
  denied : FsOp -> string -> option string
}.

Definition mode_0o666 : Z := 438.
Definition mode_0o600 : Z := 384.
Definition mode_0o755 : Z := 493.

Definition set_files (fs : FileSystem) (fl : gmap string File) : FileSystem :=
  {| files := fl; dirs := dirs fs; denied := denied fs |}.

(** [fs.writeFile(p, d, { mode })]: a new file gets the given mode (0o666
    when none is given) less the bits of the process umask; an existing file
    keeps its permission bits. *)
Definition writeFile (env : Env) (fs : FileSystem) (p : string) (d : FileData)
    (mode : option Z) : result FileSystem :=
  match denied fs OpWrite p with
  | Some msg => Err (PlainError msg)
  | None =>
      let bits :=
        match files fs !! p with
        | Some f => perm f
        | None => Z.ldiff (default mode_0o666 mode) (umask env)
        end in
      Ok (set_files fs (<[p := {| data := d; perm := bits |}]> (files fs)))
  end.

(** [fs.readFile(p)] *)
Definition readFile (fs : FileSystem) (p : string) : result FileData :=
  match denied fs OpRead p with
  | Some msg => Err (PlainError msg)
  | None =>
      match files fs !! p with
      | Some f => Ok (data f)
      | None => Err (PlainError ("ENOENT: no such file or directory, open '" +:+ p +:+ "'"))
      end
  end.

(** [fs.access(p)] *)
Definition access (fs : FileSystem) (p : string) : result unit :=
  match denied fs OpAccess p with
  | Some msg => Err (PlainError msg)
  | None =>
      if bool_decide (is_Some (files fs !! p)) || bool_decide (p ∈ dirs fs)
      then Ok tt
      else Err (PlainError ("ENOENT: no such file or directory, access '" +:+ p +:+ "'"))
  end.

(** [fs.unlink(p)] *)
Definition unlink (fs : FileSystem) (p : string) : result FileSystem :=
  match denied fs OpUnlink p with
  | Some msg => Err (PlainError msg)
  | None =>
      match files fs !! p with
      | Some _ => Ok (set_files fs (delete p (files fs)))
      | None => Err (PlainError ("ENOENT: no such file or directory, unlink '" +:+ p +:+ "'"))
      end
  end.

(** [fs.mkdir(p, { recursive: true })] *)
Definition mkdir (fs : FileSystem) (p : string) : result FileSystem :=
  match denied fs OpMkdir p with
  | Some msg => Err (PlainError msg)
  | None => Ok {| files := files fs; dirs := {[ p ]} ∪ dirs fs; denied := denied fs |}
  end.

(** ** Logger *)

Inductive Level : Set := DEBUG | INFO | WARN | ERROR.

(** One line written to stderr: the level and the message (the timestamp and
    the data object of the entry are left out). *)
Record LogEntry : Set := { level : Level; message : string }.

(** ** retryWithBackoff *)

(** What one run of [retryWithBackoff] did: its result, the number of times
    the operation was invoked, the delays it slept (in order) and the
    warnings it logged. *)
Record RetryRun (T : Type) : Type := {
  retry_result : result T;
  retry_calls : nat;
  retry_delays : list Z;
  retry_log : list LogEntry
}.
Arguments retry_result {T} r.
Arguments retry_calls {T} r.
Arguments retry_delays {T} r.
Arguments retry_log {T} r.

(** [lastError = error instanceof Error ? error : new Error(String(error))] *)
Definition as_Error (e : JsError) : JsError :=
  match e with
  | Thrown s => PlainError s
  | _ => e
  end.

(** the errors that are thrown again at once *)
Definition not_retried (e : JsError) : bool :=
  match e with
  | McpError InvalidParams _ | McpError InvalidRequest _ => true
  | _ => false
  end.

(** decimal text of an integer, for messages *)
Definition show_Z (z : Z) : string :=
  NilZero.string_of_int (Z.to_int z).

Definition retry_warning (attempt maxRetries delay : Z) : LogEntry :=
  {| level := WARN;
     message := "Retry attempt " +:+ show_Z (attempt + 1) +:+ "/"
                +:+ show_Z maxRetries +:+ " after " +:+ show_Z delay +:+ "ms" |}.

(** The [for] loop of [retryWithBackoff], from [attempt] on. The operation
    is a thunk whose outcome may change from call to call: [fn k] is the
    outcome of its call number [k] (from 0). [fuel] bounds the iterations;
    [None] means it ran out. *)
Fixpoint retry_loop {T} (fuel : nat) (fn : nat -> result T)
    (maxRetries initialDelay attempt : Z) (lastError : option JsError)
    (calls : nat) (delays : list Z) (lg : list LogEntry)
    : option (RetryRun T) :=
  match fuel with
  | O => None
  | S fuel' =>
      if (attempt <=? maxRetries)%Z then
        match fn calls with
        | Ok v =>
            Some {| retry_result := Ok v; retry_calls := S calls;
                    retry_delays := delays; retry_log := lg |}
        | Err error =>
            if not_retried error then
              Some {| retry_result := Err error; retry_calls := S calls;
                      retry_delays := delays; retry_log := lg |}
            else if (attempt <? maxRetries)%Z then
              let delay := (initialDelay * 2 ^ attempt)%Z in
              retry_loop fuel' fn maxRetries initialDelay (attempt + 1)%Z
                (Some (as_Error error)) (S calls) (delays ++ [delay])
                (lg ++ [retry_warning attempt maxRetries delay])
            else
              retry_loop fuel' fn maxRetries initialDelay (attempt + 1)%Z
                (Some (as_Error error)) (S calls) delays lg
        end
      else
        Some {| retry_result :=
                  Err (default (PlainError "Unknown error") lastError);
                retry_calls := calls; retry_delays := delays;
                retry_log := lg |}
  end.

(** the iterations of the loop, and one more for its exit test *)
Definition retry_fuel (maxRetries : Z) : nat := S (Z.to_nat (maxRetries + 1)).

Definition retryWithBackoff_from {T} (fn : nat -> result T)
    (maxRetries initialDelay : Z) : option (RetryRun T) :=
  retry_loop (retry_fuel maxRetries) fn maxRetries initialDelay 0%Z None
    O [] [].

(** [retryWithBackoff(fn, maxRetries, initialDelay)]; the loop always ends
    within its fuel ([retryWithBackoff_from_total]), so the default branch
    is never taken. *)
Definition retryWithBackoff {T} (fn : nat -> result T)
    (maxRetries initialDelay : Z) : RetryRun T :=
  default {| retry_result := Err (PlainError "Unknown error");
             retry_calls := O; retry_delays := []; retry_log := [] |}
          (retryWithBackoff_from fn maxRetries initialDelay).

(** the default arguments of [retryWithBackoff] *)
Definition default_maxRetries : Z := 3.
Definition default_initialDelay : Z := 1000.

(** ** The insertion-ordered [Map] of JavaScript *)

Module JsMap.

Definition t (V : Type) : Type := list (string * V).

Definition empty {V} : t V := [].

(** [m.get(k)] *)
Fixpoint get {V} (m : t V) (k : string) : option V :=
  match m with
  | [] => None
  | (k', v) :: m' => if String.eqb k' k then Some v else get m' k
  end.

(** [m.set(k, v)]: in place when the key is present, at the end otherwise *)
Fixpoint set {V} (m : t V) (k : string) (v : V) : t V :=
  match m with
  | [] => [(k, v)]
  | (k', v') :: m' =>
      if String.eqb k' k then (k, v) :: m' else (k', v') :: set m' k v
  end.

(** [m.delete(k)] *)
Fixpoint delete {V} (m : t V) (k : string) : t V :=
  match m with
  | [] => []
  | (k', v') :: m' =>
      if String.eqb k' k then m' else (k', v') :: delete m' k
  end.

(** [Array.from(m.values())] *)
Definition values {V} (m : t V) : list V := map snd m.

Definition keys {V} (m : t V) : list string := map fst m.

(** a map as [set] and [delete] build it: no key twice *)
Definition wf {V} (m : t V) : Prop := NoDup (keys m).

End JsMap.

(** ** The server *)

Record ImgMcp : Type := {
  genAI : option string;          (* the API client, by the key it holds *)
  config : option Config.t;
  configSource : ConfigSource;
  lastImagePath : option string;
  imageMetadata : JsMap.t ImageMetadata.t;
  pathValidator : option PathValidator;
  generationSettings : GenerationSettings
}.

(** [new ImgMcp()] *)
Definition new_ImgMcp : ImgMcp :=
  {| genAI := None; config := None; configSource := not_configured;
     lastImagePath := None; imageMetadata := JsMap.empty;
     pathValidator := None;
     generationSettings :=
       {| settings_model := None; settings_format := None;
          settings_quality := None |} |}.

(** What lies outside the server object: the disk, the lines written to
    stderr and the delays slept. *)
Record World : Type := {
  disk : FileSystem;
  stderr : list LogEntry;
  slept : list Z
}.

Record State : Type := { this : ImgMcp; world : World }.

(** A method of the server: it may throw, and it leaves a state behind in
    both cases. *)
Definition M (A : Type) : Type := State -> result A * State.

Definition ret {A} (a : A) : M A := fun s => (Ok a, s).
Definition throw {A} (e : JsError) : M A := fun s => (Err e, s).
Definition lift_result {A} (r : result A) : M A := fun s => (r, s).
Definition bind {A B} (c : M A) (k : A -> M B) : M B :=
  fun s =>
    match c s with
    | (Ok a, s') => k a s'
    | (Err e, s') => (Err e, s')
    end.
(** [try { body } catch (error) { handler }] *)
Definition try_catch {A} (body : M A) (handler : JsError -> M A) : M A :=
  fun s =>
    match body s with
    | (Ok a, s') => (Ok a, s')
    | (Err e, s') => handler e s'
    end.

Declare Scope method_scope.
Delimit Scope method_scope with method.
Notation "x <- c ;; k" := (bind c (fun x => k))
  (at level 100, c at next level, right associativity) : method_scope.
Notation "c ;;; k" := (bind c (fun _ => k))
  (at level 100, right associativity) : method_scope.
Open Scope method_scope.

Definition get_this : M ImgMcp := fun s => (Ok (this s), s).
Definition update_this (f : ImgMcp -> ImgMcp) : M unit :=
  fun s => (Ok tt, {| this := f (this s); world := world s |}).

(** an operation of [fs] that changes the disk *)
Definition on_disk (op : FileSystem -> result FileSystem) : M unit :=
  fun s =>
    match op (disk (world s)) with
    | Ok d =>
        (Ok tt, {| this := this s;
                   world := {| disk := d; stderr := stderr (world s);
                               slept := slept (world s) |} |})
    | Err e => (Err e, s)
    end.

(** an operation of [fs] that only reads *)
Definition from_disk {A} (op : FileSystem -> result A) : M A :=
  fun s => (op (disk (world s)), s).

Definition Logger_log (lv : Level) (msg : string) : M unit :=
  fun s =>
    (Ok tt, {| this := this s;
               world := {| disk := disk (world s);
                           stderr := stderr (world s)
                                     ++ [{| level := lv; message := msg |}];
                           slept := slept (world s) |} |}).

(** [await retryWithBackoff(fn)] with the default arguments: the delays and
    the warnings of the run go to the world. *)
Definition await_retry {T} (fn : nat -> result T) : M T :=
  fun s =>
    let run := retryWithBackoff fn default_maxRetries default_initialDelay in
    (retry_result run,
     {| this := this s;
        world := {| disk := disk (world s);
                    stderr := stderr (world s) ++ retry_log run;
                    slept := slept (world s) ++ retry_delays run |} |}).

(** field updates of the server object *)
Definition with_imageMetadata (m : JsMap.t ImageMetadata.t) (t : ImgMcp) : ImgMcp :=
  {| genAI := genAI t; config := config t; configSource := configSource t;
     lastImagePath := lastImagePath t; imageMetadata := m;
     pathValidator := pathValidator t;
     generationSettings := generationSettings t |}.

Definition with_lastImagePath (p : string) (t : ImgMcp) : ImgMcp :=
  {| genAI := genAI t; config := config t; configSource := configSource t;
     lastImagePath := Some p; imageMetadata := imageMetadata t;
     pathValidator := pathValidator t;
     generationSettings := generationSettings t |}.

(** a string that is not [undefined] and not empty *)
Definition truthy (o : option string) : option string :=
  match o with
  | Some s => if String.eqb s "" then None else Some s
  | None => None
  end.

(** [a || b] on optional strings *)
Definition or_else (a b : option string) : option string :=
  match truthy a with
  | Some s => Some s
  | None => b
  end.

(** [n || d] on numbers *)
Definition num_or (n : option Z) (d : Z) : Z :=
  match n with
  | Some z => if (z =? 0)%Z then d else z
  | None => d
  end.

(** [getImagesDirectory()] *)
Definition getImagesDirectory (env : Env) (t : ImgMcp) : string :=
  match truthy (c ← config t; Config.outputDirectory c) with
  | Some d => d
  | None =>
      match platform env with
      | win32 => Path.join [homedir env; "Documents"; "img-mcp-images"]
      | posix =>
          if Str.startsWith (cwd env) "/usr/"
             || Str.startsWith (cwd env) "/opt/"
             || Str.startsWith (cwd env) "/var/"
          then Path.join [homedir env; "img-mcp-images"]
          else Path.join [cwd env; "generated_imgs"]
      end
  end.

(** [ensureConfigured()] *)
Definition ensureConfigured (t : ImgMcp) : bool :=
  bool_decide (is_Some (config t)) && bool_decide (is_Some (genAI t)).

Definition REDACTED : string := "[REDACTED]".

Definition redact_key (c : Config.t) : Config.t :=
  {| Config.geminiApiKey := REDACTED;
     Config.model := Config.model c;
     Config.defaultFormat := Config.defaultFormat c;
     Config.outputDirectory := Config.outputDirectory c;
     Config.maxImageSize := Config.maxImageSize c;
     Config.maxPromptLength := Config.maxPromptLength c;
     Config.maxReferenceImages := Config.maxReferenceImages c |}.

Definition configPath (env : Env) : string :=
  Path.join [cwd env; ".img-mcp-config.json"].

(** the object that [saveConfig] serializes *)
Definition configToSave (t : ImgMcp) (c : Config.t) : Config.t :=
  match configSource t with
  | environment => redact_key c
  | _ => c
  end.

(** [saveConfig()] *)
Definition saveConfig (env : Env) : M unit :=
  t <- get_this ;;
  match config t with
  | Some c =>
      on_disk (fun d =>
        writeFile env d (configPath env) (ConfigJson (configToSave t c)) None)
  | None => ret tt
  end.

Definition metadataPath (env : Env) (t : ImgMcp) : string :=
  Path.join [getImagesDirectory env t; ".metadata.json"].

(** [saveMetadata()] *)
Definition saveMetadata (env : Env) : M unit :=
  t <- get_this ;;
  let metadataArray := JsMap.values (imageMetadata t) in
  on_disk (fun d =>
    writeFile env d (metadataPath env t) (MetadataJson metadataArray) None).

(** the body of the [for] loop of [loadMetadata] *)
Definition load_one (meta : ImageMetadata.t) : M unit :=
  try_catch
    (from_disk (fun d => access d (ImageMetadata.filePath meta)) ;;;
     update_this (fun t =>
       with_imageMetadata
         (JsMap.set (imageMetadata t) (ImageMetadata.id meta) meta) t))
    (fun _ => Logger_log DEBUG "Skipping metadata for missing file").

Fixpoint for_each {A} (l : list A) (body : A -> M unit) : M unit :=
  match l with
  | [] => ret tt
  | a :: l' => body a ;;; for_each l' body
  end.

(** [loadMetadata()] *)
Definition loadMetadata (env : Env) : M unit :=
  try_catch
    (t <- get_this ;;
     metadataData <- from_disk (fun d => readFile d (metadataPath env t)) ;;
     match metadataData with
     | MetadataJson metadataArray =>
         for_each metadataArray load_one ;;;
         Logger_log INFO "Loaded image metadata"
     | _ => throw (PlainError "SyntaxError: the file is not a metadata array")
     end)
    (fun _ => ret tt).

(** [ConfigSchema.parse({ geminiApiKey: key })]: the key and the defaults of
    the schema *)
Definition parsed_from_key (key : string) : Config.t :=
  {| Config.geminiApiKey := key;
     Config.model := "gemini-2.5-flash-image-preview";
     Config.defaultFormat := "png";
     Config.outputDirectory := None;
     Config.maxImageSize := 10 * 1024 * 1024;
     Config.maxPromptLength := 4000;
     Config.maxReferenceImages := 5 |}.

(** what [ConfigSchema.parse] requires of a stored configuration: a key
    that is not empty and one of the three formats *)
Definition schema_accepts (c : Config.t) : bool :=
  negb (String.eqb (Config.geminiApiKey c) "")
  && existsb (String.eqb (Config.defaultFormat c)) ["png"; "jpeg"; "webp"].

(** the assignments that [loadConfig] makes once it has a configuration *)
Definition configure_from (env : Env) (c : Config.t) (source : ConfigSource)
    : M unit :=
  update_this (fun t =>
    {| genAI := Some (Config.geminiApiKey c);
       config := Some c;
       configSource := source;
       lastImagePath := lastImagePath t;
       imageMetadata := imageMetadata t;
       pathValidator := pathValidator t;
       generationSettings := generationSettings t |}) ;;;
  update_this (fun t =>
    {| genAI := genAI t; config := config t;
       configSource := configSource t;
       lastImagePath := lastImagePath t;
       imageMetadata := imageMetadata t;
       pathValidator :=
         Some (new_PathValidator env (getImagesDirectory env t));
       generationSettings := generationSettings t |}).

Definition set_not_configured (t : ImgMcp) : ImgMcp :=
  {| genAI := genAI t; config := config t; configSource := not_configured;
     lastImagePath := lastImagePath t; imageMetadata := imageMetadata t;
     pathValidator := pathValidator t;
     generationSettings := generationSettings t |}.

(** [loadConfig()]: the key of the environment when there is one (its parse
    cannot fail: the key is not empty), the configuration file otherwise *)
Definition loadConfig (env : Env) : M unit :=
  match truthy (GEMINI_API_KEY env) with
  | Some envApiKey =>
      configure_from env (parsed_from_key envApiKey) environment
  | None =>
      try_catch
        (configData <- from_disk (fun d => readFile d (configPath env)) ;;
         match configData with
         | ConfigJson c =>
             if schema_accepts c then configure_from env c config_file
             else throw (PlainError "ZodError: the configuration is invalid")
         | _ => throw (PlainError "ZodError: the file is not a configuration")
         end)
        (fun _ => update_this set_not_configured)
  end.

(** [run()]. What [new StdioServerTransport()] and
    [await this.server.connect(transport)] do is an input: [connect] is
    [Ok tt] when the connection is made and [Err e] when it throws [e]. *)
Definition run (env : Env) (connect : result unit) : M unit :=
  loadConfig env ;;;
  loadMetadata env ;;;
  lift_result connect ;;;
  Logger_log INFO "MCP server started".

(** ** Tool results and the upstream API *)

Inductive ContentItem : Set :=
| TextContent (text : string)
| ImageContent (data mimeType : string).

Record CallToolResult : Set := { content : list ContentItem }.

Definition text_result (s : string) : CallToolResult :=
  {| content := [TextContent s] |}.

(** a part of a [generateContent] response *)
Record InlineData : Set := {
  inline_data : option string;       (* base64 *)
  inline_mimeType : option string
}.
Record Part : Set := {
  part_text : option string;
  part_inlineData : option InlineData
}.
Record Candidate : Set := { content_parts : option (list Part) }.
Record ContentResponse : Set := { candidates : option (list Candidate) }.

(** a [generateImages] response *)
Record Image : Set := {
  image_imageBytes : option string;
  image_mimeType : option string
}.
Record GeneratedImage : Set := {
  image : option Image;
  imageBytes : option string;       (* a field the SDK does not fill *)
  enhancedPrompt : option string
}.
Record ImagesResponse : Set := {
  generatedImages : option (list GeneratedImage)
}.

(** the argument of [generateContent]: the model, the prompt, and the
    images sent along (the content of each file and its MIME type) *)
Record ContentRequest : Set := {
  request_model : string;
  request_prompt : string;
  request_images : list (FileData * string)
}.

(** the argument of [generateImages] *)
Record ImagesRequest : Set := {
  images_model : string;
  images_prompt : string;
  images_outputMimeType : string
}.

(** The API client as the server sees it: whether the SDK has
    [generateImages], and the outcome of each call of a request (by call
    number within one retried operation). *)
Record Upstream : Type := {
  has_generateImages : bool;
  generateImages : ImagesRequest -> nat -> result ImagesResponse;
  generateContent : ContentRequest -> nat -> result ContentResponse
}.

(** The clock and the random source during one tool call:
    [new Date().toISOString()] when the id is made,
    [Math.random().toString(36).substring(2, 8)], and
    [new Date().toISOString()] when the record is made. *)
Record Ambient : Set := {
  now_id : string;
  random_id : string;
  now_record : string
}.

Definition not_configured_error : JsError :=
  McpError InvalidRequest
    "Gemini API token not configured. Use configure_gemini_token first.".

(** ** configure_gemini_token *)

(** [configureGeminiToken(request)]. The schema check of the key
    ([z.string().min(1, ...)]) and the handler of its [ZodError] are read
    together: an empty key throws [InvalidParams] with the schema's message. *)
Definition configureGeminiToken (env : Env) (apiKey : string)
    : M CallToolResult :=
  if String.eqb apiKey "" then
    throw (McpError InvalidParams "Invalid API key: Gemini API key is required")
  else
    update_this (fun t =>
      {| genAI := Some apiKey;
         config := Some {| Config.geminiApiKey := apiKey;
                           Config.model := "gemini-2.5-flash-image-preview";
                           Config.defaultFormat := "png";
                           Config.outputDirectory := None;
                           Config.maxImageSize := 10 * 1024 * 1024;
                           Config.maxPromptLength := 4000;
                           Config.maxReferenceImages := 5 |};
         configSource := config_file;
         lastImagePath := lastImagePath t;
         imageMetadata := imageMetadata t;
         pathValidator := pathValidator t;
         generationSettings := generationSettings t |}) ;;;
    update_this (fun t =>
      let imagesDir := getImagesDirectory env t in
      {| genAI := genAI t; config := config t;
         configSource := configSource t;
         lastImagePath := lastImagePath t;
         imageMetadata := imageMetadata t;
         pathValidator := Some (new_PathValidator env imagesDir);
         generationSettings := generationSettings t |}) ;;;
    saveConfig env ;;;
    Logger_log INFO "Gemini API token configured" ;;;
    ret (text_result
      "Gemini API token configured successfully. You can now use image generation features.").

(** ** delete_image *)

Definition uri_prefix : string := "img://image/".

(** [imageId.startsWith("img://image/") ? imageId.replace("img://image/", "")
    : imageId] *)
Definition extract_id (imageId : string) : string :=
  if Str.startsWith imageId uri_prefix
  then Str.drop (String.length uri_prefix) imageId
  else imageId.

Definition not_found_error (id : string) : JsError :=
  McpError InvalidParams ("Image not found: " +:+ id).

(** [deleteImage(request)] *)
Definition deleteImage (env : Env) (imageId : string) : M CallToolResult :=
  let id := extract_id imageId in
  t <- get_this ;;
  match JsMap.get (imageMetadata t) id with
  | None => throw (not_found_error id)
  | Some metadata =>
      try_catch
        (on_disk (fun d => unlink d (ImageMetadata.filePath metadata)))
        (fun _ => Logger_log WARN "Failed to delete image file") ;;;
      update_this (fun t =>
        with_imageMetadata (JsMap.delete (imageMetadata t) id) t) ;;;
      saveMetadata env ;;;
      Logger_log INFO "Image deleted" ;;;
      ret (text_result ("Image deleted successfully: " +:+ id))
  end.

(** ** generate_image *)

Record GenerateArgs : Set := {
  arg_prompt : string;
  arg_model : option string;
  arg_format : option string
}.

(** The characters that [trim()] removes are the white space and the line
    terminators of ECMAScript: U+0009 to U+000D, U+0020, U+00A0, U+1680,
    U+2000 to U+200A, U+2028, U+2029, U+202F, U+205F, U+3000 and U+FEFF.
    They are told here by their UTF-8 bytes: one byte, two bytes, or
    three. *)
Definition is_space (a : ascii) : bool :=
  match a with
  | " "%char => true
  | _ => let n := nat_of_ascii a in (9 <=? n)%nat && (n <=? 13)%nat
  end.

Definition is_space2 (a b : ascii) : bool :=
  (nat_of_ascii a =? 194)%nat && (nat_of_ascii b =? 160)%nat.

Definition is_space3 (a b c : ascii) : bool :=
  let x := nat_of_ascii a in
  let y := nat_of_ascii b in
  let z := nat_of_ascii c in
  (x =? 225)%nat && (y =? 154)%nat && (z =? 128)%nat
  || (x =? 226)%nat && (y =? 128)%nat
     && ((128 <=? z)%nat && (z <=? 138)%nat
         || (z =? 168)%nat || (z =? 169)%nat || (z =? 175)%nat)
  || (x =? 226)%nat && (y =? 129)%nat && (z =? 159)%nat
  || (x =? 227)%nat && (y =? 128)%nat && (z =? 128)%nat
  || (x =? 239)%nat && (y =? 187)%nat && (z =? 191)%nat.

(** [prompt.trim().length === 0]: the prompt is made of such characters
    only *)
Fixpoint blank (s : string) : bool :=
  match s with
  | EmptyString => true
  | String a s1 =>
      if is_space a then blank s1
      else
        match s1 with
        | String b s2 =>
            if is_space2 a b then blank s2
            else
              match s2 with
              | String c s3 => if is_space3 a b c then blank s3 else false
              | EmptyString => false
              end
        | EmptyString => false
        end
  end.

(** [isImagenModel(model)] *)
Definition isImagenModel (model : string) : bool :=
  Str.startsWith model "imagen-".

Definition default_model : string := "gemini-2.5-flash-image-preview".

(** what the response handling of [generateImage] extracts *)
Record Extracted : Set := {
  textContent : string;
  imageData : option string;
  imageMimeType : string
}.

(** the handling of a [generateImages] response *)
Definition extract_images (selectedFormat : string) (r : ImagesResponse)
    : Extracted :=
  let none := {| textContent := ""; imageData := None;
                 imageMimeType := "image/" +:+ selectedFormat |} in
  match generatedImages r with
  | Some (generatedImage :: _) =>
      match truthy (i ← image generatedImage; image_imageBytes i) with
      | Some _ =>
          {| textContent := default "" (truthy (enhancedPrompt generatedImage));
             imageData := imageBytes generatedImage;
             imageMimeType :=
               default ("image/" +:+ selectedFormat)
                 (truthy (i ← image generatedImage; image_mimeType i)) |}
      | None => none
      end
  | _ => none
  end.

(** one turn of the loop over the parts of a [generateContent] response *)
Definition extract_part (selectedFormat : string) (acc : Extracted) (p : Part)
    : Extracted :=
  let text' :=
    match truthy (part_text p) with
    | Some s => textContent acc +:+ s
    | None => textContent acc
    end in
  match truthy (i ← part_inlineData p; inline_data i) with
  | Some d =>
      {| textContent := text';
         imageData := Some d;
         imageMimeType :=
           default ("image/" +:+ selectedFormat)
             (truthy (i ← part_inlineData p; inline_mimeType i)) |}
  | None =>
      {| textContent := text'; imageData := imageData acc;
         imageMimeType := imageMimeType acc |}
  end.

(** the handling of a [generateContent] response *)
Definition extract_content (selectedFormat : string) (r : ContentResponse)
    : Extracted :=
  let none := {| textContent := ""; imageData := None;
                 imageMimeType := "image/" +:+ selectedFormat |} in
  match candidates r with
  | Some (c :: _) =>
      match content_parts c with
      | Some parts => foldl (extract_part selectedFormat) none parts
      | None => none
      end
  | _ => none
  end.

Definition nl : string := String (ascii_of_nat 10) EmptyString.
Definition dquote : string := String (ascii_of_nat 34) EmptyString.

Definition image_uri (imageId : string) : string := uri_prefix +:+ imageId.

(** [`${timestamp}-${randomId}`] *)
Definition fresh_id (amb : Ambient) : string :=
  Str.replace_colon_dot (now_id amb) +:+ "-" +:+ random_id amb.

(** [Array.from(this.imageMetadata.values()).find(m => m.filePath === p)] *)
Definition find_by_path (m : JsMap.t ImageMetadata.t) (p : string)
    : option ImageMetadata.t :=
  List.find (fun meta => String.eqb (ImageMetadata.filePath meta) p)
            (JsMap.values m).

(** the requests that [generateImage] sends *)
Definition images_request (prompt selectedModel selectedFormat : string)
    : ImagesRequest :=
  {| images_model := selectedModel; images_prompt := prompt;
     images_outputMimeType := "image/" +:+ selectedFormat |}.

Definition text_request (prompt selectedModel : string) : ContentRequest :=
  {| request_model := selectedModel; request_prompt := prompt;
     request_images := [] |}.

Section Generation.

(** [Buffer.from(text, 'base64')]: the bytes that a base64 text encodes *)
Variable Buffer_from_base64 : string -> string.

Variable env : Env.

Definition selected_model (t : ImgMcp) (args : GenerateArgs) : string :=
  default default_model
    (or_else (arg_model args)
       (or_else (settings_model (generationSettings t))
          (or_else (Config.model <$> config t) None))).

Definition selected_format (t : ImgMcp) (args : GenerateArgs) : string :=
  default "png"
    (or_else (arg_format args)
       (or_else (settings_format (generationSettings t))
          (or_else (Config.defaultFormat <$> config t) None))).

Definition generated_record (amb : Ambient) (filePath prompt selectedModel
    selectedFormat imageBuffer : string) : ImageMetadata.t :=
  {| ImageMetadata.id := fresh_id amb;
     ImageMetadata.filePath := filePath;
     ImageMetadata.uri := image_uri (fresh_id amb);
     ImageMetadata.prompt := prompt;
     ImageMetadata.type := generated;
     ImageMetadata.timestamp := now_record amb;
     ImageMetadata.model := selectedModel;
     ImageMetadata.format := selectedFormat;
     ImageMetadata.size := Z.of_nat (String.length imageBuffer);
     ImageMetadata.referenceImages := None;
     ImageMetadata.parentImageId := None |}.

(** the path of the file that [generateImage] writes *)
Definition generated_path (t : ImgMcp) (amb : Ambient)
    (selectedFormat : string) : string :=
  Path.join [getImagesDirectory env t;
             "generated-" +:+ fresh_id amb +:+ "." +:+ selectedFormat].

(** the block [if (imageData) { ... }]: the saved files and the image
    content *)
Definition store_generated (amb : Ambient) (prompt selectedModel
    selectedFormat : string) (ex : Extracted)
    : M (list string * list ContentItem) :=
  match truthy (imageData ex) with
  | Some imageData =>
      t <- get_this ;;
      let filePath := generated_path t amb selectedFormat in
      let imageBuffer := Buffer_from_base64 imageData in
      (if (num_or (Config.maxImageSize <$> config t) (10 * 1024 * 1024)
           <? Z.of_nat (String.length imageBuffer))%Z
       then Logger_log WARN "Generated image exceeds size limit"
       else ret tt) ;;;
      on_disk (fun d => writeFile env d filePath (ImageBytes imageBuffer) None) ;;;
      update_this (with_lastImagePath filePath) ;;;
      update_this (fun t =>
        with_imageMetadata
          (JsMap.set (imageMetadata t) (fresh_id amb)
             (generated_record amb filePath prompt selectedModel
                selectedFormat imageBuffer)) t) ;;;
      saveMetadata env ;;;
      ret ([filePath], [ImageContent imageData (imageMimeType ex)])
  | None => ret ([], [])
  end.

Definition generated_status (t : ImgMcp) (prompt selectedModel
    selectedFormat : string) (ex : Extracted) (savedFiles : list string)
    : string :=
  "Image generated successfully." +:+ nl +:+ nl +:+ "Prompt: " +:+ dquote
  +:+ prompt +:+ dquote +:+ nl +:+ "Model: " +:+ selectedModel +:+ nl
  +:+ "Format: " +:+ selectedFormat
  +:+ (if String.eqb (textContent ex) "" then ""
       else nl +:+ nl +:+ "Description: " +:+ textContent ex)
  +:+ match savedFiles with
      | saved :: _ =>
          nl +:+ nl +:+ "Image saved to: " +:+ saved
          +:+ match find_by_path (imageMetadata t) saved with
              | Some metadata =>
                  nl +:+ "Image URI: " +:+ ImageMetadata.uri metadata
                  +:+ nl +:+ "Image ID: " +:+ ImageMetadata.id metadata
              | None => ""
              end
          +:+ nl +:+ nl
          +:+ "Use list_images to see all images, or get_image_metadata with the image ID for details."
      | [] =>
          nl +:+ nl
          +:+ "Note: No image was generated. Try running the command again."
      end.

(** the upstream call of [generateImage], by the family of the model,
    and the handling of its response *)
Definition call_upstream (up : Upstream)
    (prompt selectedModel selectedFormat : string) : M Extracted :=
  if isImagenModel selectedModel && has_generateImages up then
    Logger_log DEBUG "Using generateImages() API for Imagen model" ;;;
    response <- await_retry
                  (generateImages up (images_request prompt selectedModel
                                        selectedFormat)) ;;
    ret (extract_images selectedFormat response)
  else
    Logger_log DEBUG "Using generateContent() API for Gemini model" ;;;
    response <- await_retry
                  (generateContent up (text_request prompt selectedModel)) ;;
    ret (extract_content selectedFormat response).

(** the [try] block of [generateImage] *)
Definition generate_body (up : Upstream) (amb : Ambient)
    (prompt selectedModel selectedFormat : string) : M CallToolResult :=
  t <- get_this ;;
  on_disk (fun d => mkdir d (getImagesDirectory env t)) ;;;
  ex <- call_upstream up prompt selectedModel selectedFormat ;;
  saved <- store_generated amb prompt selectedModel selectedFormat ex ;;
  t' <- get_this ;;
  ret {| content :=
           TextContent (generated_status t' prompt selectedModel
                          selectedFormat ex (fst saved))
           :: snd saved |}.

Definition prompt_limit (t : ImgMcp) : Z :=
  num_or (Config.maxPromptLength <$> config t) 4000.

(** [generateImage(request)] *)
Definition generateImage (up : Upstream) (amb : Ambient)
    (args : GenerateArgs) : M CallToolResult :=
  t <- get_this ;;
  if negb (ensureConfigured t) then throw not_configured_error
  else if blank (arg_prompt args) then
    throw (McpError InvalidParams "Prompt cannot be empty")
  else if (prompt_limit t <? Z.of_nat (Str.length (arg_prompt args)))%Z then
    throw (McpError InvalidParams
             ("Prompt too long. Maximum length: " +:+ show_Z (prompt_limit t)))
  else
    let selectedModel := selected_model t args in
    let selectedFormat := selected_format t args in
    Logger_log INFO "Generating image" ;;;
    try_catch
      (generate_body up amb (arg_prompt args) selectedModel selectedFormat)
      (fun error =>
         Logger_log ERROR "Failed to generate image" ;;;
         throw (McpError InternalError
                  ("Failed to generate image: " +:+ error_text error))).

End Generation.

(** ** edit_image *)

(** [ext.toLowerCase()] for the comparison of a file extension with ".png",
    ".jpg", ".jpeg" and ".webp": the letters A to Z are lowered. No other
    character has one of the letters of these extensions as its lower
    case, so the comparisons come out as in JavaScript. *)
Definition lower (a : ascii) : ascii :=
  let n := nat_of_ascii a in
  if (65 <=? n)%nat && (n <=? 90)%nat then ascii_of_nat (n + 32) else a.

Fixpoint toLowerCase (s : string) : string :=
  match s with
  | EmptyString => EmptyString
  | String a s' => String (lower a) (toLowerCase s')
  end.

(** the part of [s] from its last "." on, if it has one *)
Fixpoint from_last_dot (s : string) : option string :=
  match s with
  | EmptyString => None
  | String a s' =>
      match from_last_dot s' with
      | Some e => Some e
      | None => if Ascii.eqb a "." then Some s else None
      end
  end.

(** [path.extname(p)]: the extension of the last portion of the path, from
    its last "." on; none when that "." begins the portion, or when the
    portion is "..". *)
Definition extname (p : string) : string :=
  let portions := List.filter (fun x => negb (String.eqb x ""))
                              (Str.split_on "/" p) in
  match List.last portions "" with
  | EmptyString => ""
  | String _ rest as base =>
      if String.eqb base ".." then ""
      else default "" (from_last_dot rest)
  end.

(** [isImageFile(filePath)] *)
Definition isImageFile (filePath : string) : bool :=
  let ext := toLowerCase (extname filePath) in
  existsb (String.eqb ext) [".png"; ".jpg"; ".jpeg"; ".webp"].

(** [getMimeType(filePath)] *)
Definition getMimeType (filePath : string) : string :=
  let ext := toLowerCase (extname filePath) in
  if String.eqb ext ".jpg" || String.eqb ext ".jpeg" then "image/jpeg"
  else if String.eqb ext ".png" then "image/png"
  else if String.eqb ext ".webp" then "image/webp"
  else "image/jpeg".

Record EditArgs : Set := {
  edit_imagePath : string;
  edit_prompt : string;
  edit_referenceImages : option (list string)
}.

(** what the loop over the parts of the response of an edit accumulates *)
Record EditAcc : Set := {
  acc_text : string;
  acc_saved : list string;
  acc_content : list ContentItem
}.

(** the value of an expression that may throw *)
Definition with_pathValidator (v : PathValidator) (t : ImgMcp) : ImgMcp :=
  {| genAI := genAI t; config := config t; configSource := configSource t;
     lastImagePath := lastImagePath t; imageMetadata := imageMetadata t;
     pathValidator := Some v;
     generationSettings := generationSettings t |}.

Section Editing.

Variable Buffer_from_base64 : string -> string.
Variable env : Env.

(** [if (!this.pathValidator) { this.pathValidator = new PathValidator(...) }] *)
Definition ensure_pathValidator : M PathValidator :=
  t <- get_this ;;
  match pathValidator t with
  | Some v => ret v
  | None =>
      let v := new_PathValidator env (getImagesDirectory env t) in
      update_this (with_pathValidator v) ;;; ret v
  end.

(** one turn of the loop over the reference images: the images kept so
    far (validated path, content and MIME type), with this one added
    unless it is refused, of another format, or cannot be read *)
Definition add_reference (v : PathValidator)
    (kept : list (string * FileData * string)) (refPath : string)
    : M (list (string * FileData * string)) :=
  try_catch
    (validatedRefPath <- lift_result (validateAndSanitize env v refPath) ;;
     if negb (isImageFile validatedRefPath) then
       Logger_log WARN "Reference image is not a supported format" ;;;
       ret kept
     else
       from_disk (fun d => access d validatedRefPath) ;;;
       refBuffer <- from_disk (fun d => readFile d validatedRefPath) ;;
       ret (kept ++ [(validatedRefPath, refBuffer,
                      getMimeType validatedRefPath)]))
    (fun _ =>
       Logger_log WARN "Reference image not found or invalid" ;;;
       ret kept).

Fixpoint add_references (v : PathValidator) (refs : list string)
    (kept : list (string * FileData * string))
    : M (list (string * FileData * string)) :=
  match refs with
  | [] => ret kept
  | refPath :: rest =>
      kept' <- add_reference v kept refPath ;;
      add_references v rest kept'
  end.

Definition edit_model (t : ImgMcp) : string :=
  default default_model
    (or_else (settings_model (generationSettings t))
       (or_else (Config.model <$> config t) None)).

Definition edit_format (t : ImgMcp) : string :=
  default "png"
    (or_else (settings_format (generationSettings t))
       (or_else (Config.defaultFormat <$> config t) None)).

Definition edited_path (t : ImgMcp) (amb : Ambient) (selectedFormat : string)
    : string :=
  Path.join [getImagesDirectory env t;
             "edited-" +:+ fresh_id amb +:+ "." +:+ selectedFormat].

Definition edited_record (amb : Ambient) (filePath prompt selectedModel
    selectedFormat imageBuffer : string) (validatedReferenceImages : list string)
    (parentMetadata : option ImageMetadata.t) : ImageMetadata.t :=
  {| ImageMetadata.id := fresh_id amb;
     ImageMetadata.filePath := filePath;
     ImageMetadata.uri := image_uri (fresh_id amb);
     ImageMetadata.prompt := prompt;
     ImageMetadata.type := edited;
     ImageMetadata.timestamp := now_record amb;
     ImageMetadata.model := selectedModel;
     ImageMetadata.format := selectedFormat;
     ImageMetadata.size := Z.of_nat (String.length imageBuffer);
     ImageMetadata.referenceImages :=
       match validatedReferenceImages with
       | [] => None
       | _ => Some validatedReferenceImages
       end;
     ImageMetadata.parentImageId := ImageMetadata.id <$> parentMetadata |}.

(** the block [if (part.inlineData.data) { ... }] *)
Definition store_edited (amb : Ambient) (prompt selectedModel
    selectedFormat : string) (validatedReferenceImages : list string)
    (parentMetadata : option ImageMetadata.t) (i : InlineData)
    (acc : EditAcc) : M EditAcc :=
  match truthy (inline_data i) with
  | Some b64 =>
      t <- get_this ;;
      let filePath := edited_path t amb selectedFormat in
      let imageBuffer := Buffer_from_base64 b64 in
      on_disk (fun d => writeFile env d filePath (ImageBytes imageBuffer) None) ;;;
      update_this (with_lastImagePath filePath) ;;;
      update_this (fun t =>
        with_imageMetadata
          (JsMap.set (imageMetadata t) (fresh_id amb)
             (edited_record amb filePath prompt selectedModel selectedFormat
                imageBuffer validatedReferenceImages parentMetadata)) t) ;;;
      saveMetadata env ;;;
      ret {| acc_text := acc_text acc;
             acc_saved := acc_saved acc ++ [filePath];
             acc_content :=
               acc_content acc
               ++ [ImageContent b64
                     (default ("image/" +:+ selectedFormat)
                        (truthy (inline_mimeType i)))] |}
  | None => ret acc
  end.

(** one turn of the loop over the parts of the response *)
Definition edit_part (amb : Ambient) (prompt selectedModel
    selectedFormat : string) (validatedReferenceImages : list string)
    (parentMetadata : option ImageMetadata.t) (acc : EditAcc) (p : Part)
    : M EditAcc :=
  let acc1 :=
    {| acc_text := match truthy (part_text p) with
                   | Some s => acc_text acc +:+ s
                   | None => acc_text acc
                   end;
       acc_saved := acc_saved acc;
       acc_content := acc_content acc |} in
  match part_inlineData p with
  | Some i =>
      store_edited amb prompt selectedModel selectedFormat
        validatedReferenceImages parentMetadata i acc1
  | None => ret acc1
  end.

(** the loop over the parts; [amb k] is the clock and the random source
    at part number [k] *)
Fixpoint edit_parts (amb : nat -> Ambient) (k : nat) (prompt selectedModel
    selectedFormat : string) (validatedReferenceImages : list string)
    (parentMetadata : option ImageMetadata.t) (parts : list Part)
    (acc : EditAcc) : M EditAcc :=
  match parts with
  | [] => ret acc
  | p :: rest =>
      acc' <- edit_part (amb k) prompt selectedModel selectedFormat
                validatedReferenceImages parentMetadata acc p ;;
      edit_parts amb (S k) prompt selectedModel selectedFormat
        validatedReferenceImages parentMetadata rest acc'
  end.

(** the parts that the loop goes through *)
Definition response_parts (r : ContentResponse) : list Part :=
  match candidates r with
  | Some (c :: _) => default [] (content_parts c)
  | _ => []
  end.

Definition edited_status (t : ImgMcp) (imagePath prompt : string)
    (validatedReferenceImages : list string) (acc : EditAcc) : string :=
  "Image edited successfully." +:+ nl +:+ nl +:+ "Original: " +:+ imagePath
  +:+ nl +:+ "Edit prompt: " +:+ dquote +:+ prompt +:+ dquote
  +:+ match validatedReferenceImages with
      | [] => ""
      | _ => nl +:+ nl +:+ "Reference images used: "
             +:+ show_Z (Z.of_nat (length validatedReferenceImages))
      end
  +:+ (if String.eqb (acc_text acc) "" then ""
       else nl +:+ nl +:+ "Description: " +:+ acc_text acc)
  +:+ match acc_saved acc with
      | saved :: _ =>
          nl +:+ nl +:+ "Edited image saved to: " +:+ saved
          +:+ match find_by_path (imageMetadata t) saved with
              | Some metadata =>
                  nl +:+ "Image URI: " +:+ ImageMetadata.uri metadata
                  +:+ nl +:+ "Image ID: " +:+ ImageMetadata.id metadata
              | None => ""
              end
      | [] =>
          nl +:+ nl
          +:+ "Note: No edited image was generated. Try running the command again."
      end.

Definition edit_request (selectedModel prompt : string) (image : FileData)
    (mimeType : string) (kept : list (string * FileData * string))
    : ContentRequest :=
  {| request_model := selectedModel;
     request_prompt := prompt;
     request_images :=
       (image, mimeType) :: map (fun r => (snd (fst r), snd r)) kept |}.

(** the [try] block of [editImage] *)
Definition edit_body (up : Upstream) (amb : nat -> Ambient)
    (imagePath prompt validatedImagePath selectedModel selectedFormat : string)
    (request : ContentRequest) (validatedReferenceImages : list string)
    : M CallToolResult :=
  response <- await_retry (generateContent up request) ;;
  t <- get_this ;;
  on_disk (fun d => mkdir d (getImagesDirectory env t)) ;;;
  let parentMetadata := find_by_path (imageMetadata t) validatedImagePath in
  acc <- edit_parts amb O prompt selectedModel selectedFormat
           validatedReferenceImages parentMetadata (response_parts response)
           {| acc_text := ""; acc_saved := []; acc_content := [] |} ;;
  t' <- get_this ;;
  ret {| content :=
           TextContent (edited_status t' imagePath prompt
                          validatedReferenceImages acc)
           :: acc_content acc |}.

Definition reference_limit (t : ImgMcp) : Z :=
  num_or (Config.maxReferenceImages <$> config t) 5.

(** [editImage(request)] *)
Definition editImage (up : Upstream) (amb : nat -> Ambient) (args : EditArgs)
    : M CallToolResult :=
  t <- get_this ;;
  if negb (ensureConfigured t) then throw not_configured_error
  else
    v <- ensure_pathValidator ;;
    let imagePath := edit_imagePath args in
    let prompt := edit_prompt args in
    let referenceImages := default [] (edit_referenceImages args) in
    validatedImagePath <- lift_result (validateAndSanitize env v imagePath) ;;
    if negb (isImageFile validatedImagePath) then
      throw (McpError InvalidParams
               ("File is not a supported image format: " +:+ imagePath))
    else if (reference_limit t <? Z.of_nat (length referenceImages))%Z then
      throw (McpError InvalidParams
               ("Too many reference images. Maximum: "
                +:+ show_Z (reference_limit t)))
    else
      try_catch (from_disk (fun d => access d validatedImagePath))
        (fun _ => throw (McpError InvalidParams
                           ("Image file not found: " +:+ imagePath))) ;;;
      imageBuffer <- from_disk (fun d => readFile d validatedImagePath) ;;
      kept <- add_references v referenceImages [] ;;
      let validatedReferenceImages := map (fun r => fst (fst r)) kept in
      let selectedModel := edit_model t in
      let selectedFormat := edit_format t in
      Logger_log INFO "Editing image" ;;;
      try_catch
        (edit_body up amb imagePath prompt validatedImagePath selectedModel
           selectedFormat
           (edit_request selectedModel prompt imageBuffer
              (getMimeType validatedImagePath) kept)
           validatedReferenceImages)
        (fun error =>
           Logger_log ERROR "Failed to edit image" ;;;
           throw (McpError InternalError
                    ("Failed to edit image: " +:+ error_text error))).

End Editing.

(** ** Sample values *)

Definition env0 : Env :=
  {| cwd := "/srv/app"; homedir := "/home/user"; platform := posix;
     GEMINI_API_KEY := None; umask := 18 |}.

Definition validator0 : PathValidator := new_PathValidator env0 "/data/images".

Definition no_refusal : FsOp -> string -> option string := fun _ _ => None.

Definition empty_disk : FileSystem :=
  {| files := ∅; dirs := ∅; denied := no_refusal |}.

Definition world0 : World := {| disk := empty_disk; stderr := []; slept := [] |}.

Definition state0 : State := {| this := new_ImgMcp; world := world0 |}.


(** a configuration as [loadConfig] builds it from the environment *)
Definition sample_config : Config.t :=
  {| Config.geminiApiKey := "AIzaSy-secret";
     Config.model := "gemini-2.5-flash-image-preview";
     Config.defaultFormat := "png";
     Config.outputDirectory := None;
     Config.maxImageSize := 10485760;
     Config.maxPromptLength := 4000;
     Config.maxReferenceImages := 5 |}.

(** a process that has the key in its environment *)
Definition env_with_key : Env :=
  {| cwd := "/srv/app"; homedir := "/home/user"; platform := posix;
     GEMINI_API_KEY := Some "AIzaSy-secret"; umask := 18 |}.

(** a server configured from the environment *)
Definition from_environment : State :=
  {| this :=
       {| genAI := Some "AIzaSy-secret";
          config := Some sample_config;
          configSource := environment;
          lastImagePath := None;
          imageMetadata := JsMap.empty;
          pathValidator := Some (new_PathValidator env0 "/srv/app/generated_imgs");
          generationSettings := generationSettings new_ImgMcp |};
     world := world0 |}.

Definition sample_id : string := "2025-01-01T00-00-00-000Z-abc123".

Definition sample_path : string :=
  "/srv/app/generated_imgs/generated-2025-01-01T00-00-00-000Z-abc123.png".

(** a record whose file is on the disk *)
Definition sample_record : ImageMetadata.t :=
  {| ImageMetadata.id := sample_id;
     ImageMetadata.filePath := sample_path;
     ImageMetadata.uri := image_uri sample_id;
     ImageMetadata.prompt := "red circle";
     ImageMetadata.type := generated;
     ImageMetadata.timestamp := "2025-01-01T00:00:00.000Z";
     ImageMetadata.model := "gemini-2.5-flash-image-preview";
     ImageMetadata.format := "png";
     ImageMetadata.size := 5;
     ImageMetadata.referenceImages := None;
     ImageMetadata.parentImageId := None |}.

Definition lost_id : string := "2025-01-02T00-00-00-000Z-xyz789".

(** a record whose file is gone *)
Definition lost_record : ImageMetadata.t :=
  {| ImageMetadata.id := lost_id;
     ImageMetadata.filePath :=
       "/srv/app/generated_imgs/edited-2025-01-02T00-00-00-000Z-xyz789.png";
     ImageMetadata.uri := image_uri lost_id;
     ImageMetadata.prompt := "make it blue";
     ImageMetadata.type := edited;
     ImageMetadata.timestamp := "2025-01-02T00:00:00.000Z";
     ImageMetadata.model := "gemini-2.5-flash-image-preview";
     ImageMetadata.format := "png";
     ImageMetadata.size := 7;
     ImageMetadata.referenceImages := None;
     ImageMetadata.parentImageId := Some sample_id |}.

(** a server configured through [configure_gemini_token], with two records *)
Definition configured : ImgMcp :=
  {| genAI := Some "AIzaSy-secret";
     config := Some sample_config;
     configSource := config_file;
     lastImagePath := Some sample_path;
     imageMetadata := [(sample_id, sample_record); (lost_id, lost_record)];
     pathValidator := Some (new_PathValidator env0 "/srv/app/generated_imgs");
     generationSettings := generationSettings new_ImgMcp |}.

(** the same server in a new process, before [loadMetadata] *)
Definition restarted : ImgMcp := with_imageMetadata JsMap.empty configured.

Definition image_files : gmap string File :=
  {[ sample_path := {| data := ImageBytes "hello"; perm := 420 |} ]}.

(** a disk with the file of [sample_record], where everything is allowed *)
Definition disk_with_image : FileSystem :=
  {| files := image_files; dirs := {[ "/srv/app/generated_imgs" ]};
     denied := no_refusal |}.

(** the refusals of a disk whose metadata file cannot be written *)
Definition metadata_locked : FsOp -> string -> option string :=
  fun op p =>
    match op with
    | OpWrite =>
        if String.eqb p "/srv/app/generated_imgs/.metadata.json"
        then Some "EACCES: permission denied, open '/srv/app/generated_imgs/.metadata.json'"
        else None
    | _ => None
    end.

Definition locked_disk : FileSystem :=
  {| files := image_files; dirs := {[ "/srv/app/generated_imgs" ]};
     denied := metadata_locked |}.

Definition running : State :=
  {| this := configured;
     world := {| disk := disk_with_image; stderr := []; slept := [] |} |}.

Definition running_locked : State :=
  {| this := configured;
     world := {| disk := locked_disk; stderr := []; slept := [] |} |}.

(** an upstream that answers every [generateContent] with one image *)
Definition one_image : ContentResponse :=
  {| candidates :=
       Some [{| content_parts :=
                  Some [{| part_text := Some "Here is your image.";
                           part_inlineData :=
                             Some {| inline_data := Some "aGVsbG8=";
                                     inline_mimeType := Some "image/png" |} |}] |}] |}.

Definition sample_upstream : Upstream :=
  {| has_generateImages := true;
     generateImages := fun _ _ => Err (PlainError "not available");
     generateContent := fun _ _ => Ok one_image |}.

Definition sample_ambient : Ambient :=
  {| now_id := "2025-01-03T10:20:30.456Z"; random_id := "k3j9x1";
     now_record := "2025-01-03T10:20:30.460Z" |}.

Definition sample_generate : GenerateArgs :=
  {| arg_prompt := "red circle"; arg_model := None; arg_format := None |}.

Definition sample_edit : EditArgs :=
  {| edit_imagePath := sample_path; edit_prompt := "make it blue";
     edit_referenceImages := None |}.

Definition locked_message : string :=
  "EACCES: permission denied, open '/srv/app/generated_imgs/.metadata.json'".

(** a later moment *)
Definition later_ambient : Ambient :=
  {| now_id := "2025-01-04T08:00:00.000Z"; random_id := "q7w2e9";
     now_record := "2025-01-04T08:00:00.010Z" |}.

(** a stand-in for the base64 decoder in the examples *)
Definition sample_decoder : string -> string := fun b64 => b64.

(** a session: configure, then generate two images *)
Definition session : State :=
  let s1 := snd (configureGeminiToken env0 "AIzaSy-secret" state0) in
  let s2 := snd (generateImage sample_decoder env0 sample_upstream
                   sample_ambient sample_generate s1) in
  snd (generateImage sample_decoder env0 sample_upstream later_ambient
         sample_generate s2).

(** a new process on the disk that the session left, after the file of the
    first image was removed from outside *)
Definition after_restart : State :=
  let d := disk (world session) in
  {| this := new_ImgMcp;
     world :=
       {| disk := set_files d
                    (delete (generated_path env0 new_ImgMcp sample_ambient "png")
                            (files d));
          stderr := []; slept := [] |} |}.

(** ** Notions used in the proofs *)

(** a string is empty or begins with the separator *)
Definition at_boundary (s : string) : Prop :=
  s = "" \/ exists s', s = String "/" s'.

(** a segment of a canonical path: not empty, and without separator *)
Definition good_segment (s : string) : Prop :=
  s <> "" /\ Str.free_of "/" s = true.

(** the segments written one after the other, each behind a separator *)
Fixpoint flat (segs : list string) : string :=
  match segs with
  | [] => ""
  | s :: rest => "/" +:+ s +:+ flat rest
  end.

(** the error of call number [k] of an operation that fails there *)
Definition error_at {T} (fn : nat -> result T) (k : nat) : JsError :=
  match fn k with
  | Err e => e
  | Ok _ => PlainError "Unknown error"
  end.

(** what [call_upstream] gives, whatever the state *)
Definition upstream_outcome (up : Upstream)
    (prompt selectedModel selectedFormat : string) : result Extracted :=
  if isImagenModel selectedModel && has_generateImages up then
    match retry_result
            (retryWithBackoff
               (generateImages up (images_request prompt selectedModel
                                     selectedFormat))
               default_maxRetries default_initialDelay) with
    | Ok response => Ok (extract_images selectedFormat response)
    | Err e => Err e
    end
  else
    match retry_result
            (retryWithBackoff
               (generateContent up (text_request prompt selectedModel))
               default_maxRetries default_initialDelay) with
    | Ok response => Ok (extract_content selectedFormat response)
    | Err e => Err e
    end.

(** what [add_reference] keeps of a reference path, on the disk [d] *)
Definition reference_kept (env : Env) (v : PathValidator) (d : FileSystem)
    (refPath : string) : option (string * FileData * string) :=
  match validateAndSanitize env v refPath with
  | Ok validatedRefPath =>
      if negb (isImageFile validatedRefPath) then None
      else if is_ok (access d validatedRefPath) then
        match readFile d validatedRefPath with
        | Ok refBuffer =>
            Some (validatedRefPath, refBuffer, getMimeType validatedRefPath)
        | Err _ => None
        end
      else None
  | Err _ => None
  end.

(** what the loop over the reference paths keeps *)
Fixpoint kept_references (env : Env) (v : PathValidator) (d : FileSystem)
    (refs : list string) : list (string * FileData * string) :=
  match refs with
  | [] => []
  | refPath :: rest =>
      match reference_kept env v d refPath with
      | Some k => k :: kept_references env v d rest
      | None => kept_references env v d rest
      end
  end.

(** a part of a response that stores nothing: it has no inline data, or
    inline data without content *)
Definition stores_nothing (p : Part) : Prop :=
  match part_inlineData p with
  | Some i => truthy (inline_data i) = None
  | None => True
  end.

(** the validator that [editImage] uses *)
Definition validator_of (env : Env) (t : ImgMcp) : PathValidator :=
  match pathValidator t with
  | Some v => v
  | None => new_PathValidator env (getImagesDirectory env t)
  end.

(** there is a file or a directory at [p] on the disk *)
Definition exists_on_disk (d : FileSystem) (p : string) : bool :=
  bool_decide (is_Some (files d !! p)) || bool_decide (p ∈ dirs d).

(** the disk refuses the access to [p] *)
Definition access_refused (d : FileSystem) (p : string) : bool :=
  match denied d OpAccess p with
  | Some _ => true
  | None => false
  end.

(** the backing file of a record is on the disk and may be accessed *)
Definition file_present (d : FileSystem) (meta : ImageMetadata.t) : bool :=
  exists_on_disk d (ImageMetadata.filePath meta)
  && negb (access_refused d (ImageMetadata.filePath meta)).





(** what one turn of the loop of [loadMetadata] does to the index *)
Definition load_step (d : FileSystem) (acc : JsMap.t ImageMetadata.t)
    (meta : ImageMetadata.t) : JsMap.t ImageMetadata.t :=
  if file_present d meta then JsMap.set acc (ImageMetadata.id meta) meta
  else acc.

(** An index as the server builds it: no id twice, and every record under
    its own id. *)
Definition index_ok (m : JsMap.t ImageMetadata.t) : Prop :=
  JsMap.wf m /\ Forall (fun kv => ImageMetadata.id (snd kv) = fst kv) m.

Definition delete_warning : LogEntry :=
  {| level := WARN; message := "Failed to delete image file" |}.

(** the world after the attempt of [deleteImage] to remove the file [p] *)
Definition after_unlink (w : World) (p : string) : World :=
  match unlink (disk w) p with
  | Ok d => {| disk := d; stderr := stderr w; slept := slept w |}
  | Err _ =>
      {| disk := disk w; stderr := stderr w ++ [delete_warning];
         slept := slept w |}
  end.

(** the content of the file at [p], if there is one *)
Definition file_data (d : FileSystem) (p : string) : option FileData :=
  data <$> files d !! p.

(** the permission bits of the file at [p], if there is one *)
Definition file_perm (d : FileSystem) (p : string) : option Z :=
  perm <$> files d !! p.

(** * More of the server *)

(** ** continue_editing *)

Record ContinueArgs : Set := {
  continue_prompt : string;
  continue_referenceImages : option (list string)
}.

Definition no_previous_error : JsError :=
  McpError InvalidRequest
    "No previous image found. Please generate or edit an image first.".

Definition last_missing_error (last : string) : JsError :=
  McpError InvalidRequest
    ("Last image file not found at: " +:+ last
     +:+ ". Please generate a new image first.").

(** the request that [continueEditing] hands to [editImage] *)
Definition continued_edit (last : string) (args : ContinueArgs) : EditArgs :=
  {| edit_imagePath := last;
     edit_prompt := continue_prompt args;
     edit_referenceImages := continue_referenceImages args |}.

(** [continueEditing(request)] *)
Definition continueEditing (Buffer_from_base64 : string -> string) (env : Env)
    (up : Upstream) (amb : nat -> Ambient) (args : ContinueArgs)
    : M CallToolResult :=
  t <- get_this ;;
  if negb (ensureConfigured t) then throw not_configured_error
  else
    match truthy (lastImagePath t) with
    | None => throw no_previous_error
    | Some last =>
        try_catch (from_disk (fun d => access d last))
          (fun _ => throw (last_missing_error last)) ;;;
        editImage Buffer_from_base64 env up amb (continued_edit last args)
    end.

(** ** The handler of tool calls *)

(** The [try]/[catch] of the [CallToolRequestSchema] handler around the
    tool that its [switch] selects: an [McpError] is logged and thrown
    again, any other error is logged and wrapped. *)
Definition tool_handler {A} (toolName : string) (tool : M A) : M A :=
  try_catch
    (Logger_log INFO ("Tool called: " +:+ toolName) ;;; tool)
    (fun error =>
       match error with
       | McpError _ _ =>
           Logger_log ERROR ("Tool error: " +:+ toolName) ;;; throw error
       | _ =>
           Logger_log ERROR ("Tool execution failed: " +:+ toolName) ;;;
           throw (McpError InternalError
                    ("Tool execution failed: " +:+ error_text error))
       end).

(** ** list_images and search_images *)

(** the [type] argument of both tools *)
Inductive TypeFilter : Set := only_generated | only_edited | all_types.

(** [img.type === filterType], for a filter other than "all" *)
Definition has_type (f : TypeFilter) (img : ImageMetadata.t) : bool :=
  match f, ImageMetadata.type img with
  | only_generated, generated => true
  | only_edited, edited => true
  | _, _ => false
  end.

Record ListArgs : Set := {
  list_limit : option Z;
  list_type : option TypeFilter
}.

Record SearchArgs : Set := {
  search_query : option string;
  search_startDate : option string;
  search_endDate : option string;
  search_type : option TypeFilter
}.

(** an element of the list that [listImages] prints *)
Record ListedImage : Set := {
  listed_id : string;
  listed_uri : string;
  listed_prompt : string;
  listed_type : ImageType;
  listed_timestamp : string;
  listed_filePath : string;
  listed_size : Z;
  listed_model : string;
  listed_format : string
}.

(** an element of the list that [searchImages] prints *)
Record FoundImage : Set := {
  found_id : string;
  found_uri : string;
  found_prompt : string;
  found_type : ImageType;
  found_timestamp : string;
  found_filePath : string
}.

Definition listing (img : ImageMetadata.t) : ListedImage :=
  {| listed_id := ImageMetadata.id img;
     listed_uri := ImageMetadata.uri img;
     listed_prompt := ImageMetadata.prompt img;
     listed_type := ImageMetadata.type img;
     listed_timestamp := ImageMetadata.timestamp img;
     listed_filePath := ImageMetadata.filePath img;
     listed_size := ImageMetadata.size img;
     listed_model := ImageMetadata.model img;
     listed_format := ImageMetadata.format img |}.

Definition finding (img : ImageMetadata.t) : FoundImage :=
  {| found_id := ImageMetadata.id img;
     found_uri := ImageMetadata.uri img;
     found_prompt := ImageMetadata.prompt img;
     found_type := ImageMetadata.type img;
     found_timestamp := ImageMetadata.timestamp img;
     found_filePath := ImageMetadata.filePath img |}.

(** [l.slice(0, limit)]: a negative limit counts from the end *)
Definition slice_to {A} (limit : Z) (l : list A) : list A :=
  if (limit <? 0)%Z then take (Z.to_nat (Z.of_nat (length l) + limit)) l
  else take (Z.to_nat limit) l.

Section Listing.

(** [new Date(text).getTime()]; [None] stands for NaN (an invalid date) *)
Variable Date_getTime : string -> option Z.

(** [text.toLowerCase()], the lower-case mapping of Unicode, which is not
    part of the program *)
Variable String_toLowerCase : string -> string.

(** [JSON.stringify(list, null, 2)] on the two kinds of list *)
Variable JSON_stringify_listed : list ListedImage -> string.
Variable JSON_stringify_found : list FoundImage -> string.

Definition time_of (img : ImageMetadata.t) : option Z :=
  Date_getTime (ImageMetadata.timestamp img).

(** The comparator [(a, b) => new Date(b.timestamp).getTime() -
    new Date(a.timestamp).getTime()]; a NaN result counts as 0. *)
Definition newest_first (a b : ImageMetadata.t) : Z :=
  match time_of b, time_of a with
  | Some tb, Some ta => (tb - ta)%Z
  | _, _ => 0%Z
  end.

(** [images.sort(newest_first)]. The sort of JavaScript is stable: images
    that compare equal keep their order. It is modelled by insertion from
    the right; [x] is put before the first image that it does not have to
    follow. (For timestamps that are not dates the comparator is not an
    order, and JavaScript leaves the result to the implementation.) *)
Fixpoint insert_image (x : ImageMetadata.t) (l : list ImageMetadata.t)
    : list ImageMetadata.t :=
  match l with
  | [] => [x]
  | y :: l' =>
      if (newest_first x y <=? 0)%Z then x :: l
      else y :: insert_image x l'
  end.

Definition sort_images (l : list ImageMetadata.t) : list ImageMetadata.t :=
  foldr insert_image [] l.

(** the images that [listImages] shows *)
Definition listed_images (t : ImgMcp) (args : ListArgs)
    : list ImageMetadata.t :=
  let limit := num_or (list_limit args) 50 in
  let filterType := default all_types (list_type args) in
  let images := JsMap.values (imageMetadata t) in
  let images :=
    match filterType with
    | all_types => images
    | _ => List.filter (has_type filterType) images
    end in
  slice_to limit (sort_images images).

(** [listImages(request)] *)
Definition listImages (args : ListArgs) : M CallToolResult :=
  t <- get_this ;;
  let images := listed_images t args in
  ret (text_result
         ("Found " +:+ show_Z (Z.of_nat (length images)) +:+ " image(s):"
          +:+ nl +:+ nl +:+ JSON_stringify_listed (map listing images))).

(** [new Date(a) >= new Date(b)] on the times of the two dates: false when
    one of them is NaN *)
Definition not_before (a b : option Z) : bool :=
  match a, b with
  | Some x, Some y => (y <=? x)%Z
  | _, _ => false
  end.

(** the test of the query: the prompt or the id contains it, whatever the
    case of the letters *)
Definition mentions (queryLower : string) (img : ImageMetadata.t) : bool :=
  Str.includes (String_toLowerCase (ImageMetadata.prompt img)) queryLower
  || Str.includes (String_toLowerCase (ImageMetadata.id img)) queryLower.

(** the four filters of [searchImages], each applied only when its argument
    is given *)
Definition type_wanted (args : SearchArgs) (img : ImageMetadata.t) : bool :=
  match search_type args with
  | Some all_types | None => true
  | Some f => has_type f img
  end.

Definition from_start (args : SearchArgs) (img : ImageMetadata.t) : bool :=
  match truthy (search_startDate args) with
  | Some startDate => not_before (time_of img) (Date_getTime startDate)
  | None => true
  end.

Definition until_end (args : SearchArgs) (img : ImageMetadata.t) : bool :=
  match truthy (search_endDate args) with
  | Some endDate => not_before (Date_getTime endDate) (time_of img)
  | None => true
  end.

Definition query_wanted (args : SearchArgs) (img : ImageMetadata.t) : bool :=
  match truthy (search_query args) with
  | Some query => mentions (String_toLowerCase query) img
  | None => true
  end.

(** the images that [searchImages] shows *)
Definition found_images (t : ImgMcp) (args : SearchArgs)
    : list ImageMetadata.t :=
  let images := JsMap.values (imageMetadata t) in
  let images := List.filter (type_wanted args) images in
  let images := List.filter (from_start args) images in
  let images := List.filter (until_end args) images in
  let images := List.filter (query_wanted args) images in
  sort_images images.

(** [searchImages(request)] *)
Definition searchImages (args : SearchArgs) : M CallToolResult :=
  t <- get_this ;;
  let results := map finding (found_images t args) in
  ret (text_result
         ("Found " +:+ show_Z (Z.of_nat (length results))
          +:+ " matching image(s):" +:+ nl +:+ nl
          +:+ JSON_stringify_found results)).

End Listing.

(** U+00A0 (no-break space) and U+00E9 (e with acute accent), in UTF-8 *)
Definition no_break_space : string :=
  String (ascii_of_nat 194) (String (ascii_of_nat 160) EmptyString).

Definition e_acute : string :=
  String (ascii_of_nat 195) (String (ascii_of_nat 169) EmptyString).

(** ** Notions used in the further proofs *)

(** a method keeps a property of the server object *)
Definition keeps {A} (Q : ImgMcp -> Prop) (m : M A) : Prop :=
  forall s, Q (this s) -> Q (this (snd (m s))).

(** a segment that normalization keeps as it is *)
Definition plain_segment (s : string) : Prop :=
  good_segment s /\ s <> "." /\ s <> "..".

(** a time for the examples: the text of the timestamp read as a number
    where it is one of the sample timestamps *)
Definition sample_time (text : string) : option Z :=
  if String.eqb text "2025-01-01T00:00:00.000Z" then Some 1735689600000%Z
  else if String.eqb text "2025-01-02T00:00:00.000Z" then Some 1735776000000%Z
  else if String.eqb text "2025-01-03T10:20:30.460Z" then Some 1735899630460%Z
  else if String.eqb text "2025-01-04T08:00:00.010Z" then Some 1735977600010%Z
  else None.

(** the delays that [call_upstream] sleeps, whatever the state *)
Definition upstream_delays (up : Upstream)
    (prompt selectedModel selectedFormat : string) : list Z :=
  if isImagenModel selectedModel && has_generateImages up then
    retry_delays
      (retryWithBackoff
         (generateImages up (images_request prompt selectedModel
                               selectedFormat))
         default_maxRetries default_initialDelay)
  else
    retry_delays
      (retryWithBackoff
         (generateContent up (text_request prompt selectedModel))
         default_maxRetries default_initialDelay).

(** the text of a successful [generate_image] that stored nothing *)
Definition nothing_generated (prompt selectedModel selectedFormat text : string)
    : string :=
  "Image generated successfully." +:+ nl +:+ nl +:+ "Prompt: " +:+ dquote
  +:+ prompt +:+ dquote +:+ nl +:+ "Model: " +:+ selectedModel +:+ nl
  +:+ "Format: " +:+ selectedFormat
  +:+ (if String.eqb text "" then ""
       else nl +:+ nl +:+ "Description: " +:+ text)
  +:+ nl +:+ nl
  +:+ "Note: No image was generated. Try running the command again.".

(** an upstream that is never available *)
Definition unavailable_upstream : Upstream :=
  {| has_generateImages := true;
     generateImages := fun _ _ => Err (PlainError "503 Service Unavailable");
     generateContent := fun _ _ => Err (PlainError "503 Service Unavailable") |}.

(** an upstream that answers with text only *)
Definition text_only : ContentResponse :=
  {| candidates :=
       Some [{| content_parts :=
                  Some [{| part_text := Some "I cannot draw that.";
                           part_inlineData := None |}] |}] |}.

Definition text_upstream : Upstream :=
  {| has_generateImages := true;
     generateImages := fun _ _ => Err (PlainError "not available");
     generateContent := fun _ _ => Ok text_only |}.

(** a method never throws *)
Definition returns {A} (m : M A) : Prop :=
  forall s, is_ok (fst (m s)) = true.

(** a method leaves the disk and the sleeps as they are *)
Definition reads_only {A} (m : M A) : Prop :=
  forall s,
    disk (world (snd (m s))) = disk (world s)
    /\ slept (world (snd (m s))) = slept (world s).

(** the image [a] is not older than the image [b], both timestamps being
    dates *)
Definition not_older (Date_getTime : string -> option Z)
    (a b : ImageMetadata.t) : Prop :=
  match time_of Date_getTime a, time_of Date_getTime b with
  | Some ta, Some tb => (tb <= ta)%Z
  | _, _ => False
  end.

(** the timestamp of an image is a date *)
Definition dated (Date_getTime : string -> option Z) (img : ImageMetadata.t)
    : Prop :=
  time_of Date_getTime img <> None.

(** the test of [listImages] on the type of an image *)
Definition list_wanted (args : ListArgs) (img : ImageMetadata.t) : bool :=
  match default all_types (list_type args) with
  | all_types => true
  | f => has_type f img
  end.

(** the arguments of a search with another query *)
Definition with_query (q : option string) (args : SearchArgs) : SearchArgs :=
  {| search_query := q;
     search_startDate := search_startDate args;
     search_endDate := search_endDate args;
     search_type := search_type args |}.
(** * Properties *)

(** ** Strings *)

Lemma app_nil (s : string) : "" +:+ s = s.
Proof. reflexivity. Qed.

Lemma app_cons (c : ascii) (a b : string) :
  String c a +:+ b = String c (a +:+ b).
Proof. reflexivity. Qed.

Lemma append_assoc (a b c : string) : (a +:+ b) +:+ c = a +:+ (b +:+ c).
Proof.
  induction a as [|x a IH]; [reflexivity |].
  rewrite !app_cons, IH. reflexivity.
Qed.

Lemma append_empty_r (a : string) : a +:+ "" = a.
Proof.
  induction a as [|x a IH]; [reflexivity |].
  rewrite app_cons, IH. reflexivity.
Qed.

Lemma prefix_nil (s : string) : String.prefix "" s = true.
Proof. destruct s; reflexivity. Qed.

Lemma prefix_refl_app (x b : string) : String.prefix x (x +:+ b) = true.
Proof.
  induction x as [|c x IH]; [apply prefix_nil |].
  rewrite app_cons. simpl. destruct (ascii_dec c c); [exact IH | congruence].
Qed.

Lemma prefix_cons (c d : ascii) (a b : string) :
  String.prefix (String c a) (String d b) = true <->
  c = d /\ String.prefix a b = true.
Proof.
  simpl. destruct (ascii_dec c d) as [->|Hne]; split.
  - intros H. split; [reflexivity | exact H].
  - intros [_ H]. exact H.
  - intros H. discriminate H.
  - intros [Heq _]. contradiction.
Qed.

Lemma includes_prefix (s p : string) :
  String.prefix p s = true -> Str.includes s p = true.
Proof. intros H. destruct s; cbn [Str.includes]; rewrite H; reflexivity. Qed.

Lemma includes_app (a x b : string) : Str.includes (a +:+ x +:+ b) x = true.
Proof.
  induction a as [|c a IH].
  - rewrite app_nil. apply includes_prefix, prefix_refl_app.
  - rewrite app_cons. cbn [Str.includes]. rewrite IH. apply orb_true_r.
Qed.

Lemma includes_after (p s x : string) :
  Str.includes s x = true -> Str.includes (p +:+ s) x = true.
Proof.
  intros H. induction p as [|c p IH].
  - rewrite app_nil. exact H.
  - rewrite app_cons. cbn [Str.includes]. rewrite IH. apply orb_true_r.
Qed.

Lemma free_of_cons (c a : ascii) (s : string) :
  Str.free_of c (String a s) = true <-> a <> c /\ Str.free_of c s = true.
Proof.
  simpl. rewrite andb_true_iff, negb_true_iff. split.
  - intros [H1 H2]. split; [| exact H2].
    intros ->. rewrite Ascii.eqb_refl in H1. discriminate.
  - intros [H1 H2]. split; [| exact H2].
    apply Ascii.eqb_neq. exact H1.
Qed.

(** Two separator-free names, each followed by the end or by a separator:
    the first text begins the second only if the names are the same. *)
Lemma prefix_names (r p A' B : string) :
  Str.free_of "/" r = true -> Str.free_of "/" p = true -> at_boundary B ->
  String.prefix (r +:+ String "/" A') (p +:+ B) = true <->
  r = p /\ String.prefix (String "/" A') B = true.
Proof.
  revert p. induction r as [|c r IH]; intros p Hr Hp HB.
  - destruct p as [|d p].
    + rewrite !app_nil. split; [intros H; split; [reflexivity | exact H] | intros [_ H]; exact H].
    + apply free_of_cons in Hp as [Hd _]. rewrite app_nil, app_cons. split.
      * intros H. apply prefix_cons in H as [H _]. congruence.
      * intros [H _]. discriminate H.
  - apply free_of_cons in Hr as [Hc Hr]. destruct p as [|d p].
    + rewrite app_nil, app_cons. split.
      * intros H. destruct HB as [-> | [B' ->]].
        -- discriminate H.
        -- apply prefix_cons in H as [H _]. contradiction.
      * intros [H _]. discriminate H.
    + apply free_of_cons in Hp as [Hd Hp]. rewrite !app_cons.
      rewrite prefix_cons, (IH p Hr Hp HB). split.
      * intros [-> [-> H]]. split; [reflexivity | exact H].
      * intros [Heq H]. injection Heq as -> ->. auto.
Qed.

Lemma equal_names (r p A B : string) :
  Str.free_of "/" r = true -> Str.free_of "/" p = true ->
  at_boundary A -> at_boundary B ->
  r +:+ A = p +:+ B -> r = p /\ A = B.
Proof.
  revert p. induction r as [|c r IH]; intros p Hr Hp HA HB Heq.
  - destruct p as [|d p]; [rewrite !app_nil in Heq; auto |].
    apply free_of_cons in Hp as [Hd _]. rewrite app_nil, app_cons in Heq.
    destruct HA as [-> | [A' ->]]; [discriminate Heq |].
    injection Heq as Hd' _. congruence.
  - apply free_of_cons in Hr as [Hc Hr]. destruct p as [|d p].
    + rewrite app_nil, app_cons in Heq.
      destruct HB as [-> | [B' ->]]; [discriminate Heq |].
      injection Heq as Hc' _. congruence.
    + apply free_of_cons in Hp as [Hd Hp]. rewrite !app_cons in Heq.
      injection Heq as -> Heq. destruct (IH p Hr Hp HA HB Heq) as [-> ->]. auto.
Qed.

(** ** Canonical paths *)

Lemma split_on_free (s : string) :
  Forall (fun x => Str.free_of "/" x = true) (Str.split_on "/" s).
Proof.
  induction s as [|a s IH]; cbn [Str.split_on].
  - repeat constructor.
  - destruct (Ascii.eqb a "/") eqn:E.
    + constructor; [reflexivity | exact IH].
    + destruct (Str.split_on "/" s) as [|h t].
      * constructor; [| constructor]. cbn. rewrite E. reflexivity.
      * inversion IH as [|? ? Hh Ht]; subst. constructor; [| exact Ht].
        cbn [Str.free_of]. rewrite E, Hh. reflexivity.
Qed.

Lemma good_dotdot : good_segment "..".
Proof. split; [discriminate | reflexivity]. Qed.

Lemma normalize_segments_good (allow : bool) (segs acc : list string) :
  Forall good_segment acc ->
  Forall (fun x => Str.free_of "/" x = true) segs ->
  Forall good_segment (Path.normalize_segments allow acc segs).
Proof.
  revert acc. induction segs as [|s rest IH]; intros acc Hacc Hsegs;
    cbn [Path.normalize_segments].
  - apply Forall_rev. exact Hacc.
  - inversion Hsegs as [|? ? Hs Hrest]; subst.
    destruct (String.eqb s "") eqn:E1; cbn [orb]; [apply IH; assumption |].
    destruct (String.eqb s "."); [apply IH; assumption |].
    destruct (String.eqb s "..").
    + destruct acc as [|top acc'].
      * apply IH; [| assumption].
        destruct allow; [constructor; [apply good_dotdot | constructor] | constructor].
      * inversion Hacc; subst.
        destruct (String.eqb top "..").
        -- apply IH; [| assumption].
           destruct allow; [constructor; [apply good_dotdot | assumption] | assumption].
        -- apply IH; assumption.
    + apply IH; [| assumption]. constructor; [| assumption].
      split; [| exact Hs]. apply String.eqb_neq. exact E1.
Qed.

Lemma segments_good (cwd p : string) : Forall good_segment (Path.segments cwd p).
Proof.
  unfold Path.segments. apply normalize_segments_good;
    [constructor | apply split_on_free].
Qed.

Lemma flat_boundary (segs : list string) : at_boundary (flat segs).
Proof.
  destruct segs as [|s rest]; [left; reflexivity |].
  right. simpl. eexists. reflexivity.
Qed.

Lemma concat_cons2 (sep a b : string) (l : list string) :
  String.concat sep (a :: b :: l) = a +:+ sep +:+ String.concat sep (b :: l).
Proof. reflexivity. Qed.

Lemma concat_flat (s : string) (rest : list string) :
  String.concat "/" (s :: rest) = s +:+ flat rest.
Proof.
  revert s. induction rest as [|x rest IH]; intros s.
  - simpl. symmetry. apply append_empty_r.
  - rewrite concat_cons2, IH. reflexivity.
Qed.

Lemma render_flat (segs : list string) :
  segs <> [] -> Path.render segs = flat segs.
Proof.
  destruct segs as [|s rest]; [congruence |]. intros _.
  unfold Path.render. rewrite concat_flat. reflexivity.
Qed.

(** On canonical segments, the text of the root followed by a separator
    begins the text of the candidate exactly when the candidate has the
    segments of the root and at least one more. *)
Lemma flat_prefix (rs ps : list string) :
  Forall good_segment rs -> Forall good_segment ps ->
  String.prefix (flat rs +:+ "/") (flat ps) = true <->
  exists q qs, ps = rs ++ q :: qs.
Proof.
  revert ps. induction rs as [|r rs IH]; intros ps Hrs Hps.
  - destruct ps as [|p ps].
    + split; [discriminate | intros (q & qs & H); discriminate H].
    + cbn [flat]. rewrite !app_nil, !app_cons, prefix_cons, !app_nil. split.
      * intros _. exists p, ps. reflexivity.
      * intros _. split; [reflexivity | apply prefix_nil].
  - inversion Hrs as [|? ? [_ Hr] Hrs']; subst.
    destruct ps as [|p ps].
    + split; [discriminate | intros (q & qs & H); discriminate H].
    + inversion Hps as [|? ? [_ Hp] Hps']; subst.
      cbn [flat]. rewrite !app_cons, !app_nil, prefix_cons, append_assoc.
      assert (Hshape : exists A', flat rs +:+ "/" = String "/" A').
      { destruct rs as [|r' rs']; [exists ""; reflexivity |].
        cbn [flat]. rewrite app_cons, app_nil. eexists. reflexivity. }
      destruct Hshape as [A'' HA'']. rewrite HA''.
      rewrite (prefix_names r p A'' (flat ps) Hr Hp (flat_boundary ps)).
      rewrite <- HA'', (IH ps Hrs' Hps'). split.
      * intros (_ & -> & q & qs & ->). exists q, qs. reflexivity.
      * intros (q & qs & H). injection H as -> ->. eauto.
Qed.

Lemma flat_inj (rs ps : list string) :
  Forall good_segment rs -> Forall good_segment ps ->
  flat rs = flat ps -> rs = ps.
Proof.
  revert ps. induction rs as [|r rs IH]; intros ps Hrs Hps Heq.
  - destruct ps; [reflexivity | discriminate Heq].
  - destruct ps as [|p ps]; [discriminate Heq |].
    inversion Hrs as [|? ? [_ Hr] Hrs']; subst.
    inversion Hps as [|? ? [_ Hp] Hps']; subst.
    cbn [flat] in Heq. rewrite !app_cons, !app_nil in Heq.
    injection Heq as Heq.
    destruct (equal_names r p _ _ Hr Hp (flat_boundary rs) (flat_boundary ps) Heq)
      as [-> Hrest].
    f_equal. apply IH; assumption.
Qed.

Lemma prefix_empty_r (a : string) : String.prefix a "" = true <-> a = "".
Proof. destruct a; simpl; split; intros H; try reflexivity; discriminate H. Qed.

(** ** PathValidator *)

(** For a root that is not the file-system root, the test that
    [validateAndSanitize] makes on the resolved texts is containment of the
    canonical segments. *)
Lemma within_allowed_iff (env : Env) (P R : string) :
  Path.segments (cwd env) R <> [] ->
  within_allowed env (Path.resolve (cwd env) P) R = true <-> contained_in env R P.
Proof.
  intros Hroot. unfold within_allowed, contained_in, Path.resolve, Str.startsWith.
  pose proof (segments_good (cwd env) R) as Hrs.
  pose proof (segments_good (cwd env) P) as Hps.
  set (rs := Path.segments (cwd env) R) in *.
  set (ps := Path.segments (cwd env) P) in *.
  rewrite orb_true_iff, String.eqb_eq, (render_flat rs Hroot).
  destruct ps as [|p ps'] eqn:Eps.
  - change (Path.render []) with "/". split.
    + intros [H | H].
      * destruct rs as [|r rs']; [congruence |].
        inversion Hrs as [|? ? [Hne _] _]; subst.
        cbn [flat] in H. rewrite !app_cons, !app_nil, prefix_cons in H.
        destruct H as [_ H]. apply prefix_empty_r in H.
        destruct r; [congruence | discriminate H].
      * destruct rs as [|r rs']; [congruence |].
        inversion Hrs as [|? ? [Hne _] _]; subst.
        cbn [flat] in H. rewrite !app_cons, !app_nil in H.
        injection H as H. destruct r; [congruence | discriminate H].
    + intros [k Hk]. symmetry in Hk. apply app_eq_nil in Hk as [Hk _].
      congruence.
  - rewrite (render_flat (p :: ps')) by discriminate.
    rewrite (flat_prefix rs (p :: ps') Hrs Hps). split.
    + intros [(q & qs & H) | H].
      * exists (q :: qs). exact H.
      * apply flat_inj in H; [| assumption | assumption].
        exists []. rewrite app_nil_r. exact H.
    + intros [k Hk]. destruct k as [|q qs].
      * right. rewrite app_nil_r in Hk. rewrite Hk. reflexivity.
      * left. eauto.
Qed.

Lemma validate_ok_inv (env : Env) (v : PathValidator) (P q : string) :
  validateAndSanitize env v P = Ok q ->
  q = Path.resolve (cwd env) P
  /\ Str.includes (Path.resolve (cwd env) P) ".." = false
  /\ existsb (within_allowed env (Path.resolve (cwd env) P))
       (allowedDirectories v) = true.
Proof.
  unfold validateAndSanitize.
  destruct (Str.includes (Path.resolve (cwd env) P) ".."); [discriminate |].
  destruct (existsb _ _); cbn [negb]; [| discriminate].
  intros H. injection H as <-. auto.
Qed.

(** C10. Whenever the resolved absolute form of the input contains the two
    characters ".." anywhere, [validateAndSanitize] throws the
    directory-traversal error, whatever the allowed roots are. *)
Theorem dotdot_in_resolved_path_is_rejected
    (env : Env) (v : PathValidator) (filePath : string) :
  Str.includes (Path.resolve (cwd env) filePath) ".." = true ->
  validateAndSanitize env v filePath
  = Err (McpError InvalidParams (traversal_message filePath)).
Proof.
  intros H. unfold validateAndSanitize. rewrite H. reflexivity.
Qed.

(** The file name "photo..png" inside the allowed root /data/images has no
    parent-directory segment, lies in the root, and is rejected as a
    traversal. *)
Lemma dotdot_in_resolved_path_is_rejected_witness :
  has_parent_segment "/data/images/photo..png" = false
  /\ contained_in env0 "/data/images" "/data/images/photo..png"
  /\ Str.includes (Path.resolve (cwd env0) "/data/images/photo..png") ".." = true
  /\ validateAndSanitize env0 validator0 "/data/images/photo..png"
     = Err (McpError InvalidParams
              "Path contains directory traversal: /data/images/photo..png. Paths must be within allowed directories.").
Proof.
  split; [reflexivity |].
  split; [exists ["photo..png"]; reflexivity |].
  split; [reflexivity |].
  apply (dotdot_in_resolved_path_is_rejected env0 validator0
           "/data/images/photo..png").
  reflexivity.
Defined.

(** C1, at a failing input. The raw input "sub/../photo.png" has a
    parent-directory segment, and [validateAndSanitize] accepts it: the
    test for ".." is made on the resolved path, where the segment is gone. *)
Theorem parent_segment_input_is_accepted :
  has_parent_segment "sub/../photo.png" = true
  /\ validateAndSanitize env0 validator0 "sub/../photo.png"
     = Ok "/srv/app/photo.png".
Proof. split; reflexivity. Qed.

(** C2 as stated fails: /data/images/photo..png is a strict descendant of
    the allowed root /data/images, and it is rejected. *)
Lemma containment_iff_counterexample :
  (exists R, R ∈ allowedDirectories validator0
             /\ contained_in env0 R "/data/images/photo..png")
  /\ is_ok (validateAndSanitize env0 validator0 "/data/images/photo..png")
     = false.
Proof.
  split; [| reflexivity].
  exists "/data/images". split; [left |].
  exists ["photo..png"]. reflexivity.
Qed.

(** C2, amended. When no allowed root resolves to the file-system root,
    [validateAndSanitize] succeeds exactly when the resolved candidate is
    free of ".." and its canonical segments start with the canonical
    segments of some allowed root; it then returns the resolved candidate. *)
Theorem validate_succeeds_iff_contained
    (env : Env) (v : PathValidator) (P : string) :
  (forall R, R ∈ allowedDirectories v -> Path.segments (cwd env) R <> []) ->
  validateAndSanitize env v P = Ok (Path.resolve (cwd env) P) <->
  Str.includes (Path.resolve (cwd env) P) ".." = false
  /\ exists R, R ∈ allowedDirectories v /\ contained_in env R P.
Proof.
  intros Hroots. split.
  - intros H. apply validate_ok_inv in H as (_ & Hdots & Hex).
    split; [exact Hdots |].
    apply existsb_exists in Hex as (R & HR & Hin).
    apply list_elem_of_In in HR.
    exists R. split; [exact HR |].
    apply within_allowed_iff; [apply Hroots; exact HR | exact Hin].
  - intros (Hdots & R & HR & Hin).
    unfold validateAndSanitize. rewrite Hdots.
    assert (Hex : existsb (within_allowed env (Path.resolve (cwd env) P))
                    (allowedDirectories v) = true).
    { apply existsb_exists. exists R. split; [apply list_elem_of_In; exact HR |].
      apply within_allowed_iff; [apply Hroots; exact HR | exact Hin]. }
    rewrite Hex. reflexivity.
Qed.

Lemma validator0_roots (R : string) :
  R ∈ allowedDirectories validator0 -> Path.segments (cwd env0) R <> [].
Proof.
  intros H. apply list_elem_of_In in H.
  destruct H as [<- | [<- | [<- | []]]]; discriminate.
Qed.

(** With the root /data/images, /data/images/sub/x is accepted. *)
Lemma validate_succeeds_iff_contained_witness :
  (forall R, R ∈ allowedDirectories validator0 ->
             Path.segments (cwd env0) R <> [])
  /\ (validateAndSanitize env0 validator0 "/data/images/sub/x"
      = Ok "/data/images/sub/x" <->
      Str.includes "/data/images/sub/x" ".." = false
      /\ exists R, R ∈ allowedDirectories validator0
                   /\ contained_in env0 R "/data/images/sub/x").
Proof.
  split; [exact validator0_roots |].
  apply (validate_succeeds_iff_contained env0 validator0 "/data/images/sub/x").
  exact validator0_roots.
Defined.

(** With the root /data/images, the sibling /data/images-other/x is outside
    every allowed root and is rejected; /data/images/sub/x is accepted. *)
Example sibling_directory_rejected :
  is_ok (validateAndSanitize env0 validator0 "/data/images-other/x") = false
  /\ validateAndSanitize env0 validator0 "/data/images/sub/x"
     = Ok "/data/images/sub/x".
Proof. split; reflexivity. Qed.

(** A root that resolves to the file-system root admits only the root
    itself: the text compared is "//". *)
Example root_directory_allows_only_itself :
  let v := {| allowedDirectories := ["/"]; imagesDirectory := "/" |} in
  is_ok (validateAndSanitize env0 v "/etc/hosts") = false
  /\ validateAndSanitize env0 v "/" = Ok "/".
Proof. split; reflexivity. Qed.

(** Every rejection echoes the rejected input in its message. *)
Lemma rejection_echoes_input (env : Env) (v : PathValidator)
    (filePath : string) (e : JsError) :
  validateAndSanitize env v filePath = Err e ->
  Str.includes (error_text e) filePath = true.
Proof.
  unfold validateAndSanitize.
  destruct (Str.includes (Path.resolve (cwd env) filePath) "..").
  - intros H. injection H as <-. cbn [error_text].
    do 3 apply includes_after. apply includes_app.
  - destruct (existsb _ _); cbn [negb]; [discriminate |].
    intros H. injection H as <-. cbn [error_text].
    do 3 apply includes_after. apply includes_app.
Qed.

(** C3, at a failing input. The message of the rejection of /etc/passwd
    lists the allowed roots and repeats the rejected path. *)
Theorem rejection_message_lists_roots :
  validateAndSanitize env0 validator0 "/etc/passwd"
  = Err (McpError InvalidParams
           "Path not allowed: /etc/passwd. Must be within: /data/images, /srv/app, /home/user")
  /\ (forall R, R ∈ allowedDirectories validator0 ->
        Str.includes (not_allowed_message validator0 "/etc/passwd") R = true)
  /\ Str.includes (not_allowed_message validator0 "/etc/passwd") "/etc" = true.
Proof.
  split; [reflexivity |]. split; [| reflexivity].
  intros R H. apply list_elem_of_In in H.
  destruct H as [<- | [<- | [<- | []]]]; reflexivity.
Qed.

(** ** retryWithBackoff *)

Section Retry.

Context {T : Type}.
Variable fn : nat -> result T.
Variables maxRetries initialDelay : Z.

(** The loop ends within its fuel, so [retryWithBackoff] returns what the
    loop computes. *)
Lemma retry_loop_total (fuel : nat) (attempt : Z) (lastError : option JsError)
    (calls : nat) (delays : list Z) (lg : list LogEntry) :
  (Z.to_nat (maxRetries + 1 - attempt) < fuel)%nat ->
  is_Some (retry_loop fuel fn maxRetries initialDelay attempt lastError
             calls delays lg).
Proof.
  revert attempt lastError calls delays lg.
  induction fuel as [|fuel IH]; intros attempt lastError calls delays lg Hfuel;
    [lia |].
  cbn [retry_loop].
  destruct (Z.leb_spec attempt maxRetries) as [Hle | Hgt]; [| eauto].
  destruct (fn calls) as [v | error]; [eauto |].
  destruct (not_retried error); [eauto |].
  destruct (attempt <? maxRetries)%Z; apply IH; lia.
Qed.

Lemma retryWithBackoff_from_total :
  is_Some (retryWithBackoff_from fn maxRetries initialDelay).
Proof.
  unfold retryWithBackoff_from, retry_fuel. apply retry_loop_total. lia.
Qed.

Lemma retryWithBackoff_eq (run : RetryRun T) :
  retryWithBackoff_from fn maxRetries initialDelay = Some run ->
  retryWithBackoff fn maxRetries initialDelay = run.
Proof. unfold retryWithBackoff. intros ->. reflexivity. Qed.

Hypothesis always_fails :
  forall k, exists e, fn k = Err e /\ not_retried e = false.

(** With [n] iterations left, an operation that always fails with a
    retried error is called [n] more times; all iterations but the last
    sleep, for [initialDelay * 2 ^ attempt]. *)
Lemma retry_loop_always_fails (n : nat) :
  forall (fuel : nat) (attempt : Z) (lastError : option JsError)
         (calls : nat) (delays : list Z) (lg : list LogEntry),
  attempt = (maxRetries + 1 - Z.of_nat n)%Z ->
  (n < fuel)%nat ->
  exists run,
    retry_loop fuel fn maxRetries initialDelay attempt lastError calls
      delays lg = Some run
    /\ retry_calls run = (calls + n)%nat
    /\ retry_delays run
       = delays ++ map (fun k => initialDelay * 2 ^ k)%Z
                       (seqZ attempt (Z.of_nat n - 1))
    /\ retry_result run
       = Err (match n with
              | O => default (PlainError "Unknown error") lastError
              | S _ => as_Error (error_at fn (calls + n - 1))
              end).
Proof.
  induction n as [|n IH]; intros fuel attempt lastError calls delays lg Hat Hfuel;
    (destruct fuel as [|fuel]; [lia |]); cbn [retry_loop].
  - destruct (Z.leb_spec attempt maxRetries) as [Hle | Hgt]; [lia |].
    eexists. split; [reflexivity |]. cbn.
    rewrite Nat.add_0_r, app_nil_r. auto.
  - destruct (Z.leb_spec attempt maxRetries) as [Hle | Hgt]; [| lia].
    destruct (always_fails calls) as (e & Hcall & Hretry).
    rewrite Hcall, Hretry.
    assert (Herr : error_at fn calls = e) by (unfold error_at; now rewrite Hcall).
    destruct (Z.ltb_spec attempt maxRetries) as [Hlt | Hge].
    + destruct (IH fuel (attempt + 1)%Z (Some (as_Error e)) (S calls)
                  (delays ++ [(initialDelay * 2 ^ attempt)%Z])
                  (lg ++ [retry_warning attempt maxRetries
                            (initialDelay * 2 ^ attempt)%Z]))
        as (run & Hrun & Hcalls & Hdelays & Hres); [lia | lia |].
      exists run. split; [exact Hrun |]. split; [lia |]. split.
      * rewrite Hdelays, <- app_assoc. f_equal.
        rewrite (seqZ_cons attempt (Z.of_nat (S n) - 1)) by lia.
        cbn [map app]. do 3 f_equal. lia.
      * rewrite Hres. destruct n as [|n]; [lia |].
        do 3 f_equal. lia.
    + destruct (IH fuel (attempt + 1)%Z (Some (as_Error e)) (S calls)
                  delays lg)
        as (run & Hrun & Hcalls & Hdelays & Hres); [lia | lia |].
      assert (n = O) by lia. subst n.
      exists run. split; [exact Hrun |]. split; [lia |]. split.
      * rewrite Hdelays. reflexivity.
      * rewrite Hres. cbn. rewrite <- Herr. do 3 f_equal. lia.
Qed.

End Retry.

(** C5 as stated fails: with its parameter at 3, [retryWithBackoff] calls an
    operation that always fails four times, not three. *)
Lemma retry_attempts_counterexample :
  retry_calls (retryWithBackoff (fun _ => @Err unit (PlainError "unavailable"))
                 3 1000) = 4%nat
  /\ retry_calls (retryWithBackoff (fun _ => @Err unit (PlainError "unavailable"))
                    3 1000) <> Z.to_nat 3.
Proof. split; [reflexivity | discriminate]. Qed.

(** C5, amended. With a parameter [maxRetries >= 0]: an operation that
    always fails with a retried error is called [maxRetries + 1] times, the
    delays slept are [initialDelay * 2 ^ k] for [k] from 0 to
    [maxRetries - 1], and the error of the last call is thrown; an
    operation whose first call fails with [InvalidParams] or
    [InvalidRequest] is called once, nothing is slept, and that error is
    thrown. *)
Theorem retry_bound {T : Type} (maxRetries initialDelay : Z) :
  (0 <= maxRetries)%Z ->
  (forall fn : nat -> result T,
   (forall k, exists e, fn k = Err e /\ not_retried e = false) ->
   let run := retryWithBackoff fn maxRetries initialDelay in
   retry_calls run = Z.to_nat (maxRetries + 1)
   /\ retry_delays run
      = map (fun k => initialDelay * 2 ^ k)%Z (seqZ 0 maxRetries)
   /\ retry_result run
      = Err (as_Error (error_at fn (Z.to_nat maxRetries))))
  /\ (forall (fn : nat -> result T) (e : JsError),
      fn O = Err e -> not_retried e = true ->
      let run := retryWithBackoff fn maxRetries initialDelay in
      retry_calls run = 1%nat
      /\ retry_delays run = []
      /\ retry_result run = Err e).
Proof.
  intros Hmax. split.
  - intros fn Hfail run.
    destruct (retry_loop_always_fails fn maxRetries initialDelay Hfail
                (Z.to_nat (maxRetries + 1)) (retry_fuel maxRetries) 0%Z None
                O [] [])
      as (run' & Hrun & Hcalls & Hdelays & Hres);
      [lia | unfold retry_fuel; lia |].
    apply retryWithBackoff_eq in Hrun. subst run. rewrite Hrun.
    split; [exact Hcalls |]. split.
    + rewrite Hdelays. cbn [app]. do 2 f_equal. lia.
    + rewrite Hres. destruct (Z.to_nat (maxRetries + 1)) as [|m] eqn:E; [lia |].
      do 3 f_equal. lia.
  - intros fn e Hcall Hstop run. subst run.
    unfold retryWithBackoff, retryWithBackoff_from, retry_fuel.
    cbn [retry_loop].
    destruct (Z.leb_spec 0 maxRetries) as [_ | Hgt]; [| lia].
    rewrite Hcall, Hstop. cbn. auto.
Qed.

(** The default arguments (3 and 1000): four calls and delays of 1000, 2000
    and 4000 ms for an operation that is always unavailable; a single call
    for one that fails with [InvalidParams]. *)
Lemma retry_bound_witness :
  (0 <= 3)%Z
  /\ (let run := retryWithBackoff (fun _ => @Err unit (PlainError "unavailable"))
                   3 1000 in
      retry_calls run = 4%nat
      /\ retry_delays run = [1000; 2000; 4000]%Z
      /\ retry_result run = Err (PlainError "unavailable"))
  /\ (let run := retryWithBackoff
                   (fun _ => @Err unit (McpError InvalidParams "bad prompt"))
                   3 1000 in
      retry_calls run = 1%nat
      /\ retry_delays run = []
      /\ retry_result run = Err (McpError InvalidParams "bad prompt")).
Proof.
  assert (H : (0 <= 3)%Z) by lia.
  split; [exact H |]. split.
  - apply (proj1 (@retry_bound unit 3 1000 H)
             (fun _ => Err (PlainError "unavailable"))).
    intros k. exists (PlainError "unavailable"). split; reflexivity.
  - apply (proj2 (@retry_bound unit 3 1000 H)
             (fun _ => Err (McpError InvalidParams "bad prompt"))
             (McpError InvalidParams "bad prompt")); reflexivity.
Defined.

(** ** Persisting the configuration and the metadata *)

Lemma saveMetadata_unfold (env : Env) (s : State) :
  saveMetadata env s
  = match writeFile env (disk (world s)) (metadataPath env (this s))
            (MetadataJson (JsMap.values (imageMetadata (this s)))) None with
    | Ok d =>
        (Ok tt, {| this := this s;
                   world := {| disk := d; stderr := stderr (world s);
                               slept := slept (world s) |} |})
    | Err e => (Err e, s)
    end.
Proof.
  unfold saveMetadata, bind, get_this, on_disk.
  destruct (writeFile _ _ _ _ _); reflexivity.
Qed.

Lemma writeFile_denied (env : Env) (d : FileSystem) (p msg : string)
    (x : FileData) (mode : option Z) :
  denied d OpWrite p = Some msg ->
  writeFile env d p x mode = Err (PlainError msg).
Proof. unfold writeFile. intros ->. reflexivity. Qed.

Lemma writeFile_allowed (env : Env) (d : FileSystem) (p : string)
    (x : FileData) (mode : option Z) :
  denied d OpWrite p = None ->
  exists d',
    writeFile env d p x mode = Ok d'
    /\ file_data d' p = Some x
    /\ (forall q, q <> p -> files d' !! q = files d !! q)
    /\ dirs d' = dirs d /\ denied d' = denied d
    /\ file_perm d' p
       = Some (match files d !! p with
               | Some f => perm f
               | None => Z.ldiff (default mode_0o666 mode) (umask env)
               end).
Proof.
  intros Hd. unfold writeFile. rewrite Hd. eexists. split; [reflexivity |].
  unfold file_data, file_perm, set_files. cbn [files dirs denied].
  rewrite lookup_insert_eq. cbn.
  split; [reflexivity |]. split; [| auto].
  intros q Hq. apply lookup_insert_ne. congruence.
Qed.

(** [saveMetadata] passes no mode to [fs.writeFile]: a metadata file that
    it creates gets the mode 0o666 less the umask. *)
Lemma saveMetadata_new_file_perm (env : Env) (s s' : State) :
  files (disk (world s)) !! metadataPath env (this s) = None ->
  saveMetadata env s = (Ok tt, s') ->
  file_perm (disk (world s')) (metadataPath env (this s))
  = Some (Z.ldiff mode_0o666 (umask env)).
Proof.
  intros Hnew. rewrite saveMetadata_unfold.
  destruct (denied (disk (world s)) OpWrite (metadataPath env (this s)))
    as [msg|] eqn:Hd.
  - rewrite (writeFile_denied _ _ _ msg) by exact Hd. discriminate.
  - destruct (writeFile_allowed env (disk (world s))
                (metadataPath env (this s))
                (MetadataJson (JsMap.values (imageMetadata (this s)))) None Hd)
      as (d' & Hw & _ & _ & _ & _ & Hperm).
    rewrite Hw. intros H. injection H as <-. cbn [world disk].
    rewrite Hperm, Hnew. reflexivity.
Qed.

(** C9, at a failing input. On a fresh disk and with the usual umask 0o022,
    the metadata file that [saveMetadata] writes has the permission bits
    0o644 (readable by group and others), not 0o600. *)
Theorem metadata_file_not_owner_only :
  fst (saveMetadata env0 state0) = Ok tt
  /\ file_perm (disk (world (snd (saveMetadata env0 state0))))
       (metadataPath env0 new_ImgMcp) = Some 420%Z
  /\ 420%Z <> mode_0o600
  /\ Z.land 420 36 = 36%Z.
Proof. repeat split; try reflexivity. discriminate. Qed.

Lemma saveConfig_unfold (env : Env) (s : State) (c : Config.t) :
  config (this s) = Some c ->
  saveConfig env s
  = match writeFile env (disk (world s)) (configPath env)
            (ConfigJson (configToSave (this s) c)) None with
    | Ok d =>
        (Ok tt, {| this := this s;
                   world := {| disk := d; stderr := stderr (world s);
                               slept := slept (world s) |} |})
    | Err e => (Err e, s)
    end.
Proof.
  intros Hc. unfold saveConfig, bind, get_this. rewrite Hc. unfold on_disk.
  destruct (writeFile _ _ _ _ _); reflexivity.
Qed.

(** C4 as stated fails: after [configure_gemini_token], the configuration
    file holds the key in full. *)
Lemma persisted_key_counterexample :
  exists c,
    file_data (disk (world (snd (configureGeminiToken env0 "AIzaSy-secret" state0))))
      (configPath env0) = Some (ConfigJson c)
    /\ Config.geminiApiKey c = "AIzaSy-secret".
Proof. eexists. split; reflexivity. Qed.

(** C4, amended. When the disk accepts the write, [saveConfig] stores the
    configuration of the server; the stored key is "[REDACTED]" when the
    configuration came from the environment, and the key itself for the
    other sources. *)
Theorem saveConfig_redacts_environment_key
    (env : Env) (s : State) (c : Config.t) :
  config (this s) = Some c ->
  denied (disk (world s)) OpWrite (configPath env) = None ->
  exists s' stored,
    saveConfig env s = (Ok tt, s')
    /\ this s' = this s
    /\ file_data (disk (world s')) (configPath env) = Some (ConfigJson stored)
    /\ (configSource (this s) = environment ->
        Config.geminiApiKey stored = REDACTED)
    /\ (configSource (this s) <> environment -> stored = c).
Proof.
  intros Hc Hd. rewrite (saveConfig_unfold env s c Hc).
  destruct (writeFile_allowed env (disk (world s)) (configPath env)
              (ConfigJson (configToSave (this s) c)) None Hd)
    as (d' & Hw & Hdata & _).
  rewrite Hw. eexists. exists (configToSave (this s) c).
  split; [reflexivity |]. split; [reflexivity |].
  split; [exact Hdata |]. unfold configToSave. split.
  - intros ->. reflexivity.
  - intros Hsrc. destruct (configSource (this s)); congruence.
Qed.

(** [loadConfig] with a key in the environment gives the sample server. *)
Example loadConfig_from_environment :
  loadConfig env_with_key state0 = (Ok tt, from_environment).
Proof. reflexivity. Qed.

(** A server configured from the environment stores "[REDACTED]". *)
Lemma saveConfig_redacts_environment_key_witness :
  config (this from_environment) = Some sample_config
  /\ denied (disk (world from_environment)) OpWrite (configPath env0) = None
  /\ exists s' stored,
       saveConfig env0 from_environment = (Ok tt, s')
       /\ this s' = this from_environment
       /\ file_data (disk (world s')) (configPath env0)
          = Some (ConfigJson stored)
       /\ (configSource (this from_environment) = environment ->
           Config.geminiApiKey stored = REDACTED)
       /\ (configSource (this from_environment) <> environment ->
           stored = sample_config).
Proof.
  split; [reflexivity |]. split; [reflexivity |].
  apply (saveConfig_redacts_environment_key env0 from_environment sample_config);
    reflexivity.
Defined.

(** ** The insertion-ordered map *)

Section JsMapFacts.

Context {V : Type}.
Implicit Types (m : JsMap.t V) (k : string) (v : V).

Lemma get_None_keys m k : JsMap.get m k = None <-> k ∉ JsMap.keys m.
Proof.
  induction m as [|[k' v'] m IH]; cbn [JsMap.get JsMap.keys map fst].
  - split; [intros _; apply not_elem_of_nil | reflexivity].
  - rewrite not_elem_of_cons. destruct (String.eqb_spec k' k) as [-> | Hne].
    + split; [discriminate | intros [H _]; congruence].
    + rewrite IH. split; [intros H; split; [congruence | exact H] | intros [_ H]; exact H].
Qed.

Lemma get_Some_elem m k v : JsMap.get m k = Some v -> (k, v) ∈ m.
Proof.
  induction m as [|[k' v'] m IH]; cbn [JsMap.get]; [discriminate |].
  destruct (String.eqb_spec k' k) as [-> | Hne].
  - intros H. injection H as ->. left.
  - intros H. right. apply IH, H.
Qed.

Lemma keys_delete_subseteq m k : JsMap.keys (JsMap.delete m k) ⊆ JsMap.keys m.
Proof.
  induction m as [|[k' v'] m IH]; cbn [JsMap.delete]; [reflexivity |].
  destruct (String.eqb k' k).
  - cbn [JsMap.keys map fst]. intros x Hx. right. exact Hx.
  - cbn [JsMap.keys map fst]. intros x Hx.
    apply elem_of_cons in Hx as [-> | Hx]; [left | right; apply IH, Hx].
Qed.

Lemma wf_delete m k : JsMap.wf m -> JsMap.wf (JsMap.delete m k).
Proof.
  unfold JsMap.wf. induction m as [|[k' v'] m IH]; cbn [JsMap.delete]; [auto |].
  cbn [JsMap.keys map fst]. intros Hwf. apply NoDup_cons in Hwf as [Hk Hm].
  destruct (String.eqb k' k); [exact Hm |].
  cbn [JsMap.keys map fst]. apply NoDup_cons. split; [| apply IH, Hm].
  intros Hin. apply Hk. apply (keys_delete_subseteq m k), Hin.
Qed.

(** after [delete], the key is gone *)
Lemma get_delete_eq m k : JsMap.wf m -> JsMap.get (JsMap.delete m k) k = None.
Proof.
  unfold JsMap.wf. induction m as [|[k' v'] m IH]; cbn [JsMap.delete]; [reflexivity |].
  cbn [JsMap.keys map fst]. intros Hwf. apply NoDup_cons in Hwf as [Hk Hm].
  destruct (String.eqb_spec k' k) as [-> | Hne].
  - apply get_None_keys. exact Hk.
  - cbn [JsMap.get]. destruct (String.eqb_spec k' k); [congruence |].
    apply IH, Hm.
Qed.

Lemma get_delete_ne m k k' :
  k <> k' -> JsMap.get (JsMap.delete m k) k' = JsMap.get m k'.
Proof.
  intros Hne. induction m as [|[k0 v0] m IH]; cbn [JsMap.delete]; [reflexivity |].
  destruct (String.eqb_spec k0 k) as [-> | Hk0]; cbn [JsMap.get].
  - destruct (String.eqb_spec k k'); [congruence | reflexivity].
  - rewrite IH. reflexivity.
Qed.


Lemma get_set_eq m k v : JsMap.get (JsMap.set m k v) k = Some v.
Proof.
  induction m as [|[k' v'] m IH]; cbn [JsMap.set JsMap.get].
  - rewrite String.eqb_refl. reflexivity.
  - destruct (String.eqb_spec k' k) as [-> | Hne]; cbn [JsMap.get].
    + rewrite String.eqb_refl. reflexivity.
    + destruct (String.eqb_spec k' k); [congruence | exact IH].
Qed.

Lemma keys_set m k v :
  forall x, x ∈ JsMap.keys (JsMap.set m k v) <-> x = k \/ x ∈ JsMap.keys m.
Proof.
  induction m as [|[k' v'] m IH]; intros x; cbn [JsMap.set JsMap.keys map fst].
  - rewrite elem_of_cons. reflexivity.
  - destruct (String.eqb_spec k' k) as [-> | Hne]; cbn [JsMap.keys map fst].
    + rewrite !elem_of_cons. tauto.
    + rewrite !elem_of_cons. fold (JsMap.keys (JsMap.set m k v)).
      fold (JsMap.keys m). rewrite IH. tauto.
Qed.

Lemma wf_set m k v : JsMap.wf m -> JsMap.wf (JsMap.set m k v).
Proof.
  unfold JsMap.wf. induction m as [|[k' v'] m IH]; cbn [JsMap.set].
  - intros _. apply NoDup_singleton.
  - cbn [JsMap.keys map fst]. intros Hwf. apply NoDup_cons in Hwf as [Hk Hm].
    destruct (String.eqb_spec k' k) as [-> | Hne]; cbn [JsMap.keys map fst].
    + apply NoDup_cons. auto.
    + apply NoDup_cons. split; [| apply IH, Hm].
      fold (JsMap.keys (JsMap.set m k v)). rewrite keys_set.
      intros [? | ?]; [congruence | contradiction].
Qed.

End JsMapFacts.

(** ** delete_image *)

Lemma after_unlink_denied (w : World) (p : string) :
  denied (disk (after_unlink w p)) = denied (disk w).
Proof.
  unfold after_unlink, unlink.
  destruct (denied (disk w) OpUnlink p); [reflexivity |].
  destruct (files (disk w) !! p); reflexivity.
Qed.

Lemma after_unlink_other (w : World) (p q : string) :
  q <> p -> files (disk (after_unlink w p)) !! q = files (disk w) !! q.
Proof.
  intros Hq. unfold after_unlink, unlink.
  destruct (denied (disk w) OpUnlink p); [reflexivity |].
  destruct (files (disk w) !! p); [| reflexivity].
  cbn. apply lookup_delete_ne. congruence.
Qed.

Lemma after_unlink_failed (w : World) (p : string) :
  is_ok (unlink (disk w) p) = false ->
  after_unlink w p
  = {| disk := disk w; stderr := stderr w ++ [delete_warning];
       slept := slept w |}.
Proof.
  unfold after_unlink. destruct (unlink (disk w) p); [discriminate | reflexivity].
Qed.

Lemma deleteImage_absent (env : Env) (imageId : string) (s : State) :
  JsMap.get (imageMetadata (this s)) (extract_id imageId) = None ->
  deleteImage env imageId s = (Err (not_found_error (extract_id imageId)), s).
Proof.
  intros Hget. unfold deleteImage, bind, get_this. rewrite Hget. reflexivity.
Qed.

Lemma metadataPath_with_imageMetadata (env : Env)
    (m : JsMap.t ImageMetadata.t) (t : ImgMcp) :
  metadataPath env (with_imageMetadata m t) = metadataPath env t.
Proof. reflexivity. Qed.

(** What [deleteImage] does for an id of the index: the attempt on the
    file, the removal from the index, then the write of the metadata. *)
Lemma deleteImage_found (env : Env) (imageId : string) (s : State)
    (meta : ImageMetadata.t) :
  JsMap.get (imageMetadata (this s)) (extract_id imageId) = Some meta ->
  let id := extract_id imageId in
  let w1 := after_unlink (world s) (ImageMetadata.filePath meta) in
  let t2 := with_imageMetadata (JsMap.delete (imageMetadata (this s)) id) (this s) in
  deleteImage env imageId s
  = match writeFile env (disk w1) (metadataPath env (this s))
            (MetadataJson (JsMap.values (JsMap.delete (imageMetadata (this s)) id)))
            None with
    | Ok d =>
        (Ok (text_result ("Image deleted successfully: " +:+ id)),
         {| this := t2;
            world := {| disk := d;
                        stderr := stderr w1
                                  ++ [{| level := INFO; message := "Image deleted" |}];
                        slept := slept w1 |} |})
    | Err e => (Err e, {| this := t2; world := w1 |})
    end.
Proof.
  intros Hget id w1 t2. subst id w1 t2.
  unfold deleteImage, bind at 1, get_this. rewrite Hget.
  unfold after_unlink, bind, try_catch, on_disk, update_this, Logger_log, ret.
  destruct (unlink (disk (world s)) (ImageMetadata.filePath meta)) as [d1 | e1];
    cbn [this world disk stderr slept]; rewrite saveMetadata_unfold;
    cbn [this world disk stderr slept];
    rewrite metadataPath_with_imageMetadata;
    cbn [imageMetadata with_imageMetadata];
    match goal with
    | |- context [writeFile ?a ?b ?c ?d ?e] => destruct (writeFile a b c d e)
    end; reflexivity.
Qed.

(** C7. [delete_image] on an id that the index does not hold throws "Image
    not found" and leaves the whole state as it was; on an id that it holds,
    the entry is removed from the index and, when the disk accepts the
    write, the call succeeds and the metadata file holds the remaining
    records, whether the image file could be removed or not (a failed
    removal is logged as a warning); a second [delete_image] of the same id
    throws "Image not found". *)
Theorem delete_image_semantics (env : Env) (imageId : string) (s : State) :
  JsMap.wf (imageMetadata (this s)) ->
  let id := extract_id imageId in
  let index := imageMetadata (this s) in
  (JsMap.get index id = None ->
   deleteImage env imageId s = (Err (not_found_error id), s))
  /\ (forall meta, JsMap.get index id = Some meta ->
      exists r s',
        deleteImage env imageId s = (r, s')
        /\ imageMetadata (this s') = JsMap.delete index id
        /\ JsMap.get (imageMetadata (this s')) id = None
        /\ (denied (disk (world s)) OpWrite (metadataPath env (this s)) = None ->
            r = Ok (text_result ("Image deleted successfully: " +:+ id))
            /\ file_data (disk (world s')) (metadataPath env (this s))
               = Some (MetadataJson (JsMap.values (JsMap.delete index id))))
        /\ (is_ok (unlink (disk (world s)) (ImageMetadata.filePath meta)) = false ->
            delete_warning ∈ stderr (world s'))
        /\ deleteImage env imageId s' = (Err (not_found_error id), s')).
Proof.
  intros Hwf id index. split; [apply deleteImage_absent |].
  intros meta Hget.
  pose proof (deleteImage_found env imageId s meta Hget) as Hrun.
  cbn zeta in Hrun. fold id index in Hrun.
  set (w1 := after_unlink (world s) (ImageMetadata.filePath meta)) in *.
  assert (Hgone : JsMap.get (JsMap.delete index id) id = None)
    by (apply get_delete_eq; exact Hwf).
  destruct (denied (disk (world s)) OpWrite (metadataPath env (this s)))
    as [msg |] eqn:Hd.
  - rewrite (writeFile_denied env (disk w1) _ msg) in Hrun
      by (unfold w1; rewrite after_unlink_denied; exact Hd).
    eexists _, _. split; [exact Hrun |].
    cbn [this world imageMetadata with_imageMetadata].
    split; [reflexivity |]. split; [exact Hgone |].
    split; [discriminate |]. split.
    + intros Hfail. unfold w1. rewrite after_unlink_failed by exact Hfail.
      cbn [stderr]. apply elem_of_app. right. left.
    + apply deleteImage_absent. exact Hgone.
  - destruct (writeFile_allowed env (disk w1) (metadataPath env (this s))
                (MetadataJson (JsMap.values (JsMap.delete index id))) None)
      as (d' & Hw & Hdata & _);
      [unfold w1; rewrite after_unlink_denied; exact Hd |].
    rewrite Hw in Hrun.
    eexists _, _. split; [exact Hrun |].
    cbn [this world disk stderr imageMetadata with_imageMetadata].
    split; [reflexivity |]. split; [exact Hgone |].
    split; [intros _; split; [reflexivity | exact Hdata] |]. split.
    + intros Hfail. unfold w1. rewrite after_unlink_failed by exact Hfail.
      cbn [stderr]. apply elem_of_app. left. apply elem_of_app. right. left.
    + apply deleteImage_absent. exact Hgone.
Qed.

(** ** generate_image *)

Lemma call_upstream_outcome (up : Upstream)
    (prompt selectedModel selectedFormat : string) (s : State) :
  exists lg sl,
    call_upstream up prompt selectedModel selectedFormat s
    = (upstream_outcome up prompt selectedModel selectedFormat,
       {| this := this s;
          world := {| disk := disk (world s); stderr := lg; slept := sl |} |}).
Proof.
  unfold call_upstream, upstream_outcome.
  destruct (isImagenModel selectedModel && has_generateImages up);
    unfold bind, Logger_log, await_retry, ret; cbn [this world disk stderr slept];
    match goal with
    | |- context [retry_result ?r] => destruct (retry_result r)
    end; eexists _, _; reflexivity.
Qed.

Section GenerationFacts.

Variable Buffer_from_base64 : string -> string.
Variable env : Env.

(** The block that stores a generated image, when the image file can be
    written and the metadata file cannot: the record is in the index, the
    path is remembered, and the error of the write is thrown. *)
Lemma store_generated_persist_failure (amb : Ambient)
    (prompt selectedModel selectedFormat : string) (ex : Extracted)
    (s : State) (b64 msg : string) :
  let t := this s in
  let path := generated_path env t amb selectedFormat in
  let record := generated_record amb path prompt selectedModel selectedFormat
                  (Buffer_from_base64 b64) in
  truthy (imageData ex) = Some b64 ->
  denied (disk (world s)) OpWrite path = None ->
  denied (disk (world s)) OpWrite (metadataPath env t) = Some msg ->
  exists s',
    store_generated Buffer_from_base64 env amb prompt selectedModel
      selectedFormat ex s = (Err (PlainError msg), s')
    /\ imageMetadata (this s') = JsMap.set (imageMetadata t) (fresh_id amb) record
    /\ lastImagePath (this s') = Some path
    /\ config (this s') = config t
    /\ (path <> metadataPath env t ->
        files (disk (world s')) !! metadataPath env t
        = files (disk (world s)) !! metadataPath env t).
Proof.
  intros t path record Hdata Hw Hm. subst t.
  unfold store_generated. rewrite Hdata.
  unfold bind at 1, get_this. fold path.
  set (logged := (if (_ <? _)%Z then _ else _) : M unit).
  assert (Hlogged : exists lg,
            logged s = (Ok tt, {| this := this s;
                                  world := {| disk := disk (world s);
                                              stderr := lg;
                                              slept := slept (world s) |} |})).
  { subst logged. destruct (_ <? _)%Z; unfold Logger_log, ret.
    - eexists. reflexivity.
    - exists (stderr (world s)). destruct s as [t [d e sl]]. reflexivity. }
  destruct Hlogged as (lg & Hlogged).
  unfold bind at 1. rewrite Hlogged.
  destruct (writeFile_allowed env (disk (world s)) path
              (ImageBytes (Buffer_from_base64 b64)) None Hw)
    as (d' & Hwrite & _ & Hother & _ & Hden & _).
  unfold bind at 1, on_disk at 1. cbn [this world disk stderr slept].
  rewrite Hwrite.
  unfold bind, update_this. cbn [this world disk stderr slept].
  rewrite saveMetadata_unfold. cbn [this world disk stderr slept].
  rewrite metadataPath_with_imageMetadata.
  change (metadataPath env (with_lastImagePath path (this s)))
    with (metadataPath env (this s)).
  rewrite (writeFile_denied env d' _ msg) by (rewrite Hden; exact Hm).
  eexists. split; [reflexivity |].
  cbn [this world disk imageMetadata lastImagePath config
       with_imageMetadata with_lastImagePath].
  split; [reflexivity |]. split; [reflexivity |]. split; [reflexivity |].
  intros Hne. apply Hother. congruence.
Qed.

(** [generate_image] when the upstream call gives an image, the image file
    can be written and the metadata file cannot. *)
Lemma generateImage_persist_failure (up : Upstream) (amb : Ambient)
    (args : GenerateArgs) (s : State) (ex : Extracted) (b64 msg : string) :
  let t := this s in
  let selectedModel := selected_model t args in
  let selectedFormat := selected_format t args in
  let path := generated_path env t amb selectedFormat in
  let record := generated_record amb path (arg_prompt args) selectedModel
                  selectedFormat (Buffer_from_base64 b64) in
  ensureConfigured t = true ->
  blank (arg_prompt args) = false ->
  (prompt_limit t <? Z.of_nat (Str.length (arg_prompt args)))%Z = false ->
  upstream_outcome up (arg_prompt args) selectedModel selectedFormat = Ok ex ->
  truthy (imageData ex) = Some b64 ->
  denied (disk (world s)) OpMkdir (getImagesDirectory env t) = None ->
  denied (disk (world s)) OpWrite path = None ->
  denied (disk (world s)) OpWrite (metadataPath env t) = Some msg ->
  exists s',
    generateImage Buffer_from_base64 env up amb args s
    = (Err (McpError InternalError ("Failed to generate image: " +:+ msg)), s')
    /\ JsMap.get (imageMetadata (this s')) (fresh_id amb) = Some record
    /\ lastImagePath (this s') = Some path
    /\ (path <> metadataPath env t ->
        file_data (disk (world s')) (metadataPath env t)
        = file_data (disk (world s)) (metadataPath env t)).
Proof.
  intros t selectedModel selectedFormat path record
    Hconf Hblank Hlen Hup Hdata Hmk Hw Hm.
  unfold generateImage. unfold bind at 1, get_this. fold t.
  rewrite Hconf, Hblank, Hlen. cbn [negb].
  fold selectedModel selectedFormat.
  unfold bind at 1, Logger_log at 1. unfold try_catch, generate_body.
  unfold bind at 1, get_this. cbn [this world disk stderr slept]. fold t.
  unfold bind at 1, on_disk at 1, mkdir. cbn [this world disk stderr slept].
  rewrite Hmk.
  set (s1 := {| this := t; world := _ |}).
  destruct (call_upstream_outcome up (arg_prompt args) selectedModel
              selectedFormat s1)
    as (lg & sl & Hcall).
  unfold bind at 1. rewrite Hcall, Hup.
  set (s2 := {| this := this s1; world := _ |}).
  destruct (store_generated_persist_failure amb (arg_prompt args)
              selectedModel selectedFormat ex s2 b64 msg Hdata)
    as (s' & Hstore & Hindex & Hlast & _ & Hfile).
  { exact Hw. }
  { exact Hm. }
  unfold bind at 1. rewrite Hstore.
  unfold bind, Logger_log, throw. cbn [error_text].
  eexists. split; [reflexivity |].
  cbn [this world disk stderr slept].
  split; [rewrite Hindex; apply get_set_eq |].
  split; [exact Hlast |].
  intros Hne. unfold file_data.
  change (metadataPath env (this s2)) with (metadataPath env t) in Hfile.
  rewrite (Hfile Hne). reflexivity.
Qed.

End GenerationFacts.

(** ** edit_image *)

Section EditingFacts.

Variable Buffer_from_base64 : string -> string.
Variable env : Env.

(** The loop over the reference images keeps what [reference_kept] keeps;
    it changes the log only. *)
Lemma add_references_kept (v : PathValidator) (refs : list string) :
  forall (kept : list (string * FileData * string)) (s : State),
  exists lg,
    add_references env v refs kept s
    = (Ok (kept ++ kept_references env v (disk (world s)) refs),
       {| this := this s;
          world := {| disk := disk (world s); stderr := lg;
                      slept := slept (world s) |} |}).
Proof.
  induction refs as [|refPath rest IH]; intros kept s;
    cbn [add_references kept_references].
  - exists (stderr (world s)). rewrite app_nil_r.
    destruct s as [t [d e sl]]. reflexivity.
  - assert (Hone : exists lg,
              add_reference env v kept refPath s
              = (Ok (kept ++ option_list (reference_kept env v (disk (world s)) refPath)),
                 {| this := this s;
                    world := {| disk := disk (world s); stderr := lg;
                                slept := slept (world s) |} |})).
    { unfold add_reference, reference_kept, try_catch, bind, lift_result,
        from_disk, Logger_log, ret.
      destruct (validateAndSanitize env v refPath) as [vp | e];
        cbn [this world disk stderr slept].
      - destruct (isImageFile vp); cbn [negb].
        + destruct (access (disk (world s)) vp) as [[] | e]; cbn [is_ok].
          * destruct (readFile (disk (world s)) vp) as [b | e].
            -- exists (stderr (world s)). destruct s as [t [d e sl]].
               reflexivity.
            -- eexists. rewrite app_nil_r. reflexivity.
          * eexists. rewrite app_nil_r. reflexivity.
        + eexists. rewrite app_nil_r. reflexivity.
      - eexists. rewrite app_nil_r. reflexivity. }
    destruct Hone as (lg1 & Hone). unfold bind. rewrite Hone.
    destruct (IH (kept ++ option_list (reference_kept env v (disk (world s)) refPath))
                {| this := this s;
                   world := {| disk := disk (world s); stderr := lg1;
                               slept := slept (world s) |} |})
      as (lg2 & Hrest).
    rewrite Hrest. cbn [this world disk stderr slept]. exists lg2.
    destruct (reference_kept env v (disk (world s)) refPath);
      cbn [option_list]; rewrite <- app_assoc; reflexivity.
Qed.

(** a part that stores nothing leaves the state as it is *)
Lemma edit_part_stores_nothing (amb : Ambient) (prompt selectedModel
    selectedFormat : string) (refs : list string)
    (parent : option ImageMetadata.t) (acc : EditAcc) (p : Part) (s : State) :
  stores_nothing p ->
  exists acc',
    edit_part Buffer_from_base64 env amb prompt selectedModel selectedFormat
      refs parent acc p s = (Ok acc', s).
Proof.
  unfold stores_nothing, edit_part, store_edited.
  destruct (part_inlineData p) as [i |].
  - intros ->. eexists. reflexivity.
  - intros _. eexists. reflexivity.
Qed.

Lemma edit_parts_skip (amb : nat -> Ambient) (prompt selectedModel
    selectedFormat : string) (refs : list string)
    (parent : option ImageMetadata.t) (pre rest : list Part) :
  Forall stores_nothing pre ->
  forall (k : nat) (acc : EditAcc) (s : State),
  exists acc',
    edit_parts Buffer_from_base64 env amb k prompt selectedModel
      selectedFormat refs parent (pre ++ rest) acc s
    = edit_parts Buffer_from_base64 env amb (k + length pre) prompt
        selectedModel selectedFormat refs parent rest acc' s.
Proof.
  induction 1 as [|p pre Hp Hpre IH]; intros k acc s.
  - exists acc. cbn [app length]. rewrite Nat.add_0_r. reflexivity.
  - cbn [app edit_parts length].
    destruct (edit_part_stores_nothing (amb k) prompt selectedModel
                selectedFormat refs parent acc p s Hp) as (acc1 & Hone).
    unfold bind at 1. rewrite Hone.
    destruct (IH (S k) acc1 s) as (acc' & Hrest).
    exists acc'. rewrite Hrest. f_equal. lia.
Qed.

(** The block that stores an edited image, when the image file can be
    written and the metadata file cannot. *)
Lemma store_edited_persist_failure (amb : Ambient)
    (prompt selectedModel selectedFormat : string) (refs : list string)
    (parent : option ImageMetadata.t) (i : InlineData) (acc : EditAcc)
    (s : State) (b64 msg : string) :
  let t := this s in
  let path := edited_path env t amb selectedFormat in
  let record := edited_record amb path prompt selectedModel selectedFormat
                  (Buffer_from_base64 b64) refs parent in
  truthy (inline_data i) = Some b64 ->
  denied (disk (world s)) OpWrite path = None ->
  denied (disk (world s)) OpWrite (metadataPath env t) = Some msg ->
  exists s',
    store_edited Buffer_from_base64 env amb prompt selectedModel
      selectedFormat refs parent i acc s = (Err (PlainError msg), s')
    /\ imageMetadata (this s') = JsMap.set (imageMetadata t) (fresh_id amb) record
    /\ lastImagePath (this s') = Some path
    /\ (path <> metadataPath env t ->
        files (disk (world s')) !! metadataPath env t
        = files (disk (world s)) !! metadataPath env t).
Proof.
  intros t path record Hdata Hw Hm. subst t.
  unfold store_edited. rewrite Hdata.
  unfold bind at 1, get_this. fold path.
  destruct (writeFile_allowed env (disk (world s)) path
              (ImageBytes (Buffer_from_base64 b64)) None Hw)
    as (d' & Hwrite & _ & Hother & _ & Hden & _).
  unfold bind at 1, on_disk at 1. rewrite Hwrite.
  unfold bind, update_this. cbn [this world disk stderr slept].
  rewrite saveMetadata_unfold. cbn [this world disk stderr slept].
  rewrite metadataPath_with_imageMetadata.
  change (metadataPath env (with_lastImagePath path (this s)))
    with (metadataPath env (this s)).
  rewrite (writeFile_denied env d' _ msg) by (rewrite Hden; exact Hm).
  eexists. split; [reflexivity |].
  cbn [this world disk imageMetadata lastImagePath
       with_imageMetadata with_lastImagePath].
  split; [reflexivity |]. split; [reflexivity |].
  intros Hne. apply Hother. congruence.
Qed.

Lemma ensure_pathValidator_run (s : State) :
  exists t',
    ensure_pathValidator env s
    = (Ok (validator_of env (this s)), {| this := t'; world := world s |})
    /\ config t' = config (this s)
    /\ imageMetadata t' = imageMetadata (this s).
Proof.
  unfold ensure_pathValidator, validator_of, bind, get_this.
  destruct (pathValidator (this s)) as [v |].
  - exists (this s). destruct s as [t w]. auto.
  - eexists. unfold update_this, ret. cbn [this world].
    split; [reflexivity |]. split; reflexivity.
Qed.

Lemma getImagesDirectory_config (t1 t2 : ImgMcp) :
  config t1 = config t2 ->
  getImagesDirectory env t1 = getImagesDirectory env t2.
Proof. unfold getImagesDirectory. intros ->. reflexivity. Qed.

(** [edit_image] when the response holds an image (after parts that store
    nothing), the image file can be written and the metadata file
    cannot. *)
Lemma editImage_persist_failure (up : Upstream) (amb : nat -> Ambient)
    (args : EditArgs) (s : State) (validatedImagePath : string)
    (imageBuffer : FileData) (response : ContentResponse)
    (pre rest : list Part) (p : Part) (i : InlineData) (b64 msg : string) :
  let t := this s in
  let v := validator_of env t in
  let d := disk (world s) in
  let referenceImages := default [] (edit_referenceImages args) in
  let kept := kept_references env v d referenceImages in
  let validatedReferenceImages := map (fun r => fst (fst r)) kept in
  let selectedModel := edit_model t in
  let selectedFormat := edit_format t in
  let path := edited_path env t (amb (length pre)) selectedFormat in
  let record :=
    edited_record (amb (length pre)) path (edit_prompt args) selectedModel
      selectedFormat (Buffer_from_base64 b64) validatedReferenceImages
      (find_by_path (imageMetadata t) validatedImagePath) in
  ensureConfigured t = true ->
  validateAndSanitize env v (edit_imagePath args) = Ok validatedImagePath ->
  isImageFile validatedImagePath = true ->
  (reference_limit t <? Z.of_nat (length referenceImages))%Z = false ->
  access d validatedImagePath = Ok tt ->
  readFile d validatedImagePath = Ok imageBuffer ->
  retry_result
    (retryWithBackoff
       (generateContent up
          (edit_request selectedModel (edit_prompt args) imageBuffer
             (getMimeType validatedImagePath) kept))
       default_maxRetries default_initialDelay) = Ok response ->
  denied d OpMkdir (getImagesDirectory env t) = None ->
  response_parts response = pre ++ p :: rest ->
  Forall stores_nothing pre ->
  part_inlineData p = Some i ->
  truthy (inline_data i) = Some b64 ->
  denied d OpWrite path = None ->
  denied d OpWrite (metadataPath env t) = Some msg ->
  exists s',
    editImage Buffer_from_base64 env up amb args s
    = (Err (McpError InternalError ("Failed to edit image: " +:+ msg)), s')
    /\ JsMap.get (imageMetadata (this s')) (fresh_id (amb (length pre)))
       = Some record
    /\ lastImagePath (this s') = Some path
    /\ (path <> metadataPath env t ->
        file_data (disk (world s')) (metadataPath env t)
        = file_data (disk (world s)) (metadataPath env t)).
Proof.
  intros t v d referenceImages kept validatedReferenceImages selectedModel
    selectedFormat path record Hconf Hvalid Himage Hlimit Haccess Hread Hup
    Hmk Hparts Hpre Hinline Hdata Hw Hm.
  unfold editImage. unfold bind at 1, get_this. fold t.
  rewrite Hconf. cbn [negb].
  destruct (ensure_pathValidator_run s) as (t1 & Hensure & Hconfig1 & Hindex1).
  unfold bind at 1. rewrite Hensure. fold t v.
  unfold bind at 1, lift_result at 1. rewrite Hvalid, Himage. cbn [negb].
  fold referenceImages. rewrite Hlimit.
  unfold bind at 1, try_catch at 1, from_disk at 1.
  cbn [this world]. fold d. rewrite Haccess.
  unfold bind at 1, from_disk at 1. cbn [this world]. fold d. rewrite Hread.
  set (s1 := {| this := t1; world := world s |}).
  destruct (add_references_kept v referenceImages [] s1) as (lg & Hrefs).
  unfold bind at 1. rewrite Hrefs. subst s1.
  cbn [app this world disk stderr slept]. fold d kept.
  fold validatedReferenceImages selectedModel selectedFormat.
  unfold bind at 1, Logger_log at 1. cbn [this world disk stderr slept].
  unfold try_catch, edit_body.
  unfold bind at 1, await_retry at 1. rewrite Hup.
  cbn [this world disk stderr slept].
  unfold bind at 1, get_this. cbn [this world disk stderr slept].
  unfold bind at 1, on_disk at 1, mkdir. cbn [this world disk stderr slept].
  fold d. rewrite (getImagesDirectory_config t1 t Hconfig1), Hmk.
  rewrite Hparts.
  set (s2 := {| this := t1; world := _ |}).
  destruct (edit_parts_skip amb (edit_prompt args) selectedModel
              selectedFormat validatedReferenceImages
              (find_by_path (imageMetadata t1) validatedImagePath)
              pre (p :: rest) Hpre O
              {| acc_text := ""; acc_saved := []; acc_content := [] |} s2)
    as (acc & Hskip).
  unfold bind at 1. rewrite Hskip. cbn [edit_parts Nat.add].
  unfold bind at 1, edit_part. rewrite Hinline.
  assert (Hpath1 : edited_path env (this s2) (amb (length pre)) selectedFormat
                   = path).
  { unfold path, edited_path, s2. cbn [this].
    rewrite (getImagesDirectory_config t1 t Hconfig1). reflexivity. }
  assert (Hmeta1 : metadataPath env (this s2) = metadataPath env t).
  { unfold metadataPath, s2. cbn [this].
    rewrite (getImagesDirectory_config t1 t Hconfig1). reflexivity. }
  match goal with
  | |- context [store_edited _ _ ?a ?b ?c ?e ?f ?g ?h ?acc0 s2] =>
      destruct (store_edited_persist_failure a b c e f g h acc0 s2 b64 msg Hdata)
        as (s' & Hstore & Hindex & Hlast & Hfile)
  end.
  { rewrite Hpath1. exact Hw. }
  { rewrite Hmeta1. exact Hm. }
  rewrite Hstore. unfold bind, Logger_log, throw. cbn [error_text].
  eexists. split; [reflexivity |]. cbn [this world disk stderr slept].
  rewrite Hpath1, Hmeta1 in *. cbn [this] in Hindex.
  split; [rewrite Hindex, Hindex1; apply get_set_eq |].
  split; [exact Hlast |].
  intros Hne. unfold file_data. rewrite (Hfile Hne). reflexivity.
Qed.

End EditingFacts.

(** ** Persist, then load *)

(** [fs.access] succeeds on a record's path exactly when something is
    there on the disk and the access is not refused *)
Lemma access_on_disk (d : FileSystem) (meta : ImageMetadata.t) :
  is_ok (access d (ImageMetadata.filePath meta)) = file_present d meta.
Proof.
  unfold access, file_present, exists_on_disk, access_refused.
  destruct (denied d OpAccess (ImageMetadata.filePath meta)); cbn [negb is_ok].
  - rewrite andb_false_r. reflexivity.
  - rewrite andb_true_r.
    destruct (bool_decide _ || bool_decide _); reflexivity.
Qed.

Lemma load_one_run (meta : ImageMetadata.t) (s : State) :
  exists s',
    load_one meta s = (Ok tt, s')
    /\ imageMetadata (this s')
       = load_step (disk (world s)) (imageMetadata (this s)) meta
    /\ config (this s') = config (this s)
    /\ disk (world s') = disk (world s).
Proof.
  unfold load_one, load_step, try_catch, bind, from_disk, update_this,
    Logger_log.
  rewrite <- access_on_disk.
  destruct (access (disk (world s)) (ImageMetadata.filePath meta)) as [[] | e];
    cbn [is_ok]; eexists; (split; [reflexivity |]); cbn [this world disk];
    auto.
Qed.

Lemma for_each_load_one (l : list ImageMetadata.t) :
  forall s : State,
  exists s',
    for_each l load_one s = (Ok tt, s')
    /\ imageMetadata (this s')
       = foldl (load_step (disk (world s))) (imageMetadata (this s)) l
    /\ config (this s') = config (this s)
    /\ disk (world s') = disk (world s).
Proof.
  induction l as [|meta l IH]; intros s; cbn [for_each foldl].
  - exists s. auto.
  - destruct (load_one_run meta s) as (s1 & Hone & Hindex & Hconfig & Hdisk).
    unfold bind. rewrite Hone.
    destruct (IH s1) as (s' & Hrest & Hindex' & Hconfig' & Hdisk').
    exists s'. rewrite Hrest, Hindex', Hconfig', Hdisk', Hindex, Hdisk, Hconfig.
    auto.
Qed.






(** Two records, one file gone: loading keeps the record whose file is
    there. *)
Lemma configured_index_ok : index_ok (imageMetadata configured).
Proof.
  split.
  - unfold JsMap.wf. cbn. apply NoDup_cons. split; [| apply NoDup_singleton].
    rewrite list_elem_of_singleton. discriminate.
  - repeat constructor.
Qed.


Example load_drops_lost_record :
  JsMap.keys
    (imageMetadata
       (this (snd (loadMetadata env0
                     {| this := restarted;
                        world := world (snd (saveMetadata env0 running)) |}))))
  = [sample_id].
Proof. reflexivity. Qed.

(** A whole restart: the session stored two records; the new process, which
    reads its key from the configuration file, loads the one whose file is
    still there. *)
Example restart_loads_present_records :
  JsMap.keys (imageMetadata (this session))
  = [fresh_id sample_ambient; fresh_id later_ambient]
  /\ fst (run env0 (Ok tt) after_restart) = Ok tt
  /\ configSource (this (snd (run env0 (Ok tt) after_restart))) = config_file
  /\ JsMap.keys (imageMetadata (this (snd (run env0 (Ok tt) after_restart))))
     = [fresh_id later_ambient].
Proof. repeat split; reflexivity. Qed.

(** The index stays well-formed under the updates that the server makes. *)
Lemma index_ok_set (index : JsMap.t ImageMetadata.t) (meta : ImageMetadata.t) :
  index_ok index ->
  index_ok (JsMap.set index (ImageMetadata.id meta) meta).
Proof.
  intros [Hwf Hids]. split; [apply wf_set, Hwf |].
  clear Hwf. induction index as [|[k m] index IH]; cbn [JsMap.set].
  - repeat constructor.
  - apply Forall_cons in Hids as [Hid Hids].
    destruct (String.eqb k (ImageMetadata.id meta)).
    + constructor; [reflexivity | exact Hids].
    + constructor; [exact Hid | apply IH, Hids].
Qed.

Lemma index_ok_delete (index : JsMap.t ImageMetadata.t) (k : string) :
  index_ok index -> index_ok (JsMap.delete index k).
Proof.
  intros [Hwf Hids]. split; [apply wf_delete, Hwf |].
  clear Hwf. induction index as [|[k' m] index IH]; cbn [JsMap.delete].
  - constructor.
  - apply Forall_cons in Hids as [Hid Hids].
    destruct (String.eqb k' k); [exact Hids |].
    constructor; [exact Hid | apply IH, Hids].
Qed.

(** The record whose file is gone: the removal of the file fails, the
    record is deleted all the same. *)
Lemma delete_image_semantics_witness :
  JsMap.wf (imageMetadata (this running))
  /\ (let id := extract_id "img://image/2025-01-02T00-00-00-000Z-xyz789" in
      let index := imageMetadata (this running) in
      (JsMap.get index id = None ->
       deleteImage env0 "img://image/2025-01-02T00-00-00-000Z-xyz789" running
       = (Err (not_found_error id), running))
      /\ (forall meta, JsMap.get index id = Some meta ->
          exists r s',
            deleteImage env0 "img://image/2025-01-02T00-00-00-000Z-xyz789" running
            = (r, s')
            /\ imageMetadata (this s') = JsMap.delete index id
            /\ JsMap.get (imageMetadata (this s')) id = None
            /\ (denied (disk (world running)) OpWrite
                  (metadataPath env0 (this running)) = None ->
                r = Ok (text_result ("Image deleted successfully: " +:+ id))
                /\ file_data (disk (world s')) (metadataPath env0 (this running))
                   = Some (MetadataJson (JsMap.values (JsMap.delete index id))))
            /\ (is_ok (unlink (disk (world running))
                         (ImageMetadata.filePath meta)) = false ->
                delete_warning ∈ stderr (world s'))
            /\ deleteImage env0 "img://image/2025-01-02T00-00-00-000Z-xyz789" s'
               = (Err (not_found_error id), s'))).
Proof.
  split; [apply configured_index_ok |].
  apply (delete_image_semantics env0
           "img://image/2025-01-02T00-00-00-000Z-xyz789" running).
  apply configured_index_ok.
Defined.

Example delete_with_missing_file :
  let run := deleteImage env0 (image_uri lost_id) running in
  is_ok (unlink (disk (world running)) (ImageMetadata.filePath lost_record))
  = false
  /\ fst run = Ok (text_result ("Image deleted successfully: " +:+ lost_id))
  /\ JsMap.keys (imageMetadata (this (snd run))) = [sample_id]
  /\ file_data (disk (world (snd run))) (metadataPath env0 configured)
     = Some (MetadataJson [sample_record])
  /\ stderr (world (snd run))
     = [delete_warning; {| level := INFO; message := "Image deleted" |}].
Proof. repeat split; reflexivity. Qed.

Example delete_twice :
  let first := deleteImage env0 sample_id running in
  fst first = Ok (text_result ("Image deleted successfully: " +:+ sample_id))
  /\ fst (deleteImage env0 sample_id (snd first))
     = Err (McpError InvalidParams ("Image not found: " +:+ sample_id)).
Proof. split; reflexivity. Qed.

(** ** A persist that fails *)

(** C8. When the write of the metadata file fails, [generate_image] and
    [edit_image] that have an image to record throw an error that carries
    the message of the failure, and [delete_image] throws the failure
    itself; the index in memory keeps the new record (for [delete_image]:
    no longer has the deleted one), the metadata file on the disk is as it
    was. *)
Theorem persist_failure_keeps_mutation
    (Buffer_from_base64 : string -> string) (env : Env) (s : State)
    (msg : string) :
  let t := this s in
  let d := disk (world s) in
  denied d OpWrite (metadataPath env t) = Some msg ->
  (* generate_image *)
  (forall (up : Upstream) (amb : Ambient) (args : GenerateArgs)
          (ex : Extracted) (b64 : string),
     let selectedModel := selected_model t args in
     let selectedFormat := selected_format t args in
     let path := generated_path env t amb selectedFormat in
     ensureConfigured t = true ->
     blank (arg_prompt args) = false ->
     (prompt_limit t <? Z.of_nat (Str.length (arg_prompt args)))%Z = false ->
     upstream_outcome up (arg_prompt args) selectedModel selectedFormat = Ok ex ->
     truthy (imageData ex) = Some b64 ->
     denied d OpMkdir (getImagesDirectory env t) = None ->
     denied d OpWrite path = None ->
     exists s',
       generateImage Buffer_from_base64 env up amb args s
       = (Err (McpError InternalError ("Failed to generate image: " +:+ msg)), s')
       /\ JsMap.get (imageMetadata (this s')) (fresh_id amb)
          = Some (generated_record amb path (arg_prompt args) selectedModel
                    selectedFormat (Buffer_from_base64 b64))
       /\ (path <> metadataPath env t ->
           file_data (disk (world s')) (metadataPath env t)
           = file_data d (metadataPath env t)))
  (* edit_image *)
  /\ (forall (up : Upstream) (amb : nat -> Ambient) (args : EditArgs)
             (validatedImagePath : string) (imageBuffer : FileData)
             (response : ContentResponse) (pre rest : list Part) (p : Part)
             (i : InlineData) (b64 : string),
      let v := validator_of env t in
      let referenceImages := default [] (edit_referenceImages args) in
      let kept := kept_references env v d referenceImages in
      let selectedModel := edit_model t in
      let selectedFormat := edit_format t in
      let path := edited_path env t (amb (length pre)) selectedFormat in
      ensureConfigured t = true ->
      validateAndSanitize env v (edit_imagePath args) = Ok validatedImagePath ->
      isImageFile validatedImagePath = true ->
      (reference_limit t <? Z.of_nat (length referenceImages))%Z = false ->
      access d validatedImagePath = Ok tt ->
      readFile d validatedImagePath = Ok imageBuffer ->
      retry_result
        (retryWithBackoff
           (generateContent up
              (edit_request selectedModel (edit_prompt args) imageBuffer
                 (getMimeType validatedImagePath) kept))
           default_maxRetries default_initialDelay) = Ok response ->
      denied d OpMkdir (getImagesDirectory env t) = None ->
      response_parts response = pre ++ p :: rest ->
      Forall stores_nothing pre ->
      part_inlineData p = Some i ->
      truthy (inline_data i) = Some b64 ->
      denied d OpWrite path = None ->
      exists s',
        editImage Buffer_from_base64 env up amb args s
        = (Err (McpError InternalError ("Failed to edit image: " +:+ msg)), s')
        /\ JsMap.get (imageMetadata (this s')) (fresh_id (amb (length pre)))
           = Some (edited_record (amb (length pre)) path (edit_prompt args)
                     selectedModel selectedFormat (Buffer_from_base64 b64)
                     (map (fun r => fst (fst r)) kept)
                     (find_by_path (imageMetadata t) validatedImagePath))
        /\ (path <> metadataPath env t ->
            file_data (disk (world s')) (metadataPath env t)
            = file_data d (metadataPath env t)))
  (* delete_image *)
  /\ (forall (imageId : string) (meta : ImageMetadata.t),
      let id := extract_id imageId in
      JsMap.wf (imageMetadata t) ->
      JsMap.get (imageMetadata t) id = Some meta ->
      exists s',
        deleteImage env imageId s = (Err (PlainError msg), s')
        /\ JsMap.get (imageMetadata (this s')) id = None
        /\ imageMetadata (this s') = JsMap.delete (imageMetadata t) id
        /\ (ImageMetadata.filePath meta <> metadataPath env t ->
            file_data (disk (world s')) (metadataPath env t)
            = file_data d (metadataPath env t))).
Proof.
  intros t d Hm. split; [| split].
  - intros up amb args ex b64 selectedModel selectedFormat path
      Hconf Hblank Hlen Hup Hdata Hmk Hw.
    destruct (generateImage_persist_failure Buffer_from_base64 env up amb args
                s ex b64 msg Hconf Hblank Hlen Hup Hdata Hmk Hw Hm)
      as (s' & Hrun & Hget & _ & Hfile).
    exists s'. auto.
  - intros up amb args validatedImagePath imageBuffer response pre rest p i b64
      v referenceImages kept selectedModel selectedFormat path
      Hconf Hvalid Himage Hlimit Haccess Hread Hup Hmk Hparts Hpre Hinline
      Hdata Hw.
    destruct (editImage_persist_failure Buffer_from_base64 env up amb args s
                validatedImagePath imageBuffer response pre rest p i b64 msg
                Hconf Hvalid Himage Hlimit Haccess Hread Hup Hmk Hparts Hpre
                Hinline Hdata Hw Hm)
      as (s' & Hrun & Hget & _ & Hfile).
    exists s'. auto.
  - intros imageId meta id Hwf Hget.
    pose proof (deleteImage_found env imageId s meta Hget) as Hrun.
    cbn zeta in Hrun. fold id t in Hrun.
    rewrite (writeFile_denied env _ _ msg) in Hrun
      by (rewrite after_unlink_denied; exact Hm).
    eexists. split; [exact Hrun |].
    cbn [this world imageMetadata with_imageMetadata].
    split; [apply get_delete_eq; exact Hwf |]. split; [reflexivity |].
    intros Hne. unfold file_data.
    rewrite after_unlink_other by congruence. reflexivity.
Qed.

(** A server whose metadata file cannot be written: the three operations
    fail, and the index in memory has changed. *)
Lemma persist_failure_keeps_mutation_witness :
  denied (disk (world running_locked)) OpWrite
    (metadataPath env0 (this running_locked)) = Some locked_message
  /\ (exists s',
        generateImage sample_decoder env0 sample_upstream sample_ambient
          sample_generate running_locked
        = (Err (McpError InternalError
                  ("Failed to generate image: " +:+ locked_message)), s')
        /\ JsMap.get (imageMetadata (this s')) (fresh_id sample_ambient)
           = Some (generated_record sample_ambient
                     (generated_path env0 configured sample_ambient "png")
                     "red circle" default_model "png"
                     (sample_decoder "aGVsbG8="))
        /\ (generated_path env0 configured sample_ambient "png"
              <> metadataPath env0 configured ->
            file_data (disk (world s')) (metadataPath env0 configured)
            = file_data locked_disk (metadataPath env0 configured)))
  /\ (exists s',
        editImage sample_decoder env0 sample_upstream (fun _ => sample_ambient)
          sample_edit running_locked
        = (Err (McpError InternalError
                  ("Failed to edit image: " +:+ locked_message)), s')
        /\ JsMap.get (imageMetadata (this s')) (fresh_id sample_ambient)
           = Some (edited_record sample_ambient
                     (edited_path env0 configured sample_ambient "png")
                     "make it blue" default_model "png"
                     (sample_decoder "aGVsbG8=") [] (Some sample_record))
        /\ (edited_path env0 configured sample_ambient "png"
              <> metadataPath env0 configured ->
            file_data (disk (world s')) (metadataPath env0 configured)
            = file_data locked_disk (metadataPath env0 configured)))
  /\ (exists s',
        deleteImage env0 sample_id running_locked
        = (Err (PlainError locked_message), s')
        /\ JsMap.get (imageMetadata (this s')) sample_id = None
        /\ imageMetadata (this s')
           = JsMap.delete (imageMetadata configured) sample_id
        /\ (ImageMetadata.filePath sample_record
              <> metadataPath env0 configured ->
            file_data (disk (world s')) (metadataPath env0 configured)
            = file_data locked_disk (metadataPath env0 configured))).
Proof.
  assert (Hlocked : denied (disk (world running_locked)) OpWrite
                      (metadataPath env0 (this running_locked))
                    = Some locked_message) by reflexivity.
  destruct (persist_failure_keeps_mutation sample_decoder env0 running_locked
              locked_message Hlocked) as (Hgenerate & Hedit & Hdelete).
  split; [exact Hlocked |]. split; [| split].
  - apply (Hgenerate sample_upstream sample_ambient sample_generate
             (extract_content "png" one_image) "aGVsbG8="); reflexivity.
  - apply (Hedit sample_upstream (fun _ => sample_ambient) sample_edit
             sample_path (ImageBytes "hello") one_image [] []
             {| part_text := Some "Here is your image.";
                part_inlineData :=
                  Some {| inline_data := Some "aGVsbG8=";
                          inline_mimeType := Some "image/png" |} |}
             {| inline_data := Some "aGVsbG8=";
                inline_mimeType := Some "image/png" |} "aGVsbG8=");
      try reflexivity. constructor.
  - apply (Hdelete sample_id sample_record);
      [apply configured_index_ok | reflexivity].
Defined.

(** ** The index invariant *)

(** The records that [generate_image] and [edit_image] insert are stored
    under their own id; [delete_image] and [loadMetadata] keep the index
    well-formed. *)
Lemma index_ok_generated (index : JsMap.t ImageMetadata.t) (amb : Ambient)
    (filePath prompt selectedModel selectedFormat imageBuffer : string) :
  index_ok index ->
  index_ok (JsMap.set index (fresh_id amb)
              (generated_record amb filePath prompt selectedModel
                 selectedFormat imageBuffer)).
Proof.
  intros Hok.
  exact (index_ok_set index
           (generated_record amb filePath prompt selectedModel selectedFormat
              imageBuffer) Hok).
Qed.

Lemma index_ok_edited (index : JsMap.t ImageMetadata.t) (amb : Ambient)
    (filePath prompt selectedModel selectedFormat imageBuffer : string)
    (refs : list string) (parent : option ImageMetadata.t) :
  index_ok index ->
  index_ok (JsMap.set index (fresh_id amb)
              (edited_record amb filePath prompt selectedModel selectedFormat
                 imageBuffer refs parent)).
Proof.
  intros Hok.
  exact (index_ok_set index
           (edited_record amb filePath prompt selectedModel selectedFormat
              imageBuffer refs parent) Hok).
Qed.

Lemma index_ok_load_step (d : FileSystem) (l : list ImageMetadata.t) :
  forall index, index_ok index -> index_ok (foldl (load_step d) index l).
Proof.
  induction l as [|meta l IH]; intros index Hok; cbn [foldl]; [exact Hok |].
  apply IH. unfold load_step. destruct (file_present d meta); [| exact Hok].
  apply index_ok_set, Hok.
Qed.

Lemma loadMetadata_index_ok (env : Env) (s : State) :
  index_ok (imageMetadata (this s)) ->
  fst (loadMetadata env s) = Ok tt
  /\ index_ok (imageMetadata (this (snd (loadMetadata env s)))).
Proof.
  intros Hok. destruct (loadMetadata env s) as [r s'] eqn:Hrun. cbn [fst snd].
  unfold loadMetadata, try_catch in Hrun.
  unfold bind at 1, get_this in Hrun. unfold bind at 1, from_disk in Hrun.
  destruct (readFile (disk (world s)) (metadataPath env (this s)))
    as [[c | records | b | x] | e];
    try (unfold throw, ret in Hrun; injection Hrun as <- <-;
         split; [reflexivity | exact Hok]).
  destruct (for_each_load_one records s) as (s1 & Hloop & Hindex & _ & _).
  unfold bind in Hrun. rewrite Hloop in Hrun. unfold Logger_log in Hrun.
  injection Hrun as <- <-. cbn [this].
  split; [reflexivity |]. rewrite Hindex. apply index_ok_load_step, Hok.
Qed.

Lemma deleteImage_index_ok (env : Env) (imageId : string) (s : State) :
  index_ok (imageMetadata (this s)) ->
  index_ok (imageMetadata (this (snd (deleteImage env imageId s)))).
Proof.
  intros Hok.
  destruct (JsMap.get (imageMetadata (this s)) (extract_id imageId))
    as [meta |] eqn:Hget.
  - rewrite (deleteImage_found env imageId s meta Hget). cbn zeta.
    destruct (writeFile _ _ _ _ _); cbn [snd this imageMetadata with_imageMetadata];
      apply index_ok_delete, Hok.
  - rewrite (deleteImage_absent env imageId s Hget). exact Hok.
Qed.

(** * Further properties *)

(** ** Canonical paths are fixed points *)

Lemma split_on_free_single (s : string) :
  Str.free_of "/" s = true -> Str.split_on "/" s = [s].
Proof.
  induction s as [|a s IH]; [reflexivity |].
  intros H. apply free_of_cons in H as [Ha Hs].
  cbn [Str.split_on]. apply Ascii.eqb_neq in Ha. rewrite Ha, (IH Hs).
  reflexivity.
Qed.

Lemma split_on_sep (r : string) :
  Str.split_on "/" (String "/" r) = "" :: Str.split_on "/" r.
Proof. reflexivity. Qed.

Lemma split_on_name_sep (s r : string) :
  Str.free_of "/" s = true ->
  Str.split_on "/" (s +:+ String "/" r) = s :: Str.split_on "/" r.
Proof.
  induction s as [|a s IH]; intros H.
  - rewrite app_nil. apply split_on_sep.
  - apply free_of_cons in H as [Ha Hs]. rewrite app_cons.
    cbn [Str.split_on]. apply Ascii.eqb_neq in Ha. rewrite Ha, (IH Hs).
    reflexivity.
Qed.

Lemma flat_sep_shape (segs : list string) :
  exists Y, flat segs +:+ "/" = String "/" Y.
Proof.
  destruct segs as [|s rest]; [exists ""; reflexivity |].
  cbn [flat]. rewrite app_cons, app_nil. eexists. reflexivity.
Qed.

Lemma split_on_flat (segs : list string) :
  Forall good_segment segs ->
  Str.split_on "/" (flat segs +:+ "/") = "" :: segs ++ [""].
Proof.
  induction 1 as [|s rest [_ Hs] Hrest IH]; [reflexivity |].
  cbn [flat]. rewrite !app_cons, !app_nil, split_on_sep, append_assoc.
  destruct (flat_sep_shape rest) as [Y HY]. rewrite HY in *.
  rewrite (split_on_name_sep s Y Hs).
  rewrite split_on_sep in IH. injection IH as IH. rewrite IH. reflexivity.
Qed.

Lemma plain_is_good (segs : list string) :
  Forall plain_segment segs -> Forall good_segment segs.
Proof.
  intros H. induction H as [|s rest [Hs _] _ IH]; constructor; assumption.
Qed.

(** without [allowAboveRoot], normalization leaves plain segments only *)
Lemma normalize_segments_plain (segs acc : list string) :
  Forall plain_segment acc ->
  Forall (fun x => Str.free_of "/" x = true) segs ->
  Forall plain_segment (Path.normalize_segments false acc segs).
Proof.
  revert acc. induction segs as [|s rest IH]; intros acc Hacc Hsegs;
    cbn [Path.normalize_segments].
  - apply Forall_rev. exact Hacc.
  - inversion Hsegs as [|? ? Hs Hrest]; subst.
    destruct (String.eqb_spec s "") as [-> | Hne1]; cbn [orb];
      [apply IH; assumption |].
    destruct (String.eqb_spec s ".") as [-> | Hne2]; [apply IH; assumption |].
    destruct (String.eqb_spec s "..") as [-> | Hne3].
    + destruct acc as [|top acc']; [apply IH; assumption |].
      inversion Hacc; subst.
      destruct (String.eqb top ".."); apply IH; assumption.
    + apply IH; [| assumption]. constructor; [| assumption].
      repeat split; assumption.
Qed.

Lemma segments_plain (cwd p : string) :
  Forall plain_segment (Path.segments cwd p).
Proof.
  unfold Path.segments. apply normalize_segments_plain;
    [constructor | apply split_on_free].
Qed.

(** plain segments, with empty ones around them, come out as they are *)
Lemma normalize_segments_id (segs acc : list string) :
  Forall plain_segment segs ->
  Path.normalize_segments false acc (segs ++ [""]) = rev acc ++ segs.
Proof.
  revert acc. induction segs as [|s rest IH]; intros acc Hsegs.
  - cbn. symmetry. apply app_nil_r.
  - inversion Hsegs as [|? ? [[Hne1 _] [Hne2 Hne3]] Hrest]; subst.
    cbn [app Path.normalize_segments].
    apply String.eqb_neq in Hne1, Hne2, Hne3. rewrite Hne1, Hne2, Hne3.
    cbn [orb]. rewrite (IH (s :: acc) Hrest). cbn [rev].
    rewrite <- app_assoc. reflexivity.
Qed.

Lemma resolve_join_absolute (cwd r : string) :
  Path.resolve_join cwd (String "/" r) = String "/" r +:+ "/".
Proof.
  unfold Path.resolve_join, Str.startsWith.
  assert (H : String.prefix "/" (String "/" r) = true)
    by (apply prefix_cons; split; [reflexivity | apply prefix_nil]).
  rewrite H. reflexivity.
Qed.

Lemma segments_of_render (cwd : string) (segs : list string) :
  Forall plain_segment segs ->
  Path.segments cwd (Path.render segs) = segs.
Proof.
  intros Hsegs. destruct segs as [|s rest]; [reflexivity |].
  rewrite render_flat by discriminate.
  assert (Hshape : flat (s :: rest) = String "/" (s +:+ flat rest))
    by (cbn [flat]; rewrite app_cons, app_nil; reflexivity).
  unfold Path.segments. rewrite Hshape, resolve_join_absolute, <- Hshape.
  rewrite split_on_flat by (apply plain_is_good; exact Hsegs).
  cbn [Path.normalize_segments String.eqb orb].
  rewrite (normalize_segments_id (s :: rest) [] Hsegs). reflexivity.
Qed.

(** [path.resolve] is idempotent: a resolved path resolves to itself,
    whatever the working directory *)
Lemma resolve_idempotent (cwd cwd' p : string) :
  Path.resolve cwd' (Path.resolve cwd p) = Path.resolve cwd p.
Proof.
  unfold Path.resolve.
  rewrite (segments_of_render cwd' (Path.segments cwd p) (segments_plain cwd p)).
  reflexivity.
Qed.

(** X1. What [validateAndSanitize] returns is a fixed point: validating the
    returned path again returns it unchanged. *)
Theorem validated_path_validates (env : Env) (v : PathValidator)
    (filePath validated : string) :
  validateAndSanitize env v filePath = Ok validated ->
  validateAndSanitize env v validated = Ok validated.
Proof.
  intros H. apply validate_ok_inv in H as (-> & Hdots & Hallowed).
  unfold validateAndSanitize. rewrite resolve_idempotent, Hdots, Hallowed.
  reflexivity.
Qed.

Lemma validated_path_validates_witness :
  validateAndSanitize env0 validator0 "sub/.//photo.png"
  = Ok "/srv/app/sub/photo.png"
  /\ validateAndSanitize env0 validator0 "/srv/app/sub/photo.png"
     = Ok "/srv/app/sub/photo.png".
Proof.
  assert (H : validateAndSanitize env0 validator0 "sub/.//photo.png"
              = Ok "/srv/app/sub/photo.png") by reflexivity.
  split; [exact H |].
  exact (validated_path_validates env0 validator0 "sub/.//photo.png"
           "/srv/app/sub/photo.png" H).
Defined.

(** ** More on retryWithBackoff *)

Section RetryMore.

Context {T : Type}.
Variable fn : nat -> result T.
Variables maxRetries initialDelay : Z.

(** From an attempt on: if the next [n] calls fail with retried errors and
    the one after them succeeds, within the allowed attempts, the loop
    returns that result after [n] sleeps. *)
Lemma retry_loop_first_success (n : nat) (v : T) :
  forall (fuel : nat) (attempt : Z) (lastError : option JsError)
         (calls : nat) (delays : list Z) (lg : list LogEntry),
  (attempt + Z.of_nat n <= maxRetries)%Z ->
  (n < fuel)%nat ->
  (forall j, (j < n)%nat ->
             exists e, fn (calls + j) = Err e /\ not_retried e = false) ->
  fn (calls + n) = Ok v ->
  exists run,
    retry_loop fuel fn maxRetries initialDelay attempt lastError calls
      delays lg = Some run
    /\ retry_result run = Ok v
    /\ retry_calls run = S (calls + n)
    /\ retry_delays run
       = delays ++ map (fun k => initialDelay * 2 ^ k)%Z
                       (seqZ attempt (Z.of_nat n)).
Proof.
  induction n as [|n IH];
    intros fuel attempt lastError calls delays lg Hle Hfuel Hfail Hok;
    (destruct fuel as [|fuel]; [lia |]); cbn [retry_loop].
  - destruct (Z.leb_spec attempt maxRetries) as [_ | Hgt]; [| lia].
    rewrite Nat.add_0_r in Hok. rewrite Hok.
    eexists. split; [reflexivity |]. cbn.
    rewrite Nat.add_0_r, app_nil_r. auto.
  - destruct (Z.leb_spec attempt maxRetries) as [_ | Hgt]; [| lia].
    destruct (Hfail O) as (e & Hcall & Hretry); [lia |].
    rewrite Nat.add_0_r in Hcall. rewrite Hcall, Hretry.
    destruct (Z.ltb_spec attempt maxRetries) as [_ | Hge]; [| lia].
    destruct (IH fuel (attempt + 1)%Z (Some (as_Error e)) (S calls)
                (delays ++ [(initialDelay * 2 ^ attempt)%Z])
                (lg ++ [retry_warning attempt maxRetries
                          (initialDelay * 2 ^ attempt)%Z]))
      as (run & Hrun & Hres & Hcalls & Hdelays).
    + lia.
    + lia.
    + intros j Hj. destruct (Hfail (S j)) as (e' & He' & Hr'); [lia |].
      exists e'. split; [| exact Hr'].
      rewrite <- He'. f_equal. lia.
    + rewrite <- Hok. f_equal. lia.
    + exists run. split; [exact Hrun |]. split; [exact Hres |].
      split; [lia |].
      rewrite Hdelays, <- app_assoc. f_equal.
      rewrite (seqZ_cons attempt (Z.of_nat (S n))) by lia.
      cbn [map app]. do 3 f_equal. lia.
Qed.

(** Whatever the operation does: when the loop is entered at [attempt]
    after [attempt] calls and the sleeps between them, it ends with at
    most [maxRetries + 1] calls in all, and with one sleep between
    consecutive calls, of the doubling lengths. *)
Lemma retry_loop_shape (fuel : nat) :
  forall (attempt : Z) (lastError : option JsError) (calls : nat)
         (delays : list Z) (lg : list LogEntry) (run : RetryRun T),
  (0 <= attempt)%Z ->
  (attempt <= Z.max 0 (maxRetries + 1))%Z ->
  calls = Z.to_nat attempt ->
  delays = map (fun k => initialDelay * 2 ^ k)%Z
               (seqZ 0 (Z.min attempt maxRetries)) ->
  retry_loop fuel fn maxRetries initialDelay attempt lastError calls delays lg
  = Some run ->
  (retry_calls run <= Z.to_nat (maxRetries + 1))%nat
  /\ retry_delays run
     = map (fun k => initialDelay * 2 ^ k)%Z
           (seqZ 0 (Z.of_nat (retry_calls run - 1))).
Proof.
  induction fuel as [|fuel IH];
    intros attempt lastError calls delays lg run H0 Hmax Hcalls Hdelays Hrun;
    [discriminate Hrun |].
  cbn [retry_loop] in Hrun.
  destruct (Z.leb_spec attempt maxRetries) as [Hle | Hgt].
  - assert (Hmin : Z.min attempt maxRetries = attempt) by lia.
    assert (Hhere : Z.of_nat (S calls - 1) = attempt) by lia.
    destruct (fn calls) as [v | error].
    + injection Hrun as <-. cbn [retry_calls retry_delays].
      rewrite Hhere, Hdelays, Hmin. split; [lia | reflexivity].
    + destruct (not_retried error).
      * injection Hrun as <-. cbn [retry_calls retry_delays].
        rewrite Hhere, Hdelays, Hmin. split; [lia | reflexivity].
      * destruct (Z.ltb_spec attempt maxRetries) as [Hlt | Hge].
        -- refine (IH (attempt + 1)%Z _ (S calls) _ _ run _ _ _ _ Hrun);
             [lia | lia | lia |].
           rewrite Hdelays, Hmin.
           replace (Z.min (attempt + 1) maxRetries) with (attempt + 1)%Z by lia.
           rewrite (seqZ_app 0 attempt 1) by lia.
           rewrite map_app. reflexivity.
        -- refine (IH (attempt + 1)%Z _ (S calls) _ _ run _ _ _ _ Hrun);
             [lia | lia | lia |].
           rewrite Hdelays. f_equal. f_equal. lia.
  - injection Hrun as <-. cbn [retry_calls retry_delays].
    split; [lia |]. rewrite Hdelays.
    destruct (Z.le_gt_cases 0 maxRetries) as [Hpos | Hneg].
    + do 2 f_equal. lia.
    + rewrite !seqZ_nil by lia. reflexivity.
Qed.

End RetryMore.

(** X2. When the first [k] calls fail with retried errors and call number
    [k] succeeds, with [k <= maxRetries], [retryWithBackoff] returns that
    result after exactly [k + 1] calls and the [k] sleeps
    [initialDelay * 2 ^ j], [j < k]. *)
Theorem retry_returns_first_success {T : Type} (fn : nat -> result T)
    (maxRetries initialDelay : Z) (k : nat) (v : T) :
  (Z.of_nat k <= maxRetries)%Z ->
  (forall j, (j < k)%nat -> exists e, fn j = Err e /\ not_retried e = false) ->
  fn k = Ok v ->
  let run := retryWithBackoff fn maxRetries initialDelay in
  retry_result run = Ok v
  /\ retry_calls run = S k
  /\ retry_delays run
     = map (fun j => initialDelay * 2 ^ j)%Z (seqZ 0 (Z.of_nat k)).
Proof.
  intros Hk Hfail Hok run.
  destruct (retry_loop_first_success fn maxRetries initialDelay k v
              (retry_fuel maxRetries) 0%Z None O [] [])
    as (run' & Hrun & Hres & Hcalls & Hdelays);
    [lia | unfold retry_fuel; lia | exact Hfail | exact Hok |].
  apply retryWithBackoff_eq in Hrun. subst run. rewrite Hrun. auto.
Qed.

(** an operation that is unavailable twice and then answers *)
Lemma retry_returns_first_success_witness :
  let fn := fun k : nat =>
              if (k <? 2)%nat then Err (PlainError "unavailable") else Ok k in
  (Z.of_nat 2 <= 3)%Z
  /\ (forall j, (j < 2)%nat -> exists e, fn j = Err e /\ not_retried e = false)
  /\ fn 2%nat = Ok 2%nat
  /\ retry_result (retryWithBackoff fn 3 1000) = Ok 2%nat
  /\ retry_calls (retryWithBackoff fn 3 1000) = 3%nat
  /\ retry_delays (retryWithBackoff fn 3 1000) = [1000; 2000]%Z.
Proof.
  intros fn.
  assert (Hk : (Z.of_nat 2 <= 3)%Z) by lia.
  assert (Hfail : forall j, (j < 2)%nat ->
                    exists e, fn j = Err e /\ not_retried e = false).
  { intros j Hj. exists (PlainError "unavailable").
    destruct j as [|[|j]]; [split; reflexivity | split; reflexivity | lia]. }
  split; [exact Hk |]. split; [exact Hfail |]. split; [reflexivity |].
  exact (retry_returns_first_success fn 3 1000 2 2%nat Hk Hfail eq_refl).
Defined.

(** X3. Whatever the operation does, [retryWithBackoff] calls it at most
    [maxRetries + 1] times, and sleeps exactly once between two consecutive
    calls (never after the last one), for [initialDelay * 2 ^ j] before
    call number [j + 1]. *)
Theorem retry_calls_and_sleeps {T : Type} (fn : nat -> result T)
    (maxRetries initialDelay : Z) :
  let run := retryWithBackoff fn maxRetries initialDelay in
  (retry_calls run <= Z.to_nat (maxRetries + 1))%nat
  /\ retry_delays run
     = map (fun j => initialDelay * 2 ^ j)%Z
           (seqZ 0 (Z.of_nat (retry_calls run - 1))).
Proof.
  intros run.
  destruct (retryWithBackoff_from_total fn maxRetries initialDelay)
    as [run' Hrun].
  pose proof (retryWithBackoff_eq fn maxRetries initialDelay run' Hrun) as Heq.
  subst run. rewrite Heq.
  unfold retryWithBackoff_from in Hrun.
  refine (retry_loop_shape fn maxRetries initialDelay _ 0%Z _ O _ _ run'
            _ _ _ _ Hrun); [lia | lia | reflexivity |].
  destruct (Z.min_spec 0 maxRetries) as [[_ ->] | [Hle ->]]; [reflexivity |].
  rewrite seqZ_nil by lia. reflexivity.
Qed.

(** X4. With a negative [maxRetries] the operation is never called, and the
    error thrown is "Unknown error". *)
Theorem retry_negative_never_calls {T : Type} (fn : nat -> result T)
    (maxRetries initialDelay : Z) :
  (maxRetries < 0)%Z ->
  let run := retryWithBackoff fn maxRetries initialDelay in
  retry_calls run = O
  /\ retry_delays run = []
  /\ retry_result run = Err (PlainError "Unknown error").
Proof.
  intros Hneg run. subst run.
  unfold retryWithBackoff, retryWithBackoff_from, retry_fuel.
  cbn [retry_loop].
  destruct (Z.leb_spec 0 maxRetries) as [Hle | _]; [lia |].
  cbn. auto.
Qed.

Lemma retry_negative_never_calls_witness :
  (-1 < 0)%Z
  /\ retry_calls (retryWithBackoff (fun _ => Ok tt) (-1) 1000) = O
  /\ retry_delays (retryWithBackoff (fun _ => Ok tt) (-1) 1000) = []
  /\ retry_result (retryWithBackoff (fun _ => Ok tt) (-1) 1000)
     = Err (PlainError "Unknown error").
Proof.
  assert (H : (-1 < 0)%Z) by lia.
  split; [exact H |].
  exact (retry_negative_never_calls (fun _ => Ok tt) (-1) 1000 H).
Defined.

(** ** More on delete_image *)

Lemma extract_id_uri (id : string) : extract_id (image_uri id) = id.
Proof.
  unfold extract_id, image_uri, Str.startsWith.
  rewrite prefix_refl_app. reflexivity.
Qed.

Lemma extract_id_plain (id : string) :
  Str.startsWith id uri_prefix = false -> extract_id id = id.
Proof. unfold extract_id. intros ->. reflexivity. Qed.

(** X5. [delete_image] takes the URI of an image as well as its id: for an
    id that does not itself begin with "img://image/", both calls do the
    same. *)
Theorem delete_by_uri_or_id (env : Env) (id : string) (s : State) :
  Str.startsWith id uri_prefix = false ->
  deleteImage env (image_uri id) s = deleteImage env id s.
Proof.
  intros Hplain. unfold deleteImage.
  rewrite extract_id_uri, (extract_id_plain id Hplain). reflexivity.
Qed.

Lemma delete_by_uri_or_id_witness :
  Str.startsWith sample_id uri_prefix = false
  /\ deleteImage env0 (image_uri sample_id) running
     = deleteImage env0 sample_id running.
Proof.
  assert (H : Str.startsWith sample_id uri_prefix = false) by reflexivity.
  split; [exact H |].
  exact (delete_by_uri_or_id env0 sample_id running H).
Defined.

(** X6. [delete_image] of a record touches nothing else: the other records
    stay in the index as they were, every file other than the image file
    and the metadata file stays as it was, and when the removal of the
    image file succeeds the file is gone. *)
Theorem delete_image_frame (env : Env) (imageId : string) (s : State)
    (meta : ImageMetadata.t) :
  let id := extract_id imageId in
  let image := ImageMetadata.filePath meta in
  let s' := snd (deleteImage env imageId s) in
  JsMap.get (imageMetadata (this s)) id = Some meta ->
  (forall k, k <> id ->
     JsMap.get (imageMetadata (this s')) k
     = JsMap.get (imageMetadata (this s)) k)
  /\ (forall q, q <> image -> q <> metadataPath env (this s) ->
        files (disk (world s')) !! q = files (disk (world s)) !! q)
  /\ (is_ok (unlink (disk (world s)) image) = true ->
      image <> metadataPath env (this s) ->
      files (disk (world s')) !! image = None).
Proof.
  intros id image s' Hget. subst s'.
  rewrite (deleteImage_found env imageId s meta Hget). cbn zeta.
  fold id image.
  set (w1 := after_unlink (world s) image).
  assert (Hgone : is_ok (unlink (disk (world s)) image) = true ->
                  files (disk w1) !! image = None).
  { unfold w1, after_unlink, unlink.
    destruct (denied (disk (world s)) OpUnlink image); [discriminate |].
    destruct (files (disk (world s)) !! image); [| discriminate].
    intros _. cbn. apply lookup_delete_eq. }
  destruct (denied (disk w1) OpWrite (metadataPath env (this s)))
    as [msg |] eqn:Hd.
  - rewrite (writeFile_denied env (disk w1) _ msg) by exact Hd.
    cbn [snd this world imageMetadata with_imageMetadata].
    split; [intros k Hk; apply get_delete_ne; congruence |].
    split; [intros q Hq _; apply after_unlink_other; exact Hq |].
    intros Hok _. apply Hgone, Hok.
  - destruct (writeFile_allowed env (disk w1) (metadataPath env (this s))
                (MetadataJson (JsMap.values
                   (JsMap.delete (imageMetadata (this s)) id))) None Hd)
      as (d' & Hw & _ & Hother & _).
    rewrite Hw. cbn [snd this world disk imageMetadata with_imageMetadata].
    split; [intros k Hk; apply get_delete_ne; congruence |].
    split.
    + intros q Hq Hq'. rewrite (Hother q Hq').
      apply after_unlink_other. exact Hq.
    + intros Hok Hne. rewrite (Hother image Hne). apply Hgone, Hok.
Qed.

Lemma delete_image_frame_witness :
  JsMap.get (imageMetadata (this running)) (extract_id sample_id)
  = Some sample_record
  /\ (forall k, k <> extract_id sample_id ->
        JsMap.get (imageMetadata (this (snd (deleteImage env0 sample_id running)))) k
        = JsMap.get (imageMetadata (this running)) k)
  /\ (forall q, q <> ImageMetadata.filePath sample_record ->
        q <> metadataPath env0 (this running) ->
        files (disk (world (snd (deleteImage env0 sample_id running)))) !! q
        = files (disk (world running)) !! q)
  /\ (is_ok (unlink (disk (world running))
               (ImageMetadata.filePath sample_record)) = true ->
      ImageMetadata.filePath sample_record <> metadataPath env0 (this running) ->
      files (disk (world (snd (deleteImage env0 sample_id running))))
        !! ImageMetadata.filePath sample_record = None).
Proof.
  assert (H : JsMap.get (imageMetadata (this running)) (extract_id sample_id)
              = Some sample_record) by reflexivity.
  split; [exact H |].
  exact (delete_image_frame env0 sample_id running sample_record H).
Defined.

(** ** More on generate_image *)

(** The white space of [trim()] is that of Unicode, and the length of a
    prompt is counted in UTF-16 code units. *)
Example blank_unicode_space :
  blank (no_break_space +:+ " " +:+ no_break_space) = true
  /\ blank e_acute = false.
Proof. split; reflexivity. Qed.

Example length_in_code_units :
  Str.length (e_acute +:+ "t" +:+ e_acute) = 3%nat
  /\ String.length (e_acute +:+ "t" +:+ e_acute) = 5%nat.
Proof. split; reflexivity. Qed.

(** X7. [generate_image] checks its input before anything else: without a
    configuration, with a blank prompt or with a prompt over the limit it
    throws at once, and the state (index, disk, log, sleeps) is as it
    was. *)
Theorem generateImage_rejects_early (Buffer_from_base64 : string -> string)
    (env : Env) (up : Upstream) (amb : Ambient) (args : GenerateArgs)
    (s : State) :
  let run := generateImage Buffer_from_base64 env up amb args s in
  let limit := prompt_limit (this s) in
  (ensureConfigured (this s) = false -> run = (Err not_configured_error, s))
  /\ (ensureConfigured (this s) = true ->
      blank (arg_prompt args) = true ->
      run = (Err (McpError InvalidParams "Prompt cannot be empty"), s))
  /\ (ensureConfigured (this s) = true ->
      blank (arg_prompt args) = false ->
      (limit < Z.of_nat (Str.length (arg_prompt args)))%Z ->
      run = (Err (McpError InvalidParams
                    ("Prompt too long. Maximum length: " +:+ show_Z limit)), s)).
Proof.
  intros run limit. subst run limit. unfold generateImage, bind, get_this.
  split; [| split].
  - intros ->. reflexivity.
  - intros -> ->. reflexivity.
  - intros -> -> Hlong. apply Z.ltb_lt in Hlong. rewrite Hlong. reflexivity.
Qed.

Lemma generateImage_rejects_early_witness :
  generateImage sample_decoder env0 sample_upstream sample_ambient
    sample_generate state0 = (Err not_configured_error, state0)
  /\ generateImage sample_decoder env0 sample_upstream sample_ambient
       {| arg_prompt := " " +:+ no_break_space; arg_model := None;
          arg_format := None |}
       running
     = (Err (McpError InvalidParams "Prompt cannot be empty"), running).
Proof.
  split.
  - apply (proj1 (generateImage_rejects_early sample_decoder env0
                    sample_upstream sample_ambient sample_generate state0)).
    reflexivity.
  - apply (proj1 (proj2 (generateImage_rejects_early sample_decoder env0
                           sample_upstream sample_ambient
                           {| arg_prompt := " " +:+ no_break_space;
                              arg_model := None; arg_format := None |}
                           running)));
      reflexivity.
Defined.

Lemma call_upstream_run (up : Upstream)
    (prompt selectedModel selectedFormat : string) (s : State) :
  exists lg,
    call_upstream up prompt selectedModel selectedFormat s
    = (upstream_outcome up prompt selectedModel selectedFormat,
       {| this := this s;
          world := {| disk := disk (world s); stderr := lg;
                      slept := slept (world s)
                               ++ upstream_delays up prompt selectedModel
                                    selectedFormat |} |}).
Proof.
  unfold call_upstream, upstream_outcome, upstream_delays.
  destruct (isImagenModel selectedModel && has_generateImages up);
    unfold bind, Logger_log, await_retry, ret; cbn [this world disk stderr slept];
    match goal with
    | |- context [retry_result ?r] => destruct (retry_result r)
    end; eexists; reflexivity.
Qed.

Section GenerationMore.

Variable Buffer_from_base64 : string -> string.
Variable env : Env.

(** [generate_image] once its input is accepted and the directory is there:
    the state in which the response is handled has the server object and
    the files of the start, and the result is that of the storing block,
    with its error wrapped. *)
Lemma generateImage_after_upstream (up : Upstream) (amb : Ambient)
    (args : GenerateArgs) (s : State) :
  let t := this s in
  let prompt := arg_prompt args in
  let selectedModel := selected_model t args in
  let selectedFormat := selected_format t args in
  ensureConfigured t = true ->
  blank prompt = false ->
  (prompt_limit t <? Z.of_nat (Str.length prompt))%Z = false ->
  denied (disk (world s)) OpMkdir (getImagesDirectory env t) = None ->
  exists s2,
    this s2 = t
    /\ files (disk (world s2)) = files (disk (world s))
    /\ denied (disk (world s2)) = denied (disk (world s))
    /\ slept (world s2)
       = slept (world s)
         ++ upstream_delays up prompt selectedModel selectedFormat
    /\ generateImage Buffer_from_base64 env up amb args s
       = match upstream_outcome up prompt selectedModel selectedFormat with
         | Err e =>
             (Err (McpError InternalError
                     ("Failed to generate image: " +:+ error_text e)),
              {| this := this s2;
                 world :=
                   {| disk := disk (world s2);
                      stderr := stderr (world s2)
                                ++ [{| level := ERROR;
                                       message := "Failed to generate image" |}];
                      slept := slept (world s2) |} |})
         | Ok ex =>
             match store_generated Buffer_from_base64 env amb prompt
                     selectedModel selectedFormat ex s2 with
             | (Ok saved, s3) =>
                 (Ok {| content :=
                          TextContent (generated_status (this s3) prompt
                                         selectedModel selectedFormat ex
                                         (fst saved))
                          :: snd saved |}, s3)
             | (Err e, s3) =>
                 (Err (McpError InternalError
                         ("Failed to generate image: " +:+ error_text e)),
                  {| this := this s3;
                     world :=
                       {| disk := disk (world s3);
                          stderr := stderr (world s3)
                                    ++ [{| level := ERROR;
                                           message := "Failed to generate image" |}];
                          slept := slept (world s3) |} |})
             end
         end.
Proof.
  intros t prompt selectedModel selectedFormat Hconf Hblank Hlen Hmk.
  unfold generateImage. unfold bind at 1, get_this. fold t.
  rewrite Hconf. cbn [negb]. fold prompt. rewrite Hblank, Hlen.
  fold selectedModel selectedFormat.
  unfold bind at 1, Logger_log at 1. unfold try_catch, generate_body.
  unfold bind at 1, get_this. cbn [this world disk stderr slept]. fold t.
  unfold bind at 1, on_disk at 1, mkdir. cbn [this world disk stderr slept].
  rewrite Hmk.
  set (s1 := {| this := t; world := _ |}).
  destruct (call_upstream_run up prompt selectedModel selectedFormat s1)
    as (lg & Hcall).
  exists {| this := this s1;
            world := {| disk := disk (world s1); stderr := lg;
                        slept := slept (world s1)
                                 ++ upstream_delays up prompt selectedModel
                                      selectedFormat |} |}.
  split; [reflexivity |]. split; [reflexivity |]. split; [reflexivity |].
  split; [reflexivity |].
  unfold bind at 1. rewrite Hcall.
  destruct (upstream_outcome up prompt selectedModel selectedFormat)
    as [ex | e].
  - unfold bind at 1.
    match goal with
    | |- context [store_generated ?a ?b ?c ?d ?e ?f ?g ?st] =>
        destruct (store_generated a b c d e f g st) as [[saved | err] s3]
    end.
    + unfold bind, get_this, ret. reflexivity.
    + unfold bind, Logger_log, throw. reflexivity.
  - unfold bind, Logger_log, throw. reflexivity.
Qed.


(** the storing block when the response has no image *)
Lemma store_generated_nothing (amb : Ambient)
    (prompt selectedModel selectedFormat : string) (ex : Extracted)
    (s : State) :
  truthy (imageData ex) = None ->
  store_generated Buffer_from_base64 env amb prompt selectedModel
    selectedFormat ex s = (Ok ([], []), s).
Proof. unfold store_generated. intros ->. reflexivity. Qed.

End GenerationMore.



(** X9. Whatever happens, an error that leaves [generate_image] is an
    [McpError]: the configuration error or an [InvalidParams] of the input
    checks, with the state untouched, or else an [InternalError] whose
    message is "Failed to generate image: " followed by the message of the
    cause. *)
Theorem generateImage_error_kinds (Buffer_from_base64 : string -> string)
    (env : Env) (up : Upstream) (amb : Ambient) (args : GenerateArgs)
    (s s' : State) (e : JsError) :
  generateImage Buffer_from_base64 env up amb args s = (Err e, s') ->
  (e = not_configured_error /\ s' = s)
  \/ (exists msg, e = McpError InvalidParams msg /\ s' = s)
  \/ (exists cause,
        e = McpError InternalError
              ("Failed to generate image: " +:+ error_text cause)).
Proof.
  unfold generateImage. unfold bind at 1, get_this.
  destruct (ensureConfigured (this s)); cbn [negb];
    [| intros H; injection H as <- <-; left; auto].
  destruct (blank (arg_prompt args));
    [intros H; injection H as <- <-; right; left; eauto |].
  destruct (_ <? _)%Z;
    [intros H; injection H as <- <-; right; left; eauto |].
  unfold bind at 1, Logger_log at 1, try_catch.
  match goal with
  | |- context [generate_body ?a ?b ?c ?d ?p ?m ?f ?st] =>
      destruct (generate_body a b c d p m f st) as [[r | cause] s1]
  end; [discriminate |].
  unfold bind, Logger_log, throw. intros H. injection H as <- _.
  right. right. exists cause. reflexivity.
Qed.

Lemma generateImage_error_kinds_witness :
  let run := generateImage sample_decoder env0 sample_upstream sample_ambient
               sample_generate running_locked in
  let e := McpError InternalError
             ("Failed to generate image: " +:+ locked_message) in
  run = (Err e, snd run)
  /\ ((e = not_configured_error /\ snd run = running_locked)
      \/ (exists msg, e = McpError InvalidParams msg /\ snd run = running_locked)
      \/ (exists cause,
            e = McpError InternalError
                  ("Failed to generate image: " +:+ error_text cause))).
Proof.
  intros run e.
  assert (H : run = (Err e, snd run)) by reflexivity.
  split; [exact H |].
  exact (generateImage_error_kinds sample_decoder env0 sample_upstream
           sample_ambient sample_generate running_locked (snd run) e H).
Defined.

Lemma error_text_as_Error (e : JsError) :
  error_text (as_Error e) = error_text e.
Proof. destruct e; reflexivity. Qed.

(** the default arguments, for an operation that always fails with a
    retried error *)
Lemma retry_default_gives_up {T : Type} (fn : nat -> result T) :
  (forall k, exists e, fn k = Err e /\ not_retried e = false) ->
  let run := retryWithBackoff fn default_maxRetries default_initialDelay in
  retry_calls run = Z.to_nat (default_maxRetries + 1)
  /\ retry_delays run
     = map (fun k => default_initialDelay * 2 ^ k)%Z (seqZ 0 default_maxRetries)
  /\ retry_result run
     = Err (as_Error (error_at fn (Z.to_nat default_maxRetries))).
Proof.
  intros Hfail run.
  destruct (retry_loop_always_fails fn default_maxRetries default_initialDelay
              Hfail (Z.to_nat (default_maxRetries + 1))
              (retry_fuel default_maxRetries) 0%Z None O [] [])
    as (run' & Hrun & Hcalls & Hdelays & Hres);
    [reflexivity | unfold retry_fuel, default_maxRetries; lia |].
  apply retryWithBackoff_eq in Hrun. subst run. rewrite Hrun.
  split; [exact Hcalls |]. split; [exact Hdelays | exact Hres].
Qed.

(** X10. When the upstream never answers (every call of [generateContent]
    fails with a retried error), [generate_image] calls it four times,
    sleeps 1000, 2000 and 4000 ms, and throws an [InternalError] with the
    message of the last failure; the server object and the files are as
    before. *)
Theorem generateImage_gives_up (Buffer_from_base64 : string -> string)
    (env : Env) (up : Upstream) (amb : Ambient) (args : GenerateArgs)
    (s : State) :
  let t := this s in
  let prompt := arg_prompt args in
  let selectedModel := selected_model t args in
  let selectedFormat := selected_format t args in
  let call := generateContent up (text_request prompt selectedModel) in
  ensureConfigured t = true ->
  blank prompt = false ->
  (prompt_limit t <? Z.of_nat (Str.length prompt))%Z = false ->
  denied (disk (world s)) OpMkdir (getImagesDirectory env t) = None ->
  isImagenModel selectedModel && has_generateImages up = false ->
  (forall k, exists e, call k = Err e /\ not_retried e = false) ->
  exists s',
    generateImage Buffer_from_base64 env up amb args s
    = (Err (McpError InternalError
              ("Failed to generate image: "
               +:+ error_text (error_at call 3))), s')
    /\ retry_calls (retryWithBackoff call default_maxRetries
                      default_initialDelay) = 4%nat
    /\ slept (world s') = slept (world s) ++ [1000; 2000; 4000]%Z
    /\ this s' = t
    /\ files (disk (world s')) = files (disk (world s)).
Proof.
  intros t prompt selectedModel selectedFormat call
    Hconf Hblank Hlen Hmk Hgemini Hfail.
  destruct (retry_default_gives_up call Hfail) as (Hcalls & Hdelays & Hres).
  destruct (generateImage_after_upstream Buffer_from_base64 env up amb args s
              Hconf Hblank Hlen Hmk)
    as (s2 & Hthis & Hfiles & _ & Hslept & Hrun).
  fold t prompt selectedModel selectedFormat in Hrun, Hslept.
  unfold upstream_outcome in Hrun. unfold upstream_delays in Hslept.
  rewrite Hgemini in Hrun, Hslept. fold call in Hrun, Hslept.
  rewrite Hres, error_text_as_Error in Hrun. rewrite Hdelays in Hslept.
  eexists. split; [exact Hrun |].
  cbn [this world disk stderr slept].
  split; [exact Hcalls |]. split; [exact Hslept |].
  split; [exact Hthis | exact Hfiles].
Qed.

Lemma generateImage_gives_up_witness :
  let call := generateContent unavailable_upstream
                (text_request "red circle" default_model) in
  (forall k, exists e, call k = Err e /\ not_retried e = false)
  /\ exists s',
       generateImage sample_decoder env0 unavailable_upstream sample_ambient
         sample_generate running
       = (Err (McpError InternalError
                 ("Failed to generate image: "
                  +:+ error_text (error_at call 3))), s')
       /\ retry_calls (retryWithBackoff call default_maxRetries
                         default_initialDelay) = 4%nat
       /\ slept (world s') = slept (world running) ++ [1000; 2000; 4000]%Z
       /\ this s' = this running
       /\ files (disk (world s')) = files (disk (world running)).
Proof.
  intros call.
  assert (Hfail : forall k, exists e, call k = Err e /\ not_retried e = false).
  { intros k. exists (PlainError "503 Service Unavailable").
    split; reflexivity. }
  split; [exact Hfail |].
  apply (generateImage_gives_up sample_decoder env0 unavailable_upstream
           sample_ambient sample_generate running);
    try reflexivity.
  exact Hfail.
Defined.

(** X11. When the upstream answers without an image (text only),
    [generate_image] succeeds with the note that no image was generated;
    no record is added, no file is written and the last image path is as
    before. *)
Theorem generateImage_without_image (Buffer_from_base64 : string -> string)
    (env : Env) (up : Upstream) (amb : Ambient) (args : GenerateArgs)
    (s : State) (ex : Extracted) :
  let t := this s in
  let prompt := arg_prompt args in
  let selectedModel := selected_model t args in
  let selectedFormat := selected_format t args in
  ensureConfigured t = true ->
  blank prompt = false ->
  (prompt_limit t <? Z.of_nat (Str.length prompt))%Z = false ->
  denied (disk (world s)) OpMkdir (getImagesDirectory env t) = None ->
  upstream_outcome up prompt selectedModel selectedFormat = Ok ex ->
  truthy (imageData ex) = None ->
  exists s',
    generateImage Buffer_from_base64 env up amb args s
    = (Ok (text_result (nothing_generated prompt selectedModel selectedFormat
                          (textContent ex))), s')
    /\ this s' = t
    /\ files (disk (world s')) = files (disk (world s)).
Proof.
  intros t prompt selectedModel selectedFormat Hconf Hblank Hlen Hmk Hup Hnone.
  destruct (generateImage_after_upstream Buffer_from_base64 env up amb args s
              Hconf Hblank Hlen Hmk)
    as (s2 & Hthis & Hfiles & _ & _ & Hrun).
  fold t prompt selectedModel selectedFormat in Hrun.
  rewrite Hup, (store_generated_nothing Buffer_from_base64 env amb prompt
                  selectedModel selectedFormat ex s2 Hnone) in Hrun.
  exists s2. split; [exact Hrun |]. split; [exact Hthis | exact Hfiles].
Qed.

Lemma generateImage_without_image_witness :
  exists s',
    generateImage sample_decoder env0 text_upstream sample_ambient
      sample_generate running
    = (Ok (text_result (nothing_generated "red circle" default_model "png"
                          "I cannot draw that.")), s')
    /\ this s' = this running
    /\ files (disk (world s')) = files (disk (world running)).
Proof.
  apply (generateImage_without_image sample_decoder env0 text_upstream
           sample_ambient sample_generate running
           (extract_content "png" text_only));
    reflexivity.
Defined.

(** ** More on edit_image *)

Section EditingMore.

Variable Buffer_from_base64 : string -> string.
Variable env : Env.

(** parts that store nothing change the text only *)
Lemma edit_parts_store_nothing (amb : nat -> Ambient) (prompt selectedModel
    selectedFormat : string) (refs : list string)
    (parent : option ImageMetadata.t) (parts : list Part) :
  Forall stores_nothing parts ->
  forall (k : nat) (acc : EditAcc) (s : State),
  exists acc',
    edit_parts Buffer_from_base64 env amb k prompt selectedModel
      selectedFormat refs parent parts acc s = (Ok acc', s)
    /\ acc_saved acc' = acc_saved acc
    /\ acc_content acc' = acc_content acc.
Proof.
  induction 1 as [|p parts Hp Hparts IH]; intros k acc s; cbn [edit_parts].
  - exists acc. auto.
  - unfold bind at 1.
    assert (Hone : exists acc1,
              edit_part Buffer_from_base64 env (amb k) prompt selectedModel
                selectedFormat refs parent acc p s = (Ok acc1, s)
              /\ acc_saved acc1 = acc_saved acc
              /\ acc_content acc1 = acc_content acc).
    { unfold stores_nothing in Hp. unfold edit_part, store_edited.
      destruct (part_inlineData p) as [i |].
      - rewrite Hp. eexists. split; [reflexivity |]. auto.
      - eexists. split; [reflexivity |]. auto. }
    destruct Hone as (acc1 & Hone & Hsaved1 & Hcontent1). rewrite Hone.
    destruct (IH (S k) acc1 s) as (acc' & Hrest & Hsaved & Hcontent).
    exists acc'. rewrite Hrest, Hsaved, Hcontent. auto.
Qed.

Lemma edit_parts_app_nothing (amb : nat -> Ambient) (prompt selectedModel
    selectedFormat : string) (refs : list string)
    (parent : option ImageMetadata.t) (pre rest : list Part) :
  Forall stores_nothing pre ->
  forall (k : nat) (acc : EditAcc) (s : State),
  exists acc',
    edit_parts Buffer_from_base64 env amb k prompt selectedModel
      selectedFormat refs parent (pre ++ rest) acc s
    = edit_parts Buffer_from_base64 env amb (k + length pre) prompt
        selectedModel selectedFormat refs parent rest acc' s
    /\ acc_saved acc' = acc_saved acc
    /\ acc_content acc' = acc_content acc.
Proof.
  induction 1 as [|p pre Hp Hpre IH]; intros k acc s.
  - exists acc. cbn [app length]. rewrite Nat.add_0_r. auto.
  - cbn [app edit_parts length]. unfold bind at 1.
    assert (Hone : exists acc1,
              edit_part Buffer_from_base64 env (amb k) prompt selectedModel
                selectedFormat refs parent acc p s = (Ok acc1, s)
              /\ acc_saved acc1 = acc_saved acc
              /\ acc_content acc1 = acc_content acc).
    { unfold stores_nothing in Hp. unfold edit_part, store_edited.
      destruct (part_inlineData p) as [i |].
      - rewrite Hp. eexists. split; [reflexivity |]. auto.
      - eexists. split; [reflexivity |]. auto. }
    destruct Hone as (acc1 & Hone & Hsaved1 & Hcontent1). rewrite Hone.
    destruct (IH (S k) acc1 s) as (acc' & Hrest & Hsaved & Hcontent).
    exists acc'. rewrite Hrest, Hsaved, Hcontent.
    split; [f_equal; lia | auto].
Qed.

(** the block that stores an edited image, when both writes are allowed *)
Lemma store_edited_success (amb : Ambient)
    (prompt selectedModel selectedFormat : string) (refs : list string)
    (parent : option ImageMetadata.t) (i : InlineData) (acc : EditAcc)
    (s : State) (b64 : string) :
  let t := this s in
  let path := edited_path env t amb selectedFormat in
  let record := edited_record amb path prompt selectedModel selectedFormat
                  (Buffer_from_base64 b64) refs parent in
  let index := JsMap.set (imageMetadata t) (fresh_id amb) record in
  truthy (inline_data i) = Some b64 ->
  denied (disk (world s)) OpWrite path = None ->
  denied (disk (world s)) OpWrite (metadataPath env t) = None ->
  exists s',
    store_edited Buffer_from_base64 env amb prompt selectedModel
      selectedFormat refs parent i acc s
    = (Ok {| acc_text := acc_text acc;
             acc_saved := acc_saved acc ++ [path];
             acc_content :=
               acc_content acc
               ++ [ImageContent b64
                     (default ("image/" +:+ selectedFormat)
                        (truthy (inline_mimeType i)))] |}, s')
    /\ imageMetadata (this s') = index
    /\ lastImagePath (this s') = Some path
    /\ config (this s') = config t
    /\ file_data (disk (world s')) (metadataPath env t)
       = Some (MetadataJson (JsMap.values index))
    /\ (path <> metadataPath env t ->
        file_data (disk (world s')) path
        = Some (ImageBytes (Buffer_from_base64 b64)))
    /\ (forall q, q <> path -> q <> metadataPath env t ->
        files (disk (world s')) !! q = files (disk (world s)) !! q)
    /\ stderr (world s') = stderr (world s)
    /\ slept (world s') = slept (world s).
Proof.
  intros t path record index Hdata Hw Hm. subst t.
  unfold store_edited. rewrite Hdata.
  unfold bind at 1, get_this. fold path.
  destruct (writeFile_allowed env (disk (world s)) path
              (ImageBytes (Buffer_from_base64 b64)) None Hw)
    as (d1 & Hwrite & Hdata1 & Hother1 & _ & Hden1 & _).
  unfold bind at 1, on_disk at 1. rewrite Hwrite.
  unfold bind at 1, update_this at 1. cbn [this world disk stderr slept].
  unfold bind at 1, update_this at 1. cbn [this world disk stderr slept].
  unfold bind at 1. rewrite saveMetadata_unfold.
  cbn [this world disk stderr slept].
  rewrite metadataPath_with_imageMetadata.
  change (metadataPath env (with_lastImagePath path (this s)))
    with (metadataPath env (this s)).
  cbn [imageMetadata with_imageMetadata with_lastImagePath].
  fold record index.
  destruct (writeFile_allowed env d1 (metadataPath env (this s))
              (MetadataJson (JsMap.values index)) None)
    as (d2 & Hwrite2 & Hdata2 & Hother2 & _);
    [rewrite Hden1; exact Hm |].
  rewrite Hwrite2. unfold ret.
  eexists. split; [reflexivity |].
  cbn [this world disk stderr slept imageMetadata lastImagePath config
       with_imageMetadata with_lastImagePath].
  split; [reflexivity |]. split; [reflexivity |]. split; [reflexivity |].
  split; [exact Hdata2 |].
  split; [intros Hne; unfold file_data; rewrite (Hother2 path Hne);
          exact Hdata1 |].
  split; [| split; reflexivity].
  intros q Hq1 Hq2. rewrite (Hother2 q Hq2). apply Hother1, Hq1.
Qed.

(** [edit_image] once its checks have passed and the upstream has answered:
    the state in which the parts are handled has the configuration, the
    index, the last image path and the files of the start. *)
Lemma editImage_after_checks (up : Upstream) (amb : nat -> Ambient)
    (args : EditArgs) (s : State) (validatedImagePath : string)
    (imageBuffer : FileData) (response : ContentResponse) :
  let t := this s in
  let v := validator_of env t in
  let d := disk (world s) in
  let referenceImages := default [] (edit_referenceImages args) in
  let kept := kept_references env v d referenceImages in
  let validatedReferenceImages := map (fun r => fst (fst r)) kept in
  let selectedModel := edit_model t in
  let selectedFormat := edit_format t in
  ensureConfigured t = true ->
  validateAndSanitize env v (edit_imagePath args) = Ok validatedImagePath ->
  isImageFile validatedImagePath = true ->
  (reference_limit t <? Z.of_nat (length referenceImages))%Z = false ->
  access d validatedImagePath = Ok tt ->
  readFile d validatedImagePath = Ok imageBuffer ->
  retry_result
    (retryWithBackoff
       (generateContent up
          (edit_request selectedModel (edit_prompt args) imageBuffer
             (getMimeType validatedImagePath) kept))
       default_maxRetries default_initialDelay) = Ok response ->
  denied d OpMkdir (getImagesDirectory env t) = None ->
  exists s2,
    config (this s2) = config t
    /\ imageMetadata (this s2) = imageMetadata t
    /\ files (disk (world s2)) = files d
    /\ denied (disk (world s2)) = denied d
    /\ editImage Buffer_from_base64 env up amb args s
       = match edit_parts Buffer_from_base64 env amb O (edit_prompt args)
                 selectedModel selectedFormat validatedReferenceImages
                 (find_by_path (imageMetadata t) validatedImagePath)
                 (response_parts response)
                 {| acc_text := ""; acc_saved := []; acc_content := [] |} s2
         with
         | (Ok acc, s3) =>
             (Ok {| content :=
                      TextContent (edited_status (this s3) (edit_imagePath args)
                                     (edit_prompt args)
                                     validatedReferenceImages acc)
                      :: acc_content acc |}, s3)
         | (Err e, s3) =>
             (Err (McpError InternalError
                     ("Failed to edit image: " +:+ error_text e)),
              {| this := this s3;
                 world :=
                   {| disk := disk (world s3);
                      stderr := stderr (world s3)
                                ++ [{| level := ERROR;
                                       message := "Failed to edit image" |}];
                      slept := slept (world s3) |} |})
         end.
Proof.
  intros t v d referenceImages kept validatedReferenceImages selectedModel
    selectedFormat Hconf Hvalid Himage Hlimit Haccess Hread Hup Hmk.
  unfold editImage. unfold bind at 1, get_this. fold t.
  rewrite Hconf. cbn [negb].
  destruct (ensure_pathValidator_run env s) as (t1 & Hensure & Hconfig1 & Hindex1).
  unfold bind at 1. rewrite Hensure. fold t v.
  unfold bind at 1, lift_result at 1. rewrite Hvalid, Himage. cbn [negb].
  fold referenceImages. rewrite Hlimit.
  unfold bind at 1, try_catch at 1, from_disk at 1.
  cbn [this world]. fold d. rewrite Haccess.
  unfold bind at 1, from_disk at 1. cbn [this world]. fold d. rewrite Hread.
  set (s1 := {| this := t1; world := world s |}).
  destruct (add_references_kept env v referenceImages [] s1) as (lg & Hrefs).
  unfold bind at 1. rewrite Hrefs. subst s1.
  cbn [app this world disk stderr slept]. fold d kept.
  fold validatedReferenceImages selectedModel selectedFormat.
  unfold bind at 1, Logger_log at 1. cbn [this world disk stderr slept].
  unfold try_catch, edit_body.
  unfold bind at 1, await_retry at 1. rewrite Hup.
  cbn [this world disk stderr slept].
  unfold bind at 1, get_this. cbn [this world disk stderr slept].
  unfold bind at 1, on_disk at 1, mkdir. cbn [this world disk stderr slept].
  fold d. rewrite (getImagesDirectory_config env t1 t Hconfig1), Hmk.
  rewrite Hindex1. fold t.
  unfold bind at 1.
  match goal with
  | |- context [edit_parts _ _ _ _ _ _ _ _ _ _ _ ?st] => exists st
  end.
  cbn [this world disk files denied].
  split; [exact Hconfig1 |]. split; [exact Hindex1 |].
  split; [reflexivity |]. split; [reflexivity |].
  match goal with
  | |- context [edit_parts ?a ?b ?c ?k ?p ?m ?f ?r ?pa ?l ?ac ?st] =>
      destruct (edit_parts a b c k p m f r pa l ac st) as [[acc | err] s3]
  end.
  - unfold bind, get_this, ret. reflexivity.
  - unfold bind, Logger_log, throw. reflexivity.
Qed.

End EditingMore.

Lemma ensure_pathValidator_frame (env : Env) (s : State) :
  exists t',
    ensure_pathValidator env s
    = (Ok (validator_of env (this s)), {| this := t'; world := world s |})
    /\ config t' = config (this s)
    /\ imageMetadata t' = imageMetadata (this s)
    /\ lastImagePath t' = lastImagePath (this s)
    /\ genAI t' = genAI (this s)
    /\ configSource t' = configSource (this s).
Proof.
  unfold ensure_pathValidator, validator_of, bind, get_this.
  destruct (pathValidator (this s)) as [v |].
  - exists (this s). destruct s as [t w]. repeat split.
  - eexists. unfold update_this, ret. cbn [this world].
    repeat split.
Qed.

(** X12. [edit_image] checks its input before it reads or sends anything:
    a path that the validator refuses, a file of another format, too many
    reference images or a missing source file make it throw an
    [InvalidParams] error at once, and the disk, the log, the sleeps, the
    index and the last image path are as they were. *)
Theorem editImage_rejects_early (Buffer_from_base64 : string -> string)
    (env : Env) (up : Upstream) (amb : nat -> Ambient) (args : EditArgs)
    (s : State) :
  let t := this s in
  let v := validator_of env t in
  let imagePath := edit_imagePath args in
  let count := Z.of_nat (length (default [] (edit_referenceImages args))) in
  ensureConfigured t = true ->
  exists s',
    world s' = world s
    /\ imageMetadata (this s') = imageMetadata t
    /\ lastImagePath (this s') = lastImagePath t
    /\ config (this s') = config t
    /\ (forall e, validateAndSanitize env v imagePath = Err e ->
        editImage Buffer_from_base64 env up amb args s = (Err e, s'))
    /\ (forall p, validateAndSanitize env v imagePath = Ok p ->
        isImageFile p = false ->
        editImage Buffer_from_base64 env up amb args s
        = (Err (McpError InvalidParams
                  ("File is not a supported image format: " +:+ imagePath)),
           s'))
    /\ (forall p, validateAndSanitize env v imagePath = Ok p ->
        isImageFile p = true ->
        (reference_limit t < count)%Z ->
        editImage Buffer_from_base64 env up amb args s
        = (Err (McpError InvalidParams
                  ("Too many reference images. Maximum: "
                   +:+ show_Z (reference_limit t))), s'))
    /\ (forall p, validateAndSanitize env v imagePath = Ok p ->
        isImageFile p = true ->
        (count <= reference_limit t)%Z ->
        is_ok (access (disk (world s)) p) = false ->
        editImage Buffer_from_base64 env up amb args s
        = (Err (McpError InvalidParams
                  ("Image file not found: " +:+ imagePath)), s')).
Proof.
  intros t v imagePath count Hconf. subst t v imagePath count.
  destruct (ensure_pathValidator_frame env s)
    as (t1 & Hensure & Hconfig1 & Hindex1 & Hlast1 & _).
  exists {| this := t1; world := world s |}. cbn [this world].
  split; [reflexivity |]. split; [exact Hindex1 |]. split; [exact Hlast1 |].
  split; [exact Hconfig1 |].
  split; [| split; [| split]]; intros r Hr;
    unfold editImage; unfold bind at 1, get_this; rewrite Hconf;
    cbn [negb]; unfold bind at 1; rewrite Hensure;
    unfold bind at 1, lift_result at 1; rewrite Hr.
  - reflexivity.
  - intros Himg. rewrite Himg. reflexivity.
  - intros Himg Hmany. rewrite Himg. cbn [negb].
    apply Z.ltb_lt in Hmany. rewrite Hmany. reflexivity.
  - intros Himg Hfew Hmissing. rewrite Himg. cbn [negb].
    apply Z.ltb_ge in Hfew. rewrite Hfew.
    unfold bind at 1, try_catch at 1, from_disk at 1. cbn [this world].
    destruct (access (disk (world s)) r) as [[] | e0];
      [discriminate Hmissing |].
    reflexivity.
Qed.

Lemma editImage_rejects_early_witness :
  exists s' e,
    validateAndSanitize env0 (validator_of env0 configured) "/etc/passwd"
    = Err e
    /\ editImage sample_decoder env0 sample_upstream (fun _ => sample_ambient)
         {| edit_imagePath := "/etc/passwd"; edit_prompt := "make it blue";
            edit_referenceImages := None |} running
       = (Err e, s')
    /\ world s' = world running
    /\ imageMetadata (this s') = imageMetadata configured.
Proof.
  destruct (editImage_rejects_early sample_decoder env0 sample_upstream
              (fun _ => sample_ambient)
              {| edit_imagePath := "/etc/passwd"; edit_prompt := "make it blue";
                 edit_referenceImages := None |} running eq_refl)
    as (s' & Hworld & Hindex & _ & _ & Hrefused & _).
  exists s'. eexists. split; [reflexivity |].
  split; [apply Hrefused; reflexivity |].
  split; [exact Hworld | exact Hindex].
Defined.

Section EditingResults.

Variable Buffer_from_base64 : string -> string.
Variable env : Env.

(** a successful [edit_image], step by step *)
Lemma editImage_success_run (up : Upstream) (amb : nat -> Ambient)
    (args : EditArgs) (s : State) (validatedImagePath : string)
    (imageBuffer : FileData) (response : ContentResponse)
    (pre post : list Part) (part : Part) (i : InlineData) (b64 : string) :
  let t := this s in
  let v := validator_of env t in
  let d := disk (world s) in
  let referenceImages := default [] (edit_referenceImages args) in
  let kept := kept_references env v d referenceImages in
  let used := map (fun r => fst (fst r)) kept in
  let selectedModel := edit_model t in
  let selectedFormat := edit_format t in
  let moment := amb (length pre) in
  let path := edited_path env t moment selectedFormat in
  let parent := find_by_path (imageMetadata t) validatedImagePath in
  let record := edited_record moment path (edit_prompt args) selectedModel
                  selectedFormat (Buffer_from_base64 b64) used parent in
  let index := JsMap.set (imageMetadata t) (fresh_id moment) record in
  ensureConfigured t = true ->
  validateAndSanitize env v (edit_imagePath args) = Ok validatedImagePath ->
  isImageFile validatedImagePath = true ->
  (Z.of_nat (length referenceImages) <= reference_limit t)%Z ->
  access d validatedImagePath = Ok tt ->
  readFile d validatedImagePath = Ok imageBuffer ->
  retry_result
    (retryWithBackoff
       (generateContent up
          (edit_request selectedModel (edit_prompt args) imageBuffer
             (getMimeType validatedImagePath) kept))
       default_maxRetries default_initialDelay) = Ok response ->
  response_parts response = pre ++ part :: post ->
  Forall stores_nothing pre ->
  Forall stores_nothing post ->
  part_inlineData part = Some i ->
  truthy (inline_data i) = Some b64 ->
  denied d OpMkdir (getImagesDirectory env t) = None ->
  denied d OpWrite path = None ->
  denied d OpWrite (metadataPath env t) = None ->
  exists s' text,
    editImage Buffer_from_base64 env up amb args s
    = (Ok {| content :=
               [TextContent text;
                ImageContent b64
                  (default ("image/" +:+ selectedFormat)
                     (truthy (inline_mimeType i)))] |}, s')
    /\ imageMetadata (this s') = index
    /\ JsMap.get (imageMetadata (this s')) (fresh_id moment) = Some record
    /\ ImageMetadata.type record = edited
    /\ ImageMetadata.parentImageId record = ImageMetadata.id <$> parent
    /\ lastImagePath (this s') = Some path
    /\ config (this s') = config t
    /\ file_data (disk (world s')) (metadataPath env t)
       = Some (MetadataJson (JsMap.values index))
    /\ (path <> metadataPath env t ->
        file_data (disk (world s')) path
        = Some (ImageBytes (Buffer_from_base64 b64)))
    /\ (forall q, q <> path -> q <> metadataPath env t ->
        files (disk (world s')) !! q = files d !! q).
Proof.
  intros t v d referenceImages kept used selectedModel selectedFormat moment
    path parent record index Hconf Hvalid Himage Hlimit Haccess Hread Hup
    Hparts Hpre Hpost Hinline Hdata Hmk Hw Hm.
  apply Z.ltb_ge in Hlimit.
  destruct (editImage_after_checks Buffer_from_base64 env up amb args s
              validatedImagePath imageBuffer response Hconf Hvalid Himage
              Hlimit Haccess Hread Hup Hmk)
    as (s2 & Hconfig2 & Hindex2 & Hfiles2 & Hdenied2 & Hrun).
  fold t v d referenceImages kept used selectedModel selectedFormat parent
    in Hrun.
  rewrite Hparts in Hrun.
  destruct (edit_parts_app_nothing Buffer_from_base64 env amb
              (edit_prompt args) selectedModel selectedFormat used parent
              pre (part :: post) Hpre O
              {| acc_text := ""; acc_saved := []; acc_content := [] |} s2)
    as (acc1 & Hskip & Hsaved1 & Hcontent1).
  rewrite Hskip in Hrun. cbn [Nat.add edit_parts] in Hrun.
  unfold bind at 1 in Hrun. unfold edit_part at 1 in Hrun.
  rewrite Hinline in Hrun.
  assert (Hpath2 : edited_path env (this s2) moment selectedFormat = path).
  { unfold path, edited_path.
    rewrite (getImagesDirectory_config env (this s2) t Hconfig2).
    reflexivity. }
  assert (Hmeta2 : metadataPath env (this s2) = metadataPath env t).
  { unfold metadataPath.
    rewrite (getImagesDirectory_config env (this s2) t Hconfig2).
    reflexivity. }
  match type of Hrun with
  | context [store_edited _ _ _ _ _ _ _ _ _ ?a _] => set (acc2 := a) in Hrun
  end.
  destruct (store_edited_success Buffer_from_base64 env moment
              (edit_prompt args) selectedModel selectedFormat used parent i
              acc2 s2 b64 Hdata)
    as (s3 & Hstore & Hindex3 & Hlast3 & Hconfig3 & Hmetafile & Himagefile
        & Hothers & _ & _).
  { rewrite Hpath2, Hdenied2. exact Hw. }
  { rewrite Hmeta2, Hdenied2. exact Hm. }
  rewrite Hpath2, Hmeta2, Hindex2 in *. fold record index in Hindex3, Hmetafile.
  fold moment in Hrun. rewrite Hstore in Hrun.
  match type of Hrun with
  | context [edit_parts _ _ _ _ _ _ _ _ _ post ?a s3] =>
      destruct (edit_parts_store_nothing Buffer_from_base64 env amb
                  (edit_prompt args) selectedModel selectedFormat used parent
                  post Hpost (S (length pre)) a s3)
        as (acc3 & Hrest & Hsaved3 & Hcontent3)
  end.
  rewrite Hrest in Hrun. rewrite Hcontent3 in Hrun.
  cbn [acc_content] in Hrun. subst acc2. cbn [acc_content] in Hrun.
  rewrite Hcontent1 in Hrun. cbn [acc_content app] in Hrun.
  exists s3. eexists. split; [exact Hrun |].
  split; [exact Hindex3 |].
  split; [rewrite Hindex3; apply get_set_eq |].
  split; [reflexivity |]. split; [reflexivity |].
  split; [exact Hlast3 |].
  split; [rewrite Hconfig3; exact Hconfig2 |].
  split; [exact Hmetafile |]. split; [exact Himagefile |].
  intros q Hq1 Hq2. rewrite (Hothers q Hq1 Hq2). rewrite Hfiles2. reflexivity.
Qed.

(** X13. A successful [edit_image]: when the checks pass, the upstream
    answers and exactly one part of the answer carries image data, the
    result holds a status text and that image; the index gains a record of
    type edited under the new id, whose parent is the record stored for the
    source path (if there is one) and whose reference images are the ones
    kept; the last image path is the new file; the new file and the
    metadata file are written, and every other file, the source included,
    is as it was. *)
Theorem editImage_stores_record (up : Upstream) (amb : nat -> Ambient)
    (args : EditArgs) (s : State) (validatedImagePath : string)
    (imageBuffer : FileData) (response : ContentResponse)
    (pre post : list Part) (part : Part) (i : InlineData) (b64 : string) :
  let t := this s in
  let v := validator_of env t in
  let d := disk (world s) in
  let referenceImages := default [] (edit_referenceImages args) in
  let kept := kept_references env v d referenceImages in
  let used := map (fun r => fst (fst r)) kept in
  let selectedModel := edit_model t in
  let selectedFormat := edit_format t in
  let moment := amb (length pre) in
  let path := edited_path env t moment selectedFormat in
  let parent := find_by_path (imageMetadata t) validatedImagePath in
  let record := edited_record moment path (edit_prompt args) selectedModel
                  selectedFormat (Buffer_from_base64 b64) used parent in
  let index := JsMap.set (imageMetadata t) (fresh_id moment) record in
  ensureConfigured t = true ->
  validateAndSanitize env v (edit_imagePath args) = Ok validatedImagePath ->
  isImageFile validatedImagePath = true ->
  (Z.of_nat (length referenceImages) <= reference_limit t)%Z ->
  access d validatedImagePath = Ok tt ->
  readFile d validatedImagePath = Ok imageBuffer ->
  retry_result
    (retryWithBackoff
       (generateContent up
          (edit_request selectedModel (edit_prompt args) imageBuffer
             (getMimeType validatedImagePath) kept))
       default_maxRetries default_initialDelay) = Ok response ->
  response_parts response = pre ++ part :: post ->
  Forall stores_nothing pre ->
  Forall stores_nothing post ->
  part_inlineData part = Some i ->
  truthy (inline_data i) = Some b64 ->
  denied d OpMkdir (getImagesDirectory env t) = None ->
  denied d OpWrite path = None ->
  denied d OpWrite (metadataPath env t) = None ->
  exists s' text,
    editImage Buffer_from_base64 env up amb args s
    = (Ok {| content :=
               [TextContent text;
                ImageContent b64
                  (default ("image/" +:+ selectedFormat)
                     (truthy (inline_mimeType i)))] |}, s')
    /\ imageMetadata (this s') = index
    /\ JsMap.get (imageMetadata (this s')) (fresh_id moment) = Some record
    /\ ImageMetadata.type record = edited
    /\ ImageMetadata.parentImageId record = ImageMetadata.id <$> parent
    /\ lastImagePath (this s') = Some path
    /\ config (this s') = config t
    /\ file_data (disk (world s')) (metadataPath env t)
       = Some (MetadataJson (JsMap.values index))
    /\ (path <> metadataPath env t ->
        file_data (disk (world s')) path
        = Some (ImageBytes (Buffer_from_base64 b64)))
    /\ (forall q, q <> path -> q <> metadataPath env t ->
        files (disk (world s')) !! q = files d !! q).
Proof.
  apply editImage_success_run.
Qed.

End EditingResults.

Lemma editImage_stores_record_witness :
  let path := edited_path env0 configured sample_ambient "png" in
  let record := edited_record sample_ambient path "make it blue" default_model
                  "png" (sample_decoder "aGVsbG8=") [] (Some sample_record) in
  let index := JsMap.set (imageMetadata configured) (fresh_id sample_ambient)
                 record in
  exists s' text,
    editImage sample_decoder env0 sample_upstream (fun _ => sample_ambient)
      sample_edit running
    = (Ok {| content := [TextContent text;
                         ImageContent "aGVsbG8=" "image/png"] |}, s')
    /\ imageMetadata (this s') = index
    /\ JsMap.get (imageMetadata (this s')) (fresh_id sample_ambient)
       = Some record
    /\ ImageMetadata.type record = edited
    /\ ImageMetadata.parentImageId record = Some sample_id
    /\ lastImagePath (this s') = Some path
    /\ config (this s') = Some sample_config
    /\ file_data (disk (world s')) (metadataPath env0 configured)
       = Some (MetadataJson (JsMap.values index))
    /\ (path <> metadataPath env0 configured ->
        file_data (disk (world s')) path
        = Some (ImageBytes (sample_decoder "aGVsbG8=")))
    /\ (forall q, q <> path -> q <> metadataPath env0 configured ->
        files (disk (world s')) !! q = files disk_with_image !! q).
Proof.
  apply (editImage_stores_record sample_decoder env0 sample_upstream
           (fun _ => sample_ambient) sample_edit running sample_path
           (ImageBytes "hello") one_image []
           []
           {| part_text := Some "Here is your image.";
              part_inlineData :=
                Some {| inline_data := Some "aGVsbG8=";
                        inline_mimeType := Some "image/png" |} |}
           {| inline_data := Some "aGVsbG8=";
              inline_mimeType := Some "image/png" |} "aGVsbG8=");
    try reflexivity; try (constructor; fail).
  vm_compute. discriminate.
Defined.

(** ** The loop over the reference images *)

Lemma reference_kept_spec (env : Env) (v : PathValidator) (d : FileSystem)
    (refPath : string) (k : string * FileData * string) :
  reference_kept env v d refPath = Some k
  <-> exists p buf,
        validateAndSanitize env v refPath = Ok p
        /\ isImageFile p = true
        /\ is_ok (access d p) = true
        /\ readFile d p = Ok buf
        /\ k = (p, buf, getMimeType p).
Proof.
  unfold reference_kept. split.
  - destruct (validateAndSanitize env v refPath) as [p | e]; [| discriminate].
    destruct (isImageFile p) eqn:Himg; cbn [negb]; [| discriminate].
    destruct (is_ok (access d p)) eqn:Hacc; [| discriminate].
    destruct (readFile d p) as [buf | e] eqn:Hread; [| discriminate].
    intros [= <-]. exists p, buf. auto.
  - intros (p & buf & -> & -> & -> & -> & ->). reflexivity.
Qed.

Lemma kept_references_In (env : Env) (v : PathValidator) (d : FileSystem)
    (refs : list string) (k : string * FileData * string) :
  In k (kept_references env v d refs)
  <-> exists refPath, In refPath refs /\ reference_kept env v d refPath = Some k.
Proof.
  induction refs as [|r refs IH]; cbn [kept_references].
  - split; [intros [] | intros (r & [] & _)].
  - destruct (reference_kept env v d r) as [k0 |] eqn:Hr.
    + cbn [In]. rewrite IH. split.
      * intros [<- | (r' & Hin & Hk)]; [exists r; auto | exists r'; auto].
      * intros (r' & [<- | Hin] & Hk);
          [left; congruence | right; exists r'; auto].
    + rewrite IH. split.
      * intros (r' & Hin & Hk). exists r'. cbn [In]. auto.
      * intros (r' & [<- | Hin] & Hk); [congruence | exists r'; auto].
Qed.

Lemma kept_references_length (env : Env) (v : PathValidator) (d : FileSystem)
    (refs : list string) :
  (length (kept_references env v d refs) <= length refs)%nat.
Proof.
  induction refs as [|r refs IH]; cbn [kept_references length]; [lia |].
  destruct (reference_kept env v d r); cbn [length]; lia.
Qed.

Lemma add_reference_run (env : Env) (v : PathValidator)
    (kept : list (string * FileData * string)) (refPath : string) (s : State) :
  exists lg,
    add_reference env v kept refPath s
    = (Ok (kept ++ option_list (reference_kept env v (disk (world s)) refPath)),
       {| this := this s;
          world := {| disk := disk (world s); stderr := stderr (world s) ++ lg;
                      slept := slept (world s) |} |})
    /\ Forall (fun w => level w = WARN) lg
    /\ length lg
       = match reference_kept env v (disk (world s)) refPath with
         | Some _ => O
         | None => 1%nat
         end.
Proof.
  unfold add_reference, reference_kept, try_catch, bind, lift_result,
    from_disk, Logger_log, ret.
  destruct (validateAndSanitize env v refPath) as [vp | e];
    cbn [this world disk stderr slept].
  - destruct (isImageFile vp); cbn [negb].
    + destruct (access (disk (world s)) vp) as [[] | e]; cbn [is_ok].
      * destruct (readFile (disk (world s)) vp) as [b | e].
        -- exists []. rewrite app_nil_r. destruct s as [t [d e sl]].
           cbn. auto.
        -- eexists. rewrite app_nil_r. split; [reflexivity |].
           split; [repeat constructor | reflexivity].
      * eexists. rewrite app_nil_r. split; [reflexivity |].
        split; [repeat constructor | reflexivity].
    + eexists. rewrite app_nil_r. split; [reflexivity |].
      split; [repeat constructor | reflexivity].
  - eexists. rewrite app_nil_r. split; [reflexivity |].
    split; [repeat constructor | reflexivity].
Qed.

Lemma add_references_run (env : Env) (v : PathValidator) (refs : list string) :
  forall (kept : list (string * FileData * string)) (s : State),
  exists lg,
    add_references env v refs kept s
    = (Ok (kept ++ kept_references env v (disk (world s)) refs),
       {| this := this s;
          world := {| disk := disk (world s); stderr := stderr (world s) ++ lg;
                      slept := slept (world s) |} |})
    /\ Forall (fun w => level w = WARN) lg
    /\ (length lg + length (kept_references env v (disk (world s)) refs)
        = length refs)%nat.
Proof.
  induction refs as [|refPath rest IH]; intros kept s;
    cbn [add_references kept_references].
  - exists []. rewrite !app_nil_r. destruct s as [t [d e sl]].
    cbn. auto.
  - destruct (add_reference_run env v kept refPath s)
      as (lg1 & Hone & Hwarn1 & Hlen1).
    unfold bind. rewrite Hone.
    match goal with
    | |- context [add_references env v rest ?k ?st] =>
        destruct (IH k st) as (lg2 & Hrest & Hwarn2 & Hlen2)
    end.
    rewrite Hrest. cbn [this world disk stderr slept] in *.
    exists (lg1 ++ lg2). rewrite !app_assoc.
    split; [| split].
    + destruct (reference_kept env v (disk (world s)) refPath);
        cbn [option_list]; rewrite <- !app_assoc; reflexivity.
    + apply Forall_app. auto.
    + rewrite length_app.
      destruct (reference_kept env v (disk (world s)) refPath);
        cbn [length]; lia.
Qed.

(** X14. The loop of [edit_image] over the reference images never throws
    and changes nothing but the log. A reference is kept exactly when the
    validator accepts it, it is an image file and it can be reached and
    read, and it is kept with its validated path, its content and its MIME
    type; every other reference is left out with one warning. *)
Theorem reference_loop_keeps_valid_images (env : Env) (v : PathValidator)
    (refs : list string) (s : State) :
  let d := disk (world s) in
  exists kept lg,
    add_references env v refs [] s
    = (Ok kept,
       {| this := this s;
          world := {| disk := d; stderr := stderr (world s) ++ lg;
                      slept := slept (world s) |} |})
    /\ (forall p buf mime,
        In (p, buf, mime) kept
        <-> exists refPath,
              In refPath refs
              /\ validateAndSanitize env v refPath = Ok p
              /\ isImageFile p = true
              /\ is_ok (access d p) = true
              /\ readFile d p = Ok buf
              /\ mime = getMimeType p)
    /\ Forall (fun w => level w = WARN) lg
    /\ (length lg + length kept = length refs)%nat.
Proof.
  intros d. destruct (add_references_run env v refs [] s)
    as (lg & Hrun & Hwarn & Hlen).
  exists (kept_references env v d refs), lg. cbn [app] in Hrun.
  split; [exact Hrun |]. split; [| split; [exact Hwarn | exact Hlen]].
  intros p buf mime. rewrite kept_references_In. split.
  - intros (refPath & Hin & Hkept). exists refPath.
    apply reference_kept_spec in Hkept
      as (p' & buf' & Hv & Himg & Hacc & Hread & Heq).
    injection Heq as -> -> ->. auto 10.
  - intros (refPath & Hin & Hv & Himg & Hacc & Hread & ->). exists refPath.
    split; [exact Hin |]. apply reference_kept_spec. exists p, buf. auto.
Qed.

(** X15. The errors that leave [edit_image]: the configuration error and
    the [InvalidParams] errors of the checks, thrown with the world
    untouched; an [InternalError] whose message is "Failed to edit image: "
    followed by the message of the cause, for everything that fails from
    the upstream call on; and, outside the [try] block, the error of
    reading a source file that can be reached but not read, which is
    thrown as it is. *)
Theorem editImage_error_kinds (Buffer_from_base64 : string -> string)
    (env : Env) (up : Upstream) (amb : nat -> Ambient) (args : EditArgs)
    (s s' : State) (e : JsError) :
  editImage Buffer_from_base64 env up amb args s = (Err e, s') ->
  (e = not_configured_error /\ s' = s)
  \/ (exists msg, e = McpError InvalidParams msg /\ world s' = world s)
  \/ (exists cause,
        e = McpError InternalError
              ("Failed to edit image: " +:+ error_text cause))
  \/ (exists p,
        validateAndSanitize env (validator_of env (this s))
          (edit_imagePath args) = Ok p
        /\ access (disk (world s)) p = Ok tt
        /\ readFile (disk (world s)) p = Err e
        /\ world s' = world s).
Proof.
  intros Hrun. unfold editImage in Hrun. unfold bind at 1, get_this in Hrun.
  destruct (ensureConfigured (this s)) eqn:Hconf; cbn [negb] in Hrun.
  2: { left. unfold throw in Hrun. injection Hrun as <- <-. auto. }
  right.
  destruct (ensure_pathValidator_frame env s) as (t1 & Hensure & _).
  unfold bind at 1 in Hrun. rewrite Hensure in Hrun.
  unfold bind at 1, lift_result at 1 in Hrun.
  destruct (validateAndSanitize env (validator_of env (this s))
              (edit_imagePath args)) as [p | e0] eqn:Hv.
  2: { left. injection Hrun as <- <-. cbn [world].
       unfold validateAndSanitize in Hv.
       destruct (Str.includes _ _);
         [injection Hv as <-; eexists; split; reflexivity |].
       destruct (negb _); [| discriminate Hv].
       injection Hv as <-. eexists. split; reflexivity. }
  destruct (isImageFile p); cbn [negb] in Hrun.
  2: { left. unfold throw in Hrun. injection Hrun as <- <-.
       eexists. split; reflexivity. }
  destruct (reference_limit (this s) <? _)%Z.
  { left. unfold throw in Hrun. injection Hrun as <- <-.
    eexists. split; reflexivity. }
  unfold bind at 1, try_catch at 1, from_disk at 1 in Hrun.
  cbn [this world] in Hrun.
  destruct (access (disk (world s)) p) as [[] | e0] eqn:Hacc.
  2: { left. unfold throw in Hrun. injection Hrun as <- <-.
       eexists. split; reflexivity. }
  unfold bind at 1, from_disk at 1 in Hrun. cbn [this world] in Hrun.
  destruct (readFile (disk (world s)) p) as [buf | e0] eqn:Hread.
  2: { right. right. injection Hrun as <- <-. exists p. auto. }
  right. left.
  unfold bind at 1 in Hrun.
  match type of Hrun with
  | context [add_references env ?v ?refs [] ?st] =>
      destruct (add_references_run env v refs [] st) as (lg & Hrefs & _);
      rewrite Hrefs in Hrun
  end.
  unfold bind at 1, Logger_log at 1 in Hrun. unfold try_catch in Hrun.
  match type of Hrun with
  | context [edit_body ?a ?b ?c ?d ?f ?g ?h ?i ?j ?k ?l ?st] =>
      destruct (edit_body a b c d f g h i j k l st) as [[r | cause] s3]
  end; [discriminate Hrun |].
  unfold bind, Logger_log, throw in Hrun. injection Hrun as <- <-.
  exists cause. reflexivity.
Qed.

Lemma editImage_error_kinds_witness :
  let run := editImage sample_decoder env0 sample_upstream
               (fun _ => sample_ambient) sample_edit running_locked in
  exists e,
    fst run = Err e
    /\ ((e = not_configured_error /\ snd run = running_locked)
        \/ (exists msg, e = McpError InvalidParams msg
                        /\ world (snd run) = world running_locked)
        \/ (exists cause,
              e = McpError InternalError
                    ("Failed to edit image: " +:+ error_text cause))
        \/ (exists p,
              validateAndSanitize env0 (validator_of env0 configured)
                sample_path = Ok p
              /\ access locked_disk p = Ok tt
              /\ readFile locked_disk p = Err e
              /\ world (snd run) = world running_locked)).
Proof.
  intros run. eexists. split; [reflexivity |].
  apply (editImage_error_kinds sample_decoder env0 sample_upstream
           (fun _ => sample_ambient) sample_edit running_locked (snd run)).
  reflexivity.
Defined.

(** ** What the methods keep of the server object *)

Lemma keeps_ret {A} (Q : ImgMcp -> Prop) (a : A) : keeps Q (ret a).
Proof. intros s Hs. exact Hs. Qed.

Lemma keeps_throw {A} (Q : ImgMcp -> Prop) (e : JsError) :
  keeps Q (@throw A e).
Proof. intros s Hs. exact Hs. Qed.

Lemma keeps_get_this (Q : ImgMcp -> Prop) : keeps Q get_this.
Proof. intros s Hs. exact Hs. Qed.

Lemma keeps_bind {A B} (Q : ImgMcp -> Prop) (c : M A) (k : A -> M B) :
  keeps Q c -> (forall a, keeps Q (k a)) -> keeps Q (bind c k).
Proof.
  intros Hc Hk s Hs. unfold bind. specialize (Hc s Hs).
  destruct (c s) as [[a | e] s1]; cbn [snd] in *; [apply Hk, Hc | exact Hc].
Qed.

Lemma keeps_try_catch {A} (Q : ImgMcp -> Prop) (body : M A)
    (handler : JsError -> M A) :
  keeps Q body -> (forall e, keeps Q (handler e)) ->
  keeps Q (try_catch body handler).
Proof.
  intros Hb Hh s Hs. unfold try_catch. specialize (Hb s Hs).
  destruct (body s) as [[a | e] s1]; cbn [snd] in *; [exact Hb | apply Hh, Hb].
Qed.

Lemma keeps_on_disk (Q : ImgMcp -> Prop)
    (op : FileSystem -> result FileSystem) : keeps Q (on_disk op).
Proof.
  intros s Hs. unfold on_disk. destruct (op (disk (world s))); exact Hs.
Qed.

Lemma keeps_from_disk {A} (Q : ImgMcp -> Prop) (op : FileSystem -> result A) :
  keeps Q (from_disk op).
Proof. intros s Hs. exact Hs. Qed.

Lemma keeps_lift_result {A} (Q : ImgMcp -> Prop) (r : result A) :
  keeps Q (lift_result r).
Proof. intros s Hs. exact Hs. Qed.

Lemma keeps_Logger_log (Q : ImgMcp -> Prop) (lv : Level) (msg : string) :
  keeps Q (Logger_log lv msg).
Proof. intros s Hs. exact Hs. Qed.

Lemma keeps_await_retry {T} (Q : ImgMcp -> Prop) (fn : nat -> result T) :
  keeps Q (await_retry fn).
Proof. intros s Hs. exact Hs. Qed.

Lemma keeps_update_this (Q : ImgMcp -> Prop) (f : ImgMcp -> ImgMcp) :
  (forall t, Q t -> Q (f t)) -> keeps Q (update_this f).
Proof. intros Hf s Hs. apply Hf, Hs. Qed.

Lemma keeps_for_each {A} (Q : ImgMcp -> Prop) (l : list A)
    (body : A -> M unit) :
  (forall a, keeps Q (body a)) -> keeps Q (for_each l body).
Proof.
  intros Hbody. induction l as [|a l IH]; cbn [for_each].
  - apply keeps_ret.
  - apply keeps_bind; [apply Hbody | intros _; exact IH].
Qed.

(** the steps that leave the server object alone, and the shape of the
    methods *)
Ltac keeps_step :=
  first
    [ apply keeps_ret | apply keeps_throw | apply keeps_get_this
    | apply keeps_on_disk | apply keeps_from_disk | apply keeps_lift_result
    | apply keeps_Logger_log | apply keeps_await_retry
    | apply keeps_bind; [| intros ?]
    | apply keeps_try_catch; [| intros ?]
    | apply keeps_for_each; intros ?
    | match goal with
      | |- keeps _ (if ?b then _ else _) => destruct b
      | |- keeps _ (match ?x with _ => _ end) => destruct x
      end ].

Ltac keeps_steps := cbv zeta; repeat keeps_step.

Lemma keeps_add_references (Q : ImgMcp -> Prop) (env : Env)
    (v : PathValidator) (refs : list string) :
  forall kept, keeps Q (add_references env v refs kept).
Proof.
  induction refs as [|r refs IH]; intros kept; cbn [add_references].
  - apply keeps_ret.
  - apply keeps_bind; [| intros k; apply IH].
    unfold add_reference. keeps_steps.
Qed.

Section Invariants.

Variable Buffer_from_base64 : string -> string.
Variable env : Env.

Lemma keeps_edit_parts (Q : ImgMcp -> Prop) (amb : nat -> Ambient)
    (prompt selectedModel selectedFormat : string) (refs : list string)
    (parent : option ImageMetadata.t) (parts : list Part) :
  (forall moment filePath imageBuffer t,
     Q t ->
     Q (with_imageMetadata
          (JsMap.set (imageMetadata (with_lastImagePath filePath t))
             (fresh_id moment)
             (edited_record moment filePath prompt selectedModel
                selectedFormat imageBuffer refs parent))
          (with_lastImagePath filePath t))) ->
  forall k acc,
    keeps Q (edit_parts Buffer_from_base64 env amb k prompt selectedModel
               selectedFormat refs parent parts acc).
Proof.
  intros Hstore. induction parts as [|p parts IH]; intros k acc;
    cbn [edit_parts].
  - apply keeps_ret.
  - apply keeps_bind; [| intros acc'; apply IH].
    unfold edit_part, store_edited.
    destruct (part_inlineData p) as [i |]; [| apply keeps_ret].
    destruct (truthy (inline_data i)) as [b64 |]; [| apply keeps_ret].
    intros s Hs. unfold bind at 1, get_this.
    unfold bind at 1. 
    pose proof (keeps_on_disk Q
                  (fun d => writeFile env d
                              (edited_path env (this s) (amb k) selectedFormat)
                              (ImageBytes (Buffer_from_base64 b64)) None)
                  s Hs) as Hwrite.
    destruct (on_disk _ s) as [[[] | e] s1]; cbn [snd] in *; [| exact Hwrite].
    unfold bind at 1, update_this at 1. unfold bind at 1, update_this at 1.
    cbn [this world].
    unfold saveMetadata. 
    match goal with
    | |- Q (this (snd (bind ?m ?f ?st))) =>
        apply (keeps_bind Q m f); [keeps_steps | intros ?; keeps_steps |]
    end.
    cbn [this]. apply Hstore, Hwrite.
Qed.

(** X16. The index of the server is always well formed: no id twice, and
    every record under its own id. This holds for a new server and is
    kept by the start of the server and by every tool, whether it returns
    or throws. *)
Theorem index_is_well_formed (up : Upstream) :
  index_ok (imageMetadata new_ImgMcp)
  /\ (forall connect,
        keeps (fun t => index_ok (imageMetadata t)) (run env connect))
  /\ (forall apiKey,
        keeps (fun t => index_ok (imageMetadata t))
          (configureGeminiToken env apiKey))
  /\ (forall amb args,
        keeps (fun t => index_ok (imageMetadata t))
          (generateImage Buffer_from_base64 env up amb args))
  /\ (forall amb args,
        keeps (fun t => index_ok (imageMetadata t))
          (editImage Buffer_from_base64 env up amb args))
  /\ (forall amb args,
        keeps (fun t => index_ok (imageMetadata t))
          (continueEditing Buffer_from_base64 env up amb args))
  /\ (forall imageId,
        keeps (fun t => index_ok (imageMetadata t)) (deleteImage env imageId)).
Proof.
  split; [split; constructor |].
  split; [| split; [| split; [| split; [| split]]]].
  - intros connect.
    unfold run, loadConfig, loadMetadata, configure_from, load_one.
    keeps_steps; try (apply keeps_update_this; intros obj Hobj; exact Hobj).
    apply keeps_update_this. intros obj Hobj. cbn [imageMetadata with_imageMetadata].
    apply index_ok_set, Hobj.
  - intros apiKey. unfold configureGeminiToken, saveConfig.
    keeps_steps; apply keeps_update_this; intros obj Hobj; exact Hobj.
  - intros amb args.
    unfold generateImage, generate_body, call_upstream, store_generated,
      saveMetadata.
    keeps_steps; apply keeps_update_this; intros obj Hobj;
      first [exact Hobj | cbn [imageMetadata with_imageMetadata]].
    apply index_ok_generated, Hobj.
  - intros amb args. unfold editImage, edit_body, ensure_pathValidator.
    keeps_steps;
      try (apply keeps_update_this; intros obj Hobj; exact Hobj);
      try apply keeps_add_references.
    apply keeps_edit_parts. intros moment filePath imageBuffer obj Hobj.
    cbn [imageMetadata with_imageMetadata with_lastImagePath].
    apply index_ok_edited, Hobj.
  - intros amb args. unfold continueEditing.
    keeps_steps.
    unfold editImage, edit_body, ensure_pathValidator.
    keeps_steps;
      try (apply keeps_update_this; intros obj Hobj; exact Hobj);
      try apply keeps_add_references.
    apply keeps_edit_parts. intros moment filePath imageBuffer obj Hobj.
    cbn [imageMetadata with_imageMetadata with_lastImagePath].
    apply index_ok_edited, Hobj.
  - intros imageId. unfold deleteImage, saveMetadata.
    keeps_steps; apply keeps_update_this; intros obj Hobj.
    cbn [imageMetadata with_imageMetadata]. apply index_ok_delete, Hobj.
Qed.

End Invariants.

(** ** Methods that never throw, methods that only read *)

Lemma returns_ret {A} (a : A) : returns (ret a).
Proof. intros s. reflexivity. Qed.

Lemma returns_update_this (f : ImgMcp -> ImgMcp) : returns (update_this f).
Proof. intros s. reflexivity. Qed.

Lemma returns_Logger_log (lv : Level) (msg : string) :
  returns (Logger_log lv msg).
Proof. intros s. reflexivity. Qed.

Lemma returns_bind {A B} (c : M A) (k : A -> M B) :
  returns c -> (forall a, returns (k a)) -> returns (bind c k).
Proof.
  intros Hc Hk s. unfold bind. specialize (Hc s).
  destruct (c s) as [[a | e] s1]; cbn [fst is_ok] in *;
    [apply Hk | discriminate Hc].
Qed.

Lemma returns_try_catch {A} (body : M A) (handler : JsError -> M A) :
  (forall e, returns (handler e)) -> returns (try_catch body handler).
Proof.
  intros Hh s. unfold try_catch.
  destruct (body s) as [[a | e] s1]; [reflexivity | apply Hh].
Qed.

Lemma reads_only_ret {A} (a : A) : reads_only (ret a).
Proof. intros s. split; reflexivity. Qed.

Lemma reads_only_throw {A} (e : JsError) : reads_only (@throw A e).
Proof. intros s. split; reflexivity. Qed.

Lemma reads_only_get_this : reads_only get_this.
Proof. intros s. split; reflexivity. Qed.

Lemma reads_only_update_this (f : ImgMcp -> ImgMcp) :
  reads_only (update_this f).
Proof. intros s. split; reflexivity. Qed.

Lemma reads_only_from_disk {A} (op : FileSystem -> result A) :
  reads_only (from_disk op).
Proof. intros s. split; reflexivity. Qed.

Lemma reads_only_lift_result {A} (r : result A) : reads_only (lift_result r).
Proof. intros s. split; reflexivity. Qed.

Lemma reads_only_Logger_log (lv : Level) (msg : string) :
  reads_only (Logger_log lv msg).
Proof. intros s. split; reflexivity. Qed.

Lemma reads_only_bind {A B} (c : M A) (k : A -> M B) :
  reads_only c -> (forall a, reads_only (k a)) -> reads_only (bind c k).
Proof.
  intros Hc Hk s. unfold bind. destruct (Hc s) as [Hd Hs].
  destruct (c s) as [[a | e] s1]; cbn [snd] in *; [| auto].
  destruct (Hk a s1) as [Hd' Hs']. rewrite Hd', Hs'. auto.
Qed.

Lemma reads_only_try_catch {A} (body : M A) (handler : JsError -> M A) :
  reads_only body -> (forall e, reads_only (handler e)) ->
  reads_only (try_catch body handler).
Proof.
  intros Hb Hh s. unfold try_catch. destruct (Hb s) as [Hd Hs].
  destruct (body s) as [[a | e] s1]; cbn [snd] in *; [auto |].
  destruct (Hh e s1) as [Hd' Hs']. rewrite Hd', Hs'. auto.
Qed.

Lemma reads_only_for_each {A} (l : list A) (body : A -> M unit) :
  (forall a, reads_only (body a)) -> reads_only (for_each l body).
Proof.
  intros Hbody. induction l as [|a l IH]; cbn [for_each].
  - apply reads_only_ret.
  - apply reads_only_bind; [apply Hbody | intros _; exact IH].
Qed.

Ltac reads_only_step :=
  first
    [ apply reads_only_ret | apply reads_only_throw
    | apply reads_only_get_this | apply reads_only_update_this
    | apply reads_only_from_disk | apply reads_only_Logger_log
    | apply reads_only_lift_result
    | apply reads_only_bind; [| intros ?]
    | apply reads_only_try_catch; [| intros ?]
    | apply reads_only_for_each; intros ?
    | match goal with
      | |- reads_only (if ?b then _ else _) => destruct b
      | |- reads_only (match ?x with _ => _ end) => destruct x
      end ].

Lemma run_keeps_lastImagePath (env : Env) (connect : result unit)
    (last : option string) :
  keeps (fun t => lastImagePath t = last) (run env connect).
Proof.
  unfold run, loadConfig, loadMetadata, configure_from, load_one.
  keeps_steps; apply keeps_update_this; intros obj Hobj; exact Hobj.
Qed.

Lemma returns_unit (m : M unit) (s : State) :
  returns m -> fst (m s) = Ok tt.
Proof.
  intros Hm. specialize (Hm s).
  destruct (m s) as [[[] | e] s1]; [reflexivity | discriminate Hm].
Qed.

Lemma loadConfig_returns (env : Env) : returns (loadConfig env).
Proof.
  unfold loadConfig, configure_from.
  destruct (truthy (GEMINI_API_KEY env)).
  - apply returns_bind; [apply returns_update_this |].
    intros _. apply returns_update_this.
  - apply returns_try_catch. intros _. apply returns_update_this.
Qed.

Lemma loadMetadata_returns (env : Env) : returns (loadMetadata env).
Proof.
  unfold loadMetadata. apply returns_try_catch. intros _. apply returns_ret.
Qed.

(** X17. The start of the server fails only when the connection of the
    transport fails, and then with the error of the connection: the
    loading of the configuration and of the metadata never throws,
    whatever the disk holds (a file that is missing, cannot be read or
    holds something else is passed over), and the outcome of [run] is the
    outcome of the connection. [run] writes nothing and sleeps nothing,
    and it does not set the last image path. *)
Theorem run_fails_only_on_connect (env : Env) (connect : result unit) :
  returns (loadConfig env)
  /\ returns (loadMetadata env)
  /\ (forall s, fst (run env connect s) = connect)
  /\ reads_only (run env connect)
  /\ forall last, keeps (fun t => lastImagePath t = last) (run env connect).
Proof.
  split; [apply loadConfig_returns |].
  split; [apply loadMetadata_returns |].
  split; [| split].
  - intros s. unfold run. unfold bind at 1.
    pose proof (returns_unit (loadConfig env) s (loadConfig_returns env))
      as Hconfig.
    destruct (loadConfig env s) as [r1 s1]. cbn [fst] in Hconfig. subst r1.
    unfold bind at 1.
    pose proof (returns_unit (loadMetadata env) s1 (loadMetadata_returns env))
      as Hmeta.
    destruct (loadMetadata env s1) as [r2 s2]. cbn [fst] in Hmeta. subst r2.
    unfold bind, lift_result, Logger_log.
    destruct connect as [[] | e]; reflexivity.
  - unfold run, loadConfig, loadMetadata, configure_from, load_one.
    cbv zeta. repeat reads_only_step.
  - intros last. apply run_keeps_lastImagePath.
Qed.

(** ** continue_editing *)

(** X18. The last image path lives in the process only: right after the
    start of a new server, whatever the disk and its metadata file hold,
    [continue_editing] throws (the configuration error, or "No previous
    image found") and changes nothing. *)
Theorem continue_editing_after_restart (Buffer_from_base64 : string -> string)
    (env : Env) (up : Upstream) (amb : nat -> Ambient) (args : ContinueArgs)
    (connect : result unit) (w : World) :
  let started := snd (run env connect {| this := new_ImgMcp; world := w |}) in
  exists e,
    continueEditing Buffer_from_base64 env up amb args started
    = (Err e, started)
    /\ (e = not_configured_error \/ e = no_previous_error).
Proof.
  intros started.
  assert (Hlast : lastImagePath (this started) = None).
  { apply (run_keeps_lastImagePath env connect None
             {| this := new_ImgMcp; world := w |}). reflexivity. }
  unfold continueEditing, bind, get_this.
  destruct (ensureConfigured (this started)); cbn [negb].
  - rewrite Hlast. cbn [truthy]. exists no_previous_error. auto.
  - exists not_configured_error. auto.
Qed.

Section Continuing.

Variable Buffer_from_base64 : string -> string.
Variable env : Env.

(** X19. [continue_editing] edits the last image: when the file at the
    last image path is there and the edit succeeds as in X13, the index
    gains a record of type edited whose parent is the record stored for
    that path, and the last image path moves on to the new file, so that
    the next call continues from it. *)
Theorem continueEditing_chains (up : Upstream) (amb : nat -> Ambient)
    (args : ContinueArgs) (s : State) (last validatedImagePath : string)
    (imageBuffer : FileData) (response : ContentResponse)
    (pre post : list Part) (part : Part) (i : InlineData) (b64 : string) :
  let t := this s in
  let v := validator_of env t in
  let d := disk (world s) in
  let referenceImages := default [] (continue_referenceImages args) in
  let kept := kept_references env v d referenceImages in
  let used := map (fun r => fst (fst r)) kept in
  let selectedModel := edit_model t in
  let selectedFormat := edit_format t in
  let moment := amb (length pre) in
  let path := edited_path env t moment selectedFormat in
  let parent := find_by_path (imageMetadata t) validatedImagePath in
  let record := edited_record moment path (continue_prompt args) selectedModel
                  selectedFormat (Buffer_from_base64 b64) used parent in
  ensureConfigured t = true ->
  lastImagePath t = Some last ->
  last <> "" ->
  access d last = Ok tt ->
  validateAndSanitize env v last = Ok validatedImagePath ->
  isImageFile validatedImagePath = true ->
  (Z.of_nat (length referenceImages) <= reference_limit t)%Z ->
  access d validatedImagePath = Ok tt ->
  readFile d validatedImagePath = Ok imageBuffer ->
  retry_result
    (retryWithBackoff
       (generateContent up
          (edit_request selectedModel (continue_prompt args) imageBuffer
             (getMimeType validatedImagePath) kept))
       default_maxRetries default_initialDelay) = Ok response ->
  response_parts response = pre ++ part :: post ->
  Forall stores_nothing pre ->
  Forall stores_nothing post ->
  part_inlineData part = Some i ->
  truthy (inline_data i) = Some b64 ->
  denied d OpMkdir (getImagesDirectory env t) = None ->
  denied d OpWrite path = None ->
  denied d OpWrite (metadataPath env t) = None ->
  exists s' text,
    continueEditing Buffer_from_base64 env up amb args s
    = (Ok {| content :=
               [TextContent text;
                ImageContent b64
                  (default ("image/" +:+ selectedFormat)
                     (truthy (inline_mimeType i)))] |}, s')
    /\ JsMap.get (imageMetadata (this s')) (fresh_id moment) = Some record
    /\ ImageMetadata.type record = edited
    /\ ImageMetadata.parentImageId record = ImageMetadata.id <$> parent
    /\ lastImagePath (this s') = Some path.
Proof.
  intros t v d referenceImages kept used selectedModel selectedFormat moment
    path parent record Hconf Hlast Hne Hthere Hvalid Himage Hlimit Haccess
    Hread Hup Hparts Hpre Hpost Hinline Hdata Hmk Hw Hm.
  destruct (editImage_success_run Buffer_from_base64 env up amb
              (continued_edit last args) s validatedImagePath imageBuffer
              response pre post part i b64 Hconf Hvalid Himage Hlimit Haccess
              Hread Hup Hparts Hpre Hpost Hinline Hdata Hmk Hw Hm)
    as (s' & text & Hrun & _ & Hget & Htype & Hparent & Hlast' & _).
  exists s', text.
  split; [| split; [exact Hget | split; [exact Htype |
            split; [exact Hparent | exact Hlast']]]].
  unfold continueEditing. unfold bind at 1, get_this. fold t.
  rewrite Hconf, Hlast. cbn [negb].
  assert (Htruthy : truthy (Some last) = Some last).
  { unfold truthy. destruct last; [congruence | reflexivity]. }
  rewrite Htruthy. unfold bind at 1, try_catch at 1, from_disk at 1.
  fold d. rewrite Hthere. exact Hrun.
Qed.

End Continuing.

Lemma continueEditing_chains_witness :
  let path := edited_path env0 configured sample_ambient "png" in
  let record := edited_record sample_ambient path "and add a star"
                  default_model "png" (sample_decoder "aGVsbG8=") []
                  (Some sample_record) in
  exists s' text,
    continueEditing sample_decoder env0 sample_upstream
      (fun _ => sample_ambient)
      {| continue_prompt := "and add a star";
         continue_referenceImages := None |} running
    = (Ok {| content := [TextContent text;
                         ImageContent "aGVsbG8=" "image/png"] |}, s')
    /\ JsMap.get (imageMetadata (this s')) (fresh_id sample_ambient)
       = Some record
    /\ ImageMetadata.type record = edited
    /\ ImageMetadata.parentImageId record = Some sample_id
    /\ lastImagePath (this s') = Some path.
Proof.
  apply (continueEditing_chains sample_decoder env0 sample_upstream
           (fun _ => sample_ambient)
           {| continue_prompt := "and add a star";
              continue_referenceImages := None |} running sample_path
           sample_path (ImageBytes "hello") one_image []
           []
           {| part_text := Some "Here is your image.";
              part_inlineData :=
                Some {| inline_data := Some "aGVsbG8=";
                        inline_mimeType := Some "image/png" |} |}
           {| inline_data := Some "aGVsbG8=";
              inline_mimeType := Some "image/png" |} "aGVsbG8=");
    try reflexivity; try (constructor; fail); discriminate.
Defined.

(** ** list_images and search_images *)

Section ListingFacts.

Variable Date_getTime : string -> option Z.
Variable JSON_stringify_listed : list ListedImage -> string.
Variable JSON_stringify_found : list FoundImage -> string.

Lemma In_take {A} (x : A) (n : nat) (l : list A) :
  In x (take n l) -> In x l.
Proof.
  revert n. induction l as [|y l IH]; intros [|n]; cbn [take In]; try tauto.
  intros [-> | Hx]; [auto | right; exact (IH n Hx)].
Qed.

Lemma In_drop {A} (x : A) (n : nat) (l : list A) :
  In x (drop n l) -> In x l.
Proof.
  revert n. induction l as [|y l IH]; intros [|n]; cbn [drop In]; try tauto.
  intros Hx. right. exact (IH n Hx).
Qed.

Lemma insert_image_perm (x : ImageMetadata.t) (l : list ImageMetadata.t) :
  Permutation (insert_image Date_getTime x l) (x :: l).
Proof.
  induction l as [|y l IH]; cbn [insert_image]; [reflexivity |].
  destruct (newest_first Date_getTime x y <=? 0)%Z; [reflexivity |].
  rewrite IH. apply perm_swap.
Qed.

Lemma sort_images_perm (l : list ImageMetadata.t) :
  Permutation (sort_images Date_getTime l) l.
Proof.
  unfold sort_images. induction l as [|x l IH]; cbn [foldr];
    [reflexivity |].
  rewrite insert_image_perm. apply perm_skip, IH.
Qed.

Lemma not_older_trans (a b c : ImageMetadata.t) :
  not_older Date_getTime a b -> not_older Date_getTime b c ->
  not_older Date_getTime a c.
Proof.
  unfold not_older.
  destruct (time_of Date_getTime a), (time_of Date_getTime b),
    (time_of Date_getTime c); try tauto. lia.
Qed.

Lemma insert_image_sorted (x : ImageMetadata.t) (l : list ImageMetadata.t) :
  dated Date_getTime x -> Forall (dated Date_getTime) l ->
  StronglySorted (not_older Date_getTime) l ->
  StronglySorted (not_older Date_getTime) (insert_image Date_getTime x l).
Proof.
  intros Hx Hl Hsorted. induction Hsorted as [|y l Hsorted IH Hy];
    cbn [insert_image].
  - repeat constructor.
  - apply Forall_cons in Hl as [Hdy Hl].
    assert (Hcases : (newest_first Date_getTime x y <= 0)%Z
                     /\ not_older Date_getTime x y
                     \/ (0 < newest_first Date_getTime x y)%Z
                        /\ not_older Date_getTime y x).
    { unfold newest_first, not_older, dated in *.
      destruct (time_of Date_getTime x) as [tx |]; [| congruence].
      destruct (time_of Date_getTime y) as [ty |]; [| congruence]. lia. }
    destruct Hcases as [[Hle Hxy] | [Hgt Hyx]].
    + apply Z.leb_le in Hle. rewrite Hle. constructor.
      * constructor; assumption.
      * constructor; [exact Hxy |].
        eapply List.Forall_impl; [| exact Hy].
        intros z Hz. exact (not_older_trans x y z Hxy Hz).
    + apply Z.leb_gt in Hgt. rewrite Hgt. constructor; [apply IH, Hl |].
      rewrite List.Forall_forall. intros z Hz.
      apply (Permutation_in _ (insert_image_perm x l)) in Hz.
      destruct Hz as [<- | Hz]; [exact Hyx |].
      rewrite List.Forall_forall in Hy. apply Hy, Hz.
Qed.

Lemma sort_images_sorted (l : list ImageMetadata.t) :
  Forall (dated Date_getTime) l ->
  StronglySorted (not_older Date_getTime) (sort_images Date_getTime l).
Proof.
  unfold sort_images. induction l as [|x l IH]; cbn [foldr]; intros Hl.
  - constructor.
  - apply Forall_cons in Hl as [Hx Hl].
    apply insert_image_sorted; [exact Hx | | apply IH, Hl].
    rewrite List.Forall_forall in *. intros z Hz. apply Hl.
    exact (Permutation_in _ (sort_images_perm l) Hz).
Qed.

Lemma take_sorted {A} (R : A -> A -> Prop) (n : nat) (l : list A) :
  StronglySorted R l -> StronglySorted R (take n l).
Proof.
  intros Hsorted. revert n.
  induction Hsorted as [|x l Hsorted IH Hx]; intros [|n]; cbn [take];
    try constructor.
  - apply IH.
  - rewrite List.Forall_forall in *. intros y Hy. apply Hx.
    exact (In_take y n l Hy).
Qed.

Lemma sorted_rest_after_take {A} (R : A -> A -> Prop) (n : nat) (l : list A) :
  StronglySorted R l ->
  forall x y, In x (take n l) -> In y (drop n l) -> R x y.
Proof.
  intros Hsorted. revert n.
  induction Hsorted as [|z l Hsorted IH Hz]; intros [|n] x y;
    cbn [take drop In]; try tauto.
  intros [<- | Hx] Hy.
  - rewrite List.Forall_forall in Hz. apply Hz.
    exact (In_drop y n l Hy).
  - exact (IH n x y Hx Hy).
Qed.

End ListingFacts.

Section ListingResults.

Variable Date_getTime : string -> option Z.
Variable String_toLowerCase : string -> string.
Variable JSON_stringify_listed : list ListedImage -> string.
Variable JSON_stringify_found : list FoundImage -> string.

Lemma filter_all {A} (l : list A) : List.filter (fun _ => true) l = l.
Proof. induction l as [|x l IH]; cbn; [reflexivity | rewrite IH; reflexivity]. Qed.

Lemma filter_twice {A} (f g : A -> bool) (l : list A) :
  List.filter g (List.filter f l) = List.filter (fun x => f x && g x) l.
Proof.
  induction l as [|x l IH]; [reflexivity |]. cbn [List.filter].
  destruct (f x); cbn [andb List.filter]; [| exact IH].
  destruct (g x); [rewrite IH; reflexivity | exact IH].
Qed.

(** the images of [listImages]: the first ones of the sorted selection *)
Lemma listed_images_shape (t : ImgMcp) (args : ListArgs) :
  exists k,
    listed_images Date_getTime t args
    = take k (sort_images Date_getTime
                (List.filter (list_wanted args)
                   (JsMap.values (imageMetadata t))))
    /\ ((0 <= num_or (list_limit args) 50)%Z ->
        k = Z.to_nat (num_or (list_limit args) 50)).
Proof.
  unfold listed_images, slice_to.
  assert (Hsel : match default all_types (list_type args) with
                 | all_types => JsMap.values (imageMetadata t)
                 | _ => List.filter
                          (has_type (default all_types (list_type args)))
                          (JsMap.values (imageMetadata t))
                 end
                 = List.filter (list_wanted args)
                     (JsMap.values (imageMetadata t))).
  { unfold list_wanted.
    destruct (default all_types (list_type args));
      [reflexivity | reflexivity | symmetry; apply filter_all]. }
  rewrite Hsel.
  destruct (num_or (list_limit args) 50 <? 0)%Z eqn:Hneg.
  - eexists. split; [reflexivity |]. apply Z.ltb_lt in Hneg. lia.
  - eexists. split; [reflexivity |]. reflexivity.
Qed.

(** X20. [list_images] changes nothing and shows images of the index of
    the wanted type only. With a limit that is not negative (50 when none
    or 0 is given) it shows that many images, or all the wanted ones when
    there are fewer; when the limit is not below their number, it shows
    each of them once. *)
Theorem listImages_selects (args : ListArgs) (s : State) :
  let limit := num_or (list_limit args) 50 in
  let wanted := List.filter (list_wanted args)
                  (JsMap.values (imageMetadata (this s))) in
  exists imgs,
    listImages Date_getTime JSON_stringify_listed args s
    = (Ok (text_result
             ("Found " +:+ show_Z (Z.of_nat (length imgs)) +:+ " image(s):"
              +:+ nl +:+ nl +:+ JSON_stringify_listed (map listing imgs))),
       s)
    /\ (forall img, In img imgs ->
        In img (JsMap.values (imageMetadata (this s)))
        /\ list_wanted args img = true)
    /\ ((0 <= limit)%Z ->
        length imgs = Nat.min (Z.to_nat limit) (length wanted))
    /\ ((Z.of_nat (length wanted) <= limit)%Z -> Permutation imgs wanted).
Proof.
  intros limit wanted.
  exists (listed_images Date_getTime (this s) args).
  split; [reflexivity |].
  destruct (listed_images_shape (this s) args) as (k & -> & Hk).
  fold wanted limit in Hk |- *.
  split; [| split].
  - intros img Himg. apply In_take in Himg.
    apply (Permutation_in _ (sort_images_perm Date_getTime wanted)) in Himg.
    apply List.filter_In in Himg. exact Himg.
  - intros Hlimit. rewrite (Hk Hlimit), length_take.
    rewrite (Permutation_length (sort_images_perm Date_getTime wanted)).
    reflexivity.
  - intros Hall. rewrite Hk by lia. rewrite take_ge.
    + apply sort_images_perm.
    + rewrite (Permutation_length (sort_images_perm Date_getTime wanted)).
      lia.
Qed.

(** X21. When the timestamps of the wanted images are dates, [list_images]
    shows them newest first, and what the limit leaves out is not newer
    than anything shown. *)
Theorem listImages_newest_first (args : ListArgs) (s : State) :
  let wanted := List.filter (list_wanted args)
                  (JsMap.values (imageMetadata (this s))) in
  Forall (dated Date_getTime) wanted ->
  exists imgs,
    listImages Date_getTime JSON_stringify_listed args s
    = (Ok (text_result
             ("Found " +:+ show_Z (Z.of_nat (length imgs)) +:+ " image(s):"
              +:+ nl +:+ nl +:+ JSON_stringify_listed (map listing imgs))),
       s)
    /\ StronglySorted (not_older Date_getTime) imgs
    /\ (forall shown left_out,
        In shown imgs -> In left_out wanted -> ~ In left_out imgs ->
        not_older Date_getTime shown left_out).
Proof.
  intros wanted Hdated.
  exists (listed_images Date_getTime (this s) args).
  split; [reflexivity |].
  destruct (listed_images_shape (this s) args) as (k & -> & _).
  fold wanted.
  pose proof (sort_images_sorted Date_getTime wanted Hdated) as Hsorted.
  split; [apply take_sorted, Hsorted |].
  intros shown left_out Hshown Hin Hout.
  apply (sorted_rest_after_take _ k _ Hsorted); [exact Hshown |].
  apply (Permutation_in _ (Permutation_sym
                             (sort_images_perm Date_getTime wanted))) in Hin.
  rewrite <- (take_drop k (sort_images Date_getTime wanted)) in Hin.
  apply in_app_or in Hin. destruct Hin as [Hin | Hin]; [contradiction | exact Hin].
Qed.

(** X22. [search_images] changes nothing and finds exactly the images of
    the index that pass the filters given (type, start date, end date,
    query), each of them once; when their timestamps are dates, it shows
    them newest first. *)
Theorem searchImages_selects (args : SearchArgs) (s : State) :
  let passes := fun img =>
    type_wanted args img && from_start Date_getTime args img
    && until_end Date_getTime args img && query_wanted String_toLowerCase args img in
  exists imgs,
    searchImages Date_getTime String_toLowerCase JSON_stringify_found args s
    = (Ok (text_result
             ("Found " +:+ show_Z (Z.of_nat (length imgs))
              +:+ " matching image(s):" +:+ nl +:+ nl
              +:+ JSON_stringify_found (map finding imgs))), s)
    /\ Permutation imgs
         (List.filter passes (JsMap.values (imageMetadata (this s))))
    /\ (forall img,
        In img imgs
        <-> In img (JsMap.values (imageMetadata (this s)))
            /\ passes img = true)
    /\ (Forall (dated Date_getTime) imgs ->
        StronglySorted (not_older Date_getTime) imgs).
Proof.
  intros passes.
  exists (found_images Date_getTime String_toLowerCase (this s) args).
  split; [unfold searchImages, bind, get_this, ret; rewrite length_map;
          reflexivity |].
  assert (Hfilters : forall l : list ImageMetadata.t,
            List.filter (query_wanted String_toLowerCase args)
              (List.filter (until_end Date_getTime args)
                 (List.filter (from_start Date_getTime args)
                    (List.filter (type_wanted args) l)))
            = List.filter passes l).
  { intros l.
    rewrite (filter_twice (type_wanted args) (from_start Date_getTime args)).
    rewrite (filter_twice _ (until_end Date_getTime args)).
    rewrite (filter_twice _ (query_wanted String_toLowerCase args)). reflexivity. }
  unfold found_images. rewrite Hfilters.
  split; [apply sort_images_perm |]. split.
  - intros img. rewrite <- List.filter_In. split.
    + apply Permutation_in, sort_images_perm.
    + apply Permutation_in, Permutation_sym, sort_images_perm.
  - intros Hdated. apply sort_images_sorted.
    rewrite List.Forall_forall in *. intros img Himg. apply Hdated.
    apply (Permutation_in _ (Permutation_sym (sort_images_perm Date_getTime _))).
    exact Himg.
Qed.

End ListingResults.

Lemma listImages_newest_first_witness :
  let args := {| list_limit := Some 1%Z; list_type := None |} in
  let print := fun l : list ListedImage => show_Z (Z.of_nat (length l)) in
  exists imgs,
    listImages sample_time print args running
    = (Ok (text_result
             ("Found " +:+ show_Z (Z.of_nat (length imgs)) +:+ " image(s):"
              +:+ nl +:+ nl +:+ print (map listing imgs))), running)
    /\ StronglySorted (not_older sample_time) imgs
    /\ (forall shown left_out,
        In shown imgs ->
        In left_out [sample_record; lost_record] ->
        ~ In left_out imgs ->
        not_older sample_time shown left_out).
Proof.
  intros args print.
  apply (listImages_newest_first sample_time print args running).
  repeat constructor; discriminate.
Defined.

(** X23. The query of [search_images] is matched through its lower-case
    form: two queries (not empty) with the same lower-case form find the
    same images. *)
Theorem searchImages_ignores_case (Date_getTime : string -> option Z)
    (String_toLowerCase : string -> string)
    (JSON_stringify_found : list FoundImage -> string) (args : SearchArgs)
    (q1 q2 : string) (s : State) :
  q1 <> "" ->
  q2 <> "" ->
  String_toLowerCase q1 = String_toLowerCase q2 ->
  searchImages Date_getTime String_toLowerCase JSON_stringify_found
    (with_query (Some q1) args) s
  = searchImages Date_getTime String_toLowerCase JSON_stringify_found
      (with_query (Some q2) args) s.
Proof.
  intros Hq1 Hq2 Hsame.
  assert (Hquery : forall img,
            query_wanted String_toLowerCase (with_query (Some q1) args) img
            = query_wanted String_toLowerCase (with_query (Some q2) args) img).
  { intros img. unfold query_wanted, with_query. cbn [search_query].
    destruct q1 as [|a1 q1], q2 as [|a2 q2]; try congruence.
    cbn [truthy String.eqb]. rewrite Hsame. reflexivity. }
  assert (Hfound : found_images Date_getTime String_toLowerCase (this s)
                     (with_query (Some q1) args)
                   = found_images Date_getTime String_toLowerCase (this s)
                       (with_query (Some q2) args)).
  { unfold found_images. f_equal.
    set (l := List.filter (until_end Date_getTime (with_query (Some q1) args))
                _).
    change (List.filter
              (until_end Date_getTime (with_query (Some q2) args))
              _) with l.
    clearbody l.
    induction l as [|x l IH]; [reflexivity |]. cbn [List.filter].
    rewrite Hquery, IH. reflexivity. }
  unfold searchImages, bind, get_this, ret. rewrite Hfound. reflexivity.
Qed.

Lemma searchImages_ignores_case_witness :
  let print := fun l : list FoundImage => show_Z (Z.of_nat (length l)) in
  let args := {| search_query := None; search_startDate := None;
                 search_endDate := None; search_type := None |} in
  searchImages sample_time toLowerCase print
    (with_query (Some "Red Circle") args) running
  = searchImages sample_time toLowerCase print
      (with_query (Some "RED circle") args) running.
Proof.
  intros print args.
  apply (searchImages_ignores_case sample_time toLowerCase print args
           "Red Circle" "RED circle" running);
    [discriminate | discriminate | reflexivity].
Defined.

(** X24. A start date or an end date that is not a date makes
    [search_images] find nothing, without an error. *)
Theorem searchImages_with_invalid_date (Date_getTime : string -> option Z)
    (String_toLowerCase : string -> string)
    (JSON_stringify_found : list FoundImage -> string) (args : SearchArgs)
    (s : State) (text : string) :
  text <> "" ->
  Date_getTime text = None ->
  search_startDate args = Some text \/ search_endDate args = Some text ->
  searchImages Date_getTime String_toLowerCase JSON_stringify_found args s
  = (Ok (text_result
           ("Found 0 matching image(s):" +:+ nl +:+ nl
            +:+ JSON_stringify_found [])), s).
Proof.
  intros Hne Hnan Hgiven.
  assert (Htruthy : truthy (Some text) = Some text).
  { unfold truthy. destruct text; [congruence | reflexivity]. }
  assert (Hnone : forall l : list ImageMetadata.t,
            List.filter (until_end Date_getTime args)
              (List.filter (from_start Date_getTime args) l) = []).
  { induction l as [|x l IH]; [reflexivity |]. cbn [List.filter].
    destruct Hgiven as [Hstart | Hend].
    - unfold from_start at 1. rewrite Hstart, Htruthy, Hnan.
      unfold not_before. destruct (time_of Date_getTime x); exact IH.
    - destruct (from_start Date_getTime args x); [| exact IH].
      cbn [List.filter]. unfold until_end at 1.
      rewrite Hend, Htruthy, Hnan. unfold not_before. exact IH. }
  unfold searchImages, bind, get_this, ret, found_images.
  rewrite Hnone. reflexivity.
Qed.

Lemma searchImages_with_invalid_date_witness :
  let print := fun l : list FoundImage => show_Z (Z.of_nat (length l)) in
  searchImages sample_time toLowerCase print
    {| search_query := None; search_startDate := Some "yesterday";
       search_endDate := None; search_type := None |} running
  = (Ok (text_result
           ("Found 0 matching image(s):" +:+ nl +:+ nl +:+ print [])),
     running).
Proof.
  intros print.
  apply (searchImages_with_invalid_date sample_time toLowerCase print
           {| search_query := None; search_startDate := Some "yesterday";
              search_endDate := None; search_type := None |} running
           "yesterday");
    [discriminate | reflexivity | left; reflexivity].
Defined.

(** ** The configuration *)

Section ConfigurationFacts.

Variable Buffer_from_base64 : string -> string.
Variable env : Env.

(** X25. Only [configure_gemini_token] and the start of the server touch
    the credentials: the image tools and [loadMetadata] leave the
    configuration, the API client and the configuration source as they
    are, whether they return or throw. *)
Theorem tools_keep_configuration (up : Upstream) (c : option Config.t)
    (g : option string) (source : ConfigSource) :
  let unchanged := fun t =>
    config t = c /\ genAI t = g /\ configSource t = source in
  (forall amb args,
     keeps unchanged (generateImage Buffer_from_base64 env up amb args))
  /\ (forall amb args,
        keeps unchanged (editImage Buffer_from_base64 env up amb args))
  /\ (forall amb args,
        keeps unchanged (continueEditing Buffer_from_base64 env up amb args))
  /\ (forall imageId, keeps unchanged (deleteImage env imageId))
  /\ keeps unchanged (loadMetadata env).
Proof.
  intros unchanged.
  assert (Hedit : forall amb args,
            keeps unchanged (editImage Buffer_from_base64 env up amb args)).
  { intros amb args. unfold editImage, edit_body, ensure_pathValidator.
    keeps_steps;
      try (apply keeps_update_this; intros obj Hobj; exact Hobj);
      try apply keeps_add_references.
    apply keeps_edit_parts. intros moment filePath imageBuffer obj Hobj.
    exact Hobj. }
  split; [| split; [exact Hedit | split; [| split]]].
  - intros amb args.
    unfold generateImage, generate_body, call_upstream, store_generated,
      saveMetadata.
    keeps_steps; apply keeps_update_this; intros obj Hobj; exact Hobj.
  - intros amb args.
    unfold continueEditing, editImage, edit_body, ensure_pathValidator.
    keeps_steps;
      try (apply keeps_update_this; intros obj Hobj; exact Hobj);
      try apply keeps_add_references.
    apply keeps_edit_parts. intros moment filePath imageBuffer obj Hobj.
    exact Hobj.
  - intros imageId. unfold deleteImage, saveMetadata.
    keeps_steps; apply keeps_update_this; intros obj Hobj; exact Hobj.
  - unfold loadMetadata, load_one.
    keeps_steps; apply keeps_update_this; intros obj Hobj; exact Hobj.
Qed.

(** X26. A key given to [configure_gemini_token] survives a restart: when
    the configuration file can be written and read and the environment
    has no key, [loadConfig] in a new process restores the configuration
    that the tool set, with the key in full and the source
    [config_file]. *)
Theorem configure_then_restart (apiKey : string) (s : State) :
  apiKey <> "" ->
  truthy (GEMINI_API_KEY env) = None ->
  denied (disk (world s)) OpWrite (configPath env) = None ->
  denied (disk (world s)) OpRead (configPath env) = None ->
  exists s1 s2 text,
    configureGeminiToken env apiKey s = (Ok (text_result text), s1)
    /\ loadConfig env {| this := new_ImgMcp; world := world s1 |} = (Ok tt, s2)
    /\ config (this s2) = config (this s1)
    /\ (Config.geminiApiKey <$> config (this s2)) = Some apiKey
    /\ genAI (this s2) = Some apiKey
    /\ configSource (this s2) = config_file
    /\ pathValidator (this s2) = pathValidator (this s1)
    /\ ensureConfigured (this s2) = true.
Proof.
  intros Hkey Henv Hwrite Hread.
  unfold configureGeminiToken.
  destruct (String.eqb_spec apiKey "") as [-> | _]; [congruence |].
  unfold bind at 1, update_this at 1. unfold bind at 1, update_this at 1.
  unfold bind at 1. cbn [this world].
  match goal with
  | |- context [saveConfig env ?st] =>
      rewrite (saveConfig_unfold env st
                 {| Config.geminiApiKey := apiKey;
                    Config.model := "gemini-2.5-flash-image-preview";
                    Config.defaultFormat := "png";
                    Config.outputDirectory := None;
                    Config.maxImageSize := 10 * 1024 * 1024;
                    Config.maxPromptLength := 4000;
                    Config.maxReferenceImages := 5 |} eq_refl)
  end.
  cbn [this world disk configToSave configSource].
  destruct (writeFile_allowed env (disk (world s)) (configPath env)
              (ConfigJson
                 {| Config.geminiApiKey := apiKey;
                    Config.model := "gemini-2.5-flash-image-preview";
                    Config.defaultFormat := "png";
                    Config.outputDirectory := None;
                    Config.maxImageSize := 10 * 1024 * 1024;
                    Config.maxPromptLength := 4000;
                    Config.maxReferenceImages := 5 |}) None Hwrite)
    as (d1 & Hw & Hdata & _ & _ & Hdenied & _).
  unfold configToSave. cbn [configSource]. rewrite Hw.
  unfold bind at 1, Logger_log at 1, ret. cbn [this world disk stderr slept].
  match goal with
  | |- exists s1 s2 text, (_, ?st) = _ /\ _ => exists st
  end.
  unfold loadConfig. rewrite Henv.
  unfold try_catch, bind at 1, from_disk at 1. cbn [this world disk].
  unfold readFile. rewrite Hdenied, Hread.
  unfold file_data in Hdata.
  destruct (files d1 !! configPath env) as [f |] eqn:Hfile;
    [| discriminate Hdata].
  cbn in Hdata. injection Hdata as Hdata. rewrite Hdata.
  assert (Haccepts : schema_accepts
                       {| Config.geminiApiKey := apiKey;
                          Config.model := "gemini-2.5-flash-image-preview";
                          Config.defaultFormat := "png";
                          Config.outputDirectory := None;
                          Config.maxImageSize := 10 * 1024 * 1024;
                          Config.maxPromptLength := 4000;
                          Config.maxReferenceImages := 5 |} = true).
  { unfold schema_accepts. cbn [Config.geminiApiKey Config.defaultFormat].
    destruct (String.eqb_spec apiKey "") as [-> | _]; [congruence |].
    reflexivity. }
  rewrite Haccepts. unfold configure_from, bind, update_this.
  cbn [this world].
  eexists. eexists. split; [reflexivity |]. split; [reflexivity |].
  cbn [this config genAI configSource pathValidator].
  repeat split.
Qed.

(** X27. A server that starts with no key in the environment and no valid
    configuration file is not configured: [generate_image], [edit_image]
    and [continue_editing] throw the configuration error and change
    nothing. *)
Theorem unconfigured_server_rejects_tools (up : Upstream)
    (connect : result unit) (w : World) :
  truthy (GEMINI_API_KEY env) = None ->
  (forall c, readFile (disk w) (configPath env) = Ok (ConfigJson c) ->
             schema_accepts c = false) ->
  let started := snd (run env connect {| this := new_ImgMcp; world := w |}) in
  configSource (this started) = not_configured
  /\ (forall amb args,
        generateImage Buffer_from_base64 env up amb args started
        = (Err not_configured_error, started))
  /\ (forall amb args,
        editImage Buffer_from_base64 env up amb args started
        = (Err not_configured_error, started))
  /\ (forall amb args,
        continueEditing Buffer_from_base64 env up amb args started
        = (Err not_configured_error, started)).
Proof.
  intros Henv Hfile started.
  assert (Hstart : exists s0,
            loadConfig env {| this := new_ImgMcp; world := w |} = (Ok tt, s0)
            /\ config (this s0) = None /\ genAI (this s0) = None
            /\ configSource (this s0) = not_configured).
  { unfold loadConfig. rewrite Henv.
    unfold try_catch, bind, from_disk, update_this, throw. cbn [this world].
    destruct (readFile (disk w) (configPath env)) as [[c | l | b | o] | e] eqn:Hread;
      try (eexists; split; [reflexivity |]; repeat split; fail).
    rewrite (Hfile c eq_refl).
    eexists; split; [reflexivity |]; repeat split. }
  destruct Hstart as (s0 & Hload & Hconfig0 & Hgen0 & Hsource0).
  assert (Hkept : config (this started) = None /\ genAI (this started) = None
                  /\ configSource (this started) = not_configured).
  { assert (Hrun : started
                   = snd ((loadMetadata env ;;;
                           lift_result connect ;;;
                           Logger_log INFO "MCP server started") s0)).
    { subst started. unfold run. unfold bind at 1. rewrite Hload.
      reflexivity. }
    rewrite Hrun.
    assert (Hrest : keeps (fun t => config t = None /\ genAI t = None
                                    /\ configSource t = not_configured)
                      (loadMetadata env ;;;
                       lift_result connect ;;;
                       Logger_log INFO "MCP server started")).
    { unfold loadMetadata, load_one.
      keeps_steps; apply keeps_update_this; intros obj Hobj; exact Hobj. }
    apply (Hrest s0). auto. }
  destruct Hkept as (Hconfig & Hgen & Hsource).
  assert (Hnot : ensureConfigured (this started) = false).
  { unfold ensureConfigured. rewrite Hconfig. reflexivity. }
  split; [exact Hsource |]. split; [| split]; intros amb args.
  - unfold generateImage, bind, get_this. rewrite Hnot. reflexivity.
  - unfold editImage, bind, get_this. rewrite Hnot. reflexivity.
  - unfold continueEditing, bind, get_this. rewrite Hnot. reflexivity.
Qed.

End ConfigurationFacts.

Lemma configure_then_restart_witness :
  exists s1 s2 text,
    configureGeminiToken env0 "AIzaSy-secret" state0
    = (Ok (text_result text), s1)
    /\ loadConfig env0 {| this := new_ImgMcp; world := world s1 |}
       = (Ok tt, s2)
    /\ config (this s2) = config (this s1)
    /\ (Config.geminiApiKey <$> config (this s2)) = Some "AIzaSy-secret"
    /\ genAI (this s2) = Some "AIzaSy-secret"
    /\ configSource (this s2) = config_file
    /\ pathValidator (this s2) = pathValidator (this s1)
    /\ ensureConfigured (this s2) = true.
Proof.
  apply (configure_then_restart env0 "AIzaSy-secret" state0);
    [discriminate | reflexivity ..].
Defined.

Lemma unconfigured_server_rejects_tools_witness :
  let stored :=
    {| Config.geminiApiKey := "AIzaSy-secret";
       Config.model := "gemini-2.5-flash-image-preview";
       Config.defaultFormat := "gif";
       Config.outputDirectory := None;
       Config.maxImageSize := 10485760;
       Config.maxPromptLength := 4000;
       Config.maxReferenceImages := 5 |} in
  let w :=
    {| disk := {| files := {[ configPath env0 :=
                                {| data := ConfigJson stored; perm := 420 |} ]};
                  dirs := ∅; denied := no_refusal |};
       stderr := []; slept := [] |} in
  let started := snd (run env0 (Ok tt) {| this := new_ImgMcp; world := w |}) in
  configSource (this started) = not_configured
  /\ (forall amb args,
        generateImage sample_decoder env0 sample_upstream amb args started
        = (Err not_configured_error, started))
  /\ (forall amb args,
        editImage sample_decoder env0 sample_upstream amb args started
        = (Err not_configured_error, started))
  /\ (forall amb args,
        continueEditing sample_decoder env0 sample_upstream amb args started
        = (Err not_configured_error, started)).
Proof.
  intros stored w.
  apply (unconfigured_server_rejects_tools sample_decoder env0 sample_upstream
           (Ok tt) w); [reflexivity |].
  intros c Hread. vm_compute in Hread. injection Hread as <-. reflexivity.
Defined.

(** ** The handler of tool calls *)

(** X28. The handler of tool calls lets a result through and turns every
    failure of a tool into an [McpError]: an [McpError] is thrown again as
    it is, anything else becomes an [InternalError] whose message is
    "Tool execution failed: " followed by the message of the cause. The
    state is the one the tool left, with the log lines of the handler. *)
Theorem tool_handler_throws_McpError {A : Type} (toolName : string)
    (tool : M A) (s s' : State) (e : JsError) :
  tool_handler toolName tool s = (Err e, s') ->
  exists cause s1,
    tool (snd (Logger_log INFO ("Tool called: " +:+ toolName) s))
    = (Err cause, s1)
    /\ this s' = this s1
    /\ disk (world s') = disk (world s1)
    /\ (exists code msg, e = McpError code msg)
    /\ ((exists code msg, cause = McpError code msg) -> e = cause)
    /\ ((forall code msg, cause <> McpError code msg) ->
        e = McpError InternalError
              ("Tool execution failed: " +:+ error_text cause)).
Proof.
  unfold tool_handler, try_catch. unfold bind at 1.
  cbn [Logger_log snd].
  destruct (tool _) as [[a | cause] s1] eqn:Htool; [discriminate |].
  intros Hrun. exists cause, s1. split; [reflexivity |].
  destruct cause as [code msg | msg | shown];
    unfold bind, Logger_log, throw in Hrun; injection Hrun as <- <-;
    cbn [this world disk].
  - split; [reflexivity |]. split; [reflexivity |]. split; [eauto |].
    split; [reflexivity |]. intros Hnot. destruct (Hnot code msg eq_refl).
  - split; [reflexivity |]. split; [reflexivity |]. split; [eauto |].
    split; [| reflexivity]. intros (code & m & Heq). discriminate Heq.
  - split; [reflexivity |]. split; [reflexivity |]. split; [eauto |].
    split; [| reflexivity]. intros (code & m & Heq). discriminate Heq.
Qed.

Lemma tool_handler_throws_McpError_witness :
  let run := tool_handler "delete_image" (deleteImage env0 sample_id)
               running_locked in
  exists e cause s1,
    fst run = Err e
    /\ deleteImage env0 sample_id
         (snd (Logger_log INFO ("Tool called: " +:+ "delete_image")
                 running_locked))
       = (Err cause, s1)
    /\ this (snd run) = this s1
    /\ disk (world (snd run)) = disk (world s1)
    /\ (exists code msg, e = McpError code msg)
    /\ ((exists code msg, cause = McpError code msg) -> e = cause)
    /\ ((forall code msg, cause <> McpError code msg) ->
        e = McpError InternalError
              ("Tool execution failed: " +:+ error_text cause)).
Proof.
  intros run.
  destruct (tool_handler_throws_McpError "delete_image"
              (deleteImage env0 sample_id) running_locked (snd run)
              (McpError InternalError
                 ("Tool execution failed: " +:+ locked_message)) eq_refl)
    as (cause & s1 & H).
  exists (McpError InternalError
            ("Tool execution failed: " +:+ locked_message)), cause, s1.
  split; [reflexivity | exact H].
Defined.

(** ** Imagen models *)

(** X29. For an Imagen model the image of the answer is not stored: the
    handling of a [generateImages] response tests the bytes under
    [image], but takes the data from the field [imageBytes] of the
    generated image itself. When that field is empty, [generate_image]
    returns the note that no image was generated, with the enhanced
    prompt as description, and adds no record and no file. *)
Theorem imagen_image_is_not_stored (Buffer_from_base64 : string -> string)
    (env : Env) (up : Upstream) (amb : Ambient) (args : GenerateArgs)
    (s : State) (response : ImagesResponse) (generatedImage : GeneratedImage)
    (others : list GeneratedImage) (bytes : string) :
  let t := this s in
  let prompt := arg_prompt args in
  let selectedModel := selected_model t args in
  let selectedFormat := selected_format t args in
  ensureConfigured t = true ->
  blank prompt = false ->
  (prompt_limit t <? Z.of_nat (Str.length prompt))%Z = false ->
  denied (disk (world s)) OpMkdir (getImagesDirectory env t) = None ->
  isImagenModel selectedModel = true ->
  has_generateImages up = true ->
  retry_result
    (retryWithBackoff
       (generateImages up (images_request prompt selectedModel selectedFormat))
       default_maxRetries default_initialDelay) = Ok response ->
  generatedImages response = Some (generatedImage :: others) ->
  truthy (i ← image generatedImage; image_imageBytes i) = Some bytes ->
  truthy (imageBytes generatedImage) = None ->
  exists s',
    generateImage Buffer_from_base64 env up amb args s
    = (Ok (text_result
             (nothing_generated prompt selectedModel selectedFormat
                (default "" (truthy (enhancedPrompt generatedImage))))), s')
    /\ this s' = t
    /\ files (disk (world s')) = files (disk (world s)).
Proof.
  intros t prompt selectedModel selectedFormat Hconf Hblank Hlen Hmk Himagen
    Hhas Hup Himages Hunder Hfield.
  destruct (generateImage_after_upstream Buffer_from_base64 env up amb args s
              Hconf Hblank Hlen Hmk)
    as (s2 & Hthis & Hfiles & _ & _ & Hrun).
  fold t prompt selectedModel selectedFormat in Hrun.
  unfold upstream_outcome in Hrun. rewrite Himagen, Hhas in Hrun.
  cbn [andb] in Hrun. rewrite Hup in Hrun.
  unfold extract_images in Hrun. rewrite Himages, Hunder in Hrun.
  rewrite store_generated_nothing in Hrun by exact Hfield.
  exists s2. split; [exact Hrun |]. split; [exact Hthis | exact Hfiles].
Qed.

Lemma imagen_image_is_not_stored_witness :
  let answer :=
    {| generatedImages :=
         Some [{| image := Some {| image_imageBytes := Some "aGVsbG8=";
                                   image_mimeType := Some "image/png" |};
                  imageBytes := None;
                  enhancedPrompt := Some "a red circle on white" |}] |} in
  let imagen :=
    {| has_generateImages := true;
       generateImages := fun _ _ => Ok answer;
       generateContent := fun _ _ => Err (PlainError "not used") |} in
  let args := {| arg_prompt := "red circle";
                 arg_model := Some "imagen-3.0-generate-002";
                 arg_format := None |} in
  exists s',
    generateImage sample_decoder env0 imagen sample_ambient args running
    = (Ok (text_result
             (nothing_generated "red circle" "imagen-3.0-generate-002" "png"
                "a red circle on white")), s')
    /\ this s' = this running
    /\ files (disk (world s')) = files (disk (world running)).
Proof.
  intros answer imagen args.
  apply (imagen_image_is_not_stored sample_decoder env0 imagen sample_ambient
           args running answer
           {| image := Some {| image_imageBytes := Some "aGVsbG8=";
                               image_mimeType := Some "image/png" |};
              imageBytes := None;
              enhancedPrompt := Some "a red circle on white" |}
           [] "aGVsbG8="); reflexivity.
Defined.
